(** * AlphaNPI list environments: the pre/postcondition oracle, the primitive
    executor, the task sampler and the program registry of
    [environments/list_env.py], embedded and verified.

    The Python objects are modelled as they are written: [self] is a record,
    a state tuple is a tuple, numpy arrays of digits are [list Z] with numpy's
    index rules (negative indices wrap, anything else out of range raises),
    dictionaries keyed by program names are [gmap string _], exceptions are a
    constructor of [result], and the global numpy random generator is a
    stream of raw draws read at a position that every draw advances. *)

From Stdlib Require Import ZArith Lia String Ascii OrdersEx.
From stdpp Require Import base list gmap strings sorting.

Local Open Scope Z_scope.

(** ** Exceptions and results *)

Inductive exn : Set :=
  | IndexError
  | ValueError
  | NameError
  | TypeError
  | NotImplementedError.

(** [OutOfFuel] is only produced by the [while True] rejection loops of the
    task sampler, when the draws of the first [fuel] rounds are all rejected. *)
Inductive result (A : Type) : Type :=
  | Ret (a : A)
  | Raise (e : exn)
  | OutOfFuel.

Arguments Ret {A} a.
Arguments Raise {A} e.
Arguments OutOfFuel {A}.

#[global] Instance result_ret : MRet result := λ A a, Ret a.
#[global] Instance result_bind : MBind result := λ A B f m,
  match m with
  | Ret a => f a
  | Raise e => Raise e
  | OutOfFuel => OutOfFuel
  end.

Definition is_Ret {A} (r : result A) : bool :=
  match r with Ret _ => true | _ => false end.

Definition is_Raise {A} (r : result A) : bool :=
  match r with Raise _ => true | _ => false end.

(** ** Python built-ins used by the module *)

(** [range(lo, hi)] *)
Definition range (lo hi : Z) : list Z :=
  (λ i : nat, lo + Z.of_nat i) <$> seq 0 (Z.to_nat (hi - lo)).

(** [for x in l: body], threading the variables the body assigns. *)
Fixpoint for_each {A S : Type} (l : list A) (body : S → A → result S) (s : S)
  : result S :=
  match l with
  | [] => Ret s
  | x :: l' => s' ← body s x; for_each l' body s'
  end.

(** ** numpy arrays of integers, one-dimensional *)

Module np.

(** Position addressed by index [i] in an array of [n] cells. *)
Definition index (n : nat) (i : Z) : result nat :=
  if (0 <=? i) && (i <? Z.of_nat n) then Ret (Z.to_nat i)
  else if (- Z.of_nat n <=? i) && (i <? 0) then Ret (Z.to_nat (i + Z.of_nat n))
  else Raise IndexError.

(** [a[i]] *)
Definition getitem (a : list Z) (i : Z) : result Z :=
  j ← index (length a) i;
  match a !! j with
  | Some v => Ret v
  | None => Raise IndexError
  end.

(** [a[i] = v] *)
Definition setitem (a : list Z) (i : Z) (v : Z) : result (list Z) :=
  j ← index (length a) i; Ret (<[j := v]> a).

(** [a[[i, j]] = a[[j, i]]]: the right-hand side is read first, then the
    cells [i] and [j] are written in that order. *)
Definition swap (a : list Z) (i j : Z) : result (list Z) :=
  vj ← getitem a j;
  vi ← getitem a i;
  a' ← setitem a i vj;
  setitem a' j vi.

(** [np.array_equal(a, b)]: same shape and same elements. *)
Definition array_equal (a b : list Z) : bool := bool_decide (a = b).

(** Bound of a slice, after Python's normalisation of a negative bound and
    clipping to the array. *)
Definition bound (n : nat) (i : Z) : nat :=
  Z.to_nat (Z.min (Z.of_nat n) (Z.max 0 (if i <? 0 then i + Z.of_nat n else i))).

(** [a[i:j]] *)
Definition slice (a : list Z) (i j : Z) : list Z :=
  let lo := bound (length a) i in
  let hi := bound (length a) j in
  take (hi - lo)%nat (drop lo a).

(** [np.all(xs <= ys)], with the broadcasting of a one-cell operand; other
    shape mismatches raise. *)
Definition all_le (xs ys : list Z) : result bool :=
  if decide (length xs = length ys)
  then Ret (forallb (λ p, fst p <=? snd p) (zip xs ys))
  else match xs, ys with
       | [x], _ => Ret (forallb (λ y, x <=? y) ys)
       | _, [y] => Ret (forallb (λ x, x <=? y) xs)
       | _, _ => Raise ValueError
       end.

(** [a[i:]] *)
Definition slice_from (a : list Z) (i : Z) : list Z :=
  slice a i (Z.of_nat (length a)).

(** Row [j] of [np.eye(n)]; the entries 0.0 and 1.0 are written 0 and 1. *)
Definition eye_row (n j : nat) : list Z :=
  (λ i : nat, if decide (i = j) then 1 else 0) <$> seq 0 n.

(** [np.eye(n)[idxs].reshape(-1)]: the rows addressed by [idxs], one after
    the other. *)
Fixpoint eye_take (n : nat) (idxs : list Z) : result (list Z) :=
  match idxs with
  | [] => Ret []
  | v :: idxs' =>
      j ← index n v;
      rest ← eye_take n idxs';
      Ret (eye_row n j ++ rest)
  end.

(** [np.zeros(n)] *)
Definition zeros (n : Z) : result (list Z) :=
  if n <? 0 then Raise ValueError else Ret (replicate (Z.to_nat n) 0).

(** Position of the first occurrence of the maximum of [a], which follows
    the cell at position [i - 1]; [best] at [besti] is the maximum so far. *)
Fixpoint argmax_from (best : Z) (besti i : nat) (a : list Z) : nat :=
  match a with
  | [] => besti
  | v :: a' =>
      if best <? v then argmax_from v i (S i) a'
      else argmax_from best besti (S i) a'
  end.

(** [np.argmax(a)] *)
Definition argmax (a : list Z) : result Z :=
  match a with
  | [] => Raise ValueError
  | v :: a' => Ret (Z.of_nat (argmax_from v 0 1 a'))
  end.

End np.

(** [int(b)] for a boolean [b] *)
Definition int_of_bool (b : bool) : Z := if b then 1 else 0.

(** ** The random generator

    [np.random] is a stream of raw draws; a sampler reads the stream at a
    position and returns the position of the next unread draw. *)

Definition Rand (A : Type) : Type := (nat → nat) → nat → result (A * nat).

(** [np.random.randint(low, high)] *)
Definition randint (low high : Z) : Rand Z := λ rng k,
  if low <? high
  then Ret (low + Z.of_nat (rng k) mod (high - low), S k)
  else Raise ValueError.

(** [np.random.randint(high, size=size)]; [size] is never negative here, the
    constructors assert [length > 0]. *)
Definition randint_size (high : Z) (size : Z) : Rand (list Z) := λ rng k,
  if 0 <? high
  then let n := Z.to_nat size in
       Ret ((λ i : nat, Z.of_nat (rng (k + i)%nat) mod high) <$> seq 0 n, (k + n)%nat)
  else Raise ValueError.

(** [np.random.choice([a, b])] *)
Definition choice2 (a b : Z) : Rand Z := λ rng k,
  Ret (if Nat.even (rng k) then a else b, S k).

(** [while True: x = draw(); if not reject(x): break] *)
Fixpoint sample_until {A : Type} (fuel : nat) (draw : Rand A) (reject : A → bool)
  : Rand A := λ rng k,
  match fuel with
  | O => OutOfFuel
  | S fuel' =>
      match draw rng k with
      | Ret (x, k') => if reject x then sample_until fuel' draw reject rng k'
                       else Ret (x, k')
      | Raise e => Raise e
      | OutOfFuel => OutOfFuel
      end
  end.

(** The first [n] rounds of that loop, read from position [k], are all
    rejected. *)
Fixpoint rejected_rounds {A : Type} (n : nat) (draw : Rand A) (reject : A → bool)
  (rng : nat → nat) (k : nat) : Prop :=
  match n with
  | O => True
  | S n' => ∃ x k', draw rng k = Ret (x, k') ∧ reject x = true
                    ∧ rejected_rounds n' draw reject rng k'
  end.

(** ** The program registry *)

(** An entry of [programs_library]; the key ['index'] is absent until the
    constructor's loop adds it. *)
Record Program : Type := mkProgram {
  level : Z;
  recursive : bool;
  index : option nat
}.

Definition entry (name : string) (lvl : Z) : string * Program :=
  (name, mkProgram lvl false None).

Definition set_index (idx : nat) (p : Program) : Program :=
  mkProgram (level p) (recursive p) (Some idx).

(** Python orders strings by code point, lexicographically. *)
Definition str_le (a b : string) : Prop := String.leb a b = true.

#[global] Instance str_le_dec a b : Decision (str_le a b).
Proof. unfold str_le. apply _. Defined.

Definition str_lt (a b : string) : Prop := String.ltb a b = true.

#[global] Instance str_lt_dec a b : Decision (str_lt a b).
Proof. unfold str_lt. apply _. Defined.

(** The rank of a name among [names], counting from 0: how many of them come
    strictly before it. *)
Definition rank (names : list string) (key : string) : nat :=
  length (filter (λ k, str_lt k key) names).

(** [sorted(names)] *)
Definition sorted (names : list string) : list string := merge_sort str_le names.

(** [list(d.keys())] *)
Definition keys {V} (d : gmap string V) : list string := (map_to_list d).*1.

(** [lib[key]['index'] = idx] *)
Definition assign_step (d : gmap string Program) (ik : nat * string)
  : gmap string Program :=
  alter (set_index (fst ik)) (snd ik) d.

(** [for idx, key in enumerate(sorted(list(lib.keys()))): lib[key]['index'] = idx] *)
Definition assign_indices (lib : gmap string Program) : gmap string Program :=
  foldl assign_step lib (imap (λ idx key, (idx, key)) (sorted (keys lib))).

(** ** [class ListEnv]: the bubble-sort environment, two pointers *)

Module ListEnv.

(** The attributes of [self] that the environment reads and writes. *)
Record Env : Type := mkEnv {
  length : Z;
  scratchpad_ints : list Z;
  p1_pos : Z;
  p2_pos : Z;
  has_been_reset : bool
}.

(** A state tuple [(scratchpad_ints, p1_pos, p2_pos)]. *)
Definition State : Type := list Z * Z * Z.

(** [__init__]: [assert length > 0]; the scratchpad is [np.zeros((length,))]. *)
Definition __init__ (length : Z) : option Env :=
  if 0 <? length
  then Some (mkEnv length (replicate (Z.to_nat length) 0) 0 0 false)
  else None.

Definition library (hierarchy : bool) : list (string * Program) :=
  if hierarchy
  then [entry "PTR_1_LEFT" 0; entry "STOP" (-1); entry "PTR_2_LEFT" 0;
        entry "PTR_1_RIGHT" 0; entry "PTR_2_RIGHT" 0; entry "SWAP" 0;
        entry "RSHIFT" 1; entry "LSHIFT" 1; entry "COMPSWAP" 1;
        entry "RESET" 2; entry "BUBBLE" 2; entry "BUBBLESORT" 3]
  else [entry "PTR_1_LEFT" 0; entry "STOP" (-1); entry "PTR_2_LEFT" 0;
        entry "PTR_1_RIGHT" 0; entry "PTR_2_RIGHT" 0; entry "SWAP" 0;
        entry "BUBBLESORT" 1].

Definition programs_library (hierarchy : bool) : gmap string Program :=
  assign_indices (list_to_map (library hierarchy)).

(** *** Primitive actions and their preconditions *)

Definition _ptr_1_left (self : Env) : Env :=
  if 0 <? p1_pos self
  then mkEnv (length self) (scratchpad_ints self) (p1_pos self - 1) (p2_pos self)
             (has_been_reset self)
  else self.

Definition _ptr_1_left_precondition (self : Env) : bool := 0 <? p1_pos self.

Definition _stop (self : Env) : Env := self.

Definition _stop_precondition (self : Env) : bool := true.

Definition _ptr_2_left (self : Env) : Env :=
  if 0 <? p2_pos self
  then mkEnv (length self) (scratchpad_ints self) (p1_pos self) (p2_pos self - 1)
             (has_been_reset self)
  else self.

Definition _ptr_2_left_precondition (self : Env) : bool := 0 <? p2_pos self.

Definition _ptr_1_right (self : Env) : Env :=
  if p1_pos self <? length self - 1
  then mkEnv (length self) (scratchpad_ints self) (p1_pos self + 1) (p2_pos self)
             (has_been_reset self)
  else self.

Definition _ptr_1_right_precondition (self : Env) : bool :=
  p1_pos self <? length self - 1.

Definition _ptr_2_right (self : Env) : Env :=
  if p2_pos self <? length self - 1
  then mkEnv (length self) (scratchpad_ints self) (p1_pos self) (p2_pos self + 1)
             (has_been_reset self)
  else self.

Definition _ptr_2_right_precondition (self : Env) : bool :=
  p2_pos self <? length self - 1.

Definition _swap (self : Env) : result Env :=
  a ← np.swap (scratchpad_ints self) (p1_pos self) (p2_pos self);
  Ret (mkEnv (length self) a (p1_pos self) (p2_pos self) (has_been_reset self)).

Definition _swap_precondition (self : Env) : bool :=
  negb (p1_pos self =? p2_pos self).

(** *** Preconditions of the composite programs *)

Definition _compswap_precondition (self : Env) : bool :=
  (p1_pos self <? length self - 1)
  && ((p2_pos self =? p1_pos self) || (p2_pos self =? p1_pos self + 1)).

Definition _lshift_precondition (self : Env) : bool :=
  (0 <? p1_pos self) || (0 <? p2_pos self).

Definition _rshift_precondition (self : Env) : bool :=
  (p1_pos self <? length self - 1) || (p2_pos self <? length self - 1).

Definition _bubble_precondition (self : Env) : bool :=
  (p1_pos self =? 0) && ((p2_pos self =? 0) || (p2_pos self =? 1)).

Definition _reset_precondition (self : Env) : bool := true.

Definition _bubblesort_precondition (self : Env) : bool :=
  (p1_pos self =? 0) && (p2_pos self =? 0).

(** *** State comparison and postconditions *)

Definition compare_state (state1 state2 : State) : bool :=
  let '(a1, p1, q1) := state1 in
  let '(a2, p2, q2) := state2 in
  true && np.array_equal a1 a2 && (p1 =? p2) && (q1 =? q2).

Definition _compswap_postcondition (self : Env) (init_state state : State)
  : result bool :=
  let '(new_scratchpad_ints, new_p1_pos, new_p2_pos) := init_state in
  let new_p2_pos :=
    if (new_p1_pos =? new_p2_pos) && (new_p2_pos <? length self - 1)
    then new_p2_pos + 1 else new_p2_pos in
  let idx_left := Z.min new_p1_pos new_p2_pos in
  let idx_right := Z.max new_p1_pos new_p2_pos in
  l ← np.getitem new_scratchpad_ints idx_left;
  r ← np.getitem new_scratchpad_ints idx_right;
  new_scratchpad_ints ←
    (if r <? l then np.swap new_scratchpad_ints idx_left idx_right
     else Ret new_scratchpad_ints);
  Ret (compare_state state (new_scratchpad_ints, new_p1_pos, new_p2_pos)).

Definition _lshift_postcondition (self : Env) (init_state state : State) : bool :=
  let '(init_scratchpad_ints, init_p1_pos, init_p2_pos) := init_state in
  let '(scratchpad_ints, p1_pos, p2_pos) := state in
  let b := np.array_equal init_scratchpad_ints scratchpad_ints in
  let b := if 0 <? init_p1_pos then b && (p1_pos =? init_p1_pos - 1)
           else b && (p1_pos =? init_p1_pos) in
  let b := if 0 <? init_p2_pos then b && (p2_pos =? init_p2_pos - 1)
           else b && (p2_pos =? init_p2_pos) in
  b.

Definition _rshift_postcondition (self : Env) (init_state state : State) : bool :=
  let '(init_scratchpad_ints, init_p1_pos, init_p2_pos) := init_state in
  let '(scratchpad_ints, p1_pos, p2_pos) := state in
  let b := np.array_equal init_scratchpad_ints scratchpad_ints in
  let b := if init_p1_pos <? length self - 1 then b && (p1_pos =? init_p1_pos + 1)
           else b && (p1_pos =? init_p1_pos) in
  let b := if init_p2_pos <? length self - 1 then b && (p2_pos =? init_p2_pos + 1)
           else b && (p2_pos =? init_p2_pos) in
  b.

Definition _reset_postcondition (self : Env) (init_state state : State) : bool :=
  let '(init_scratchpad_ints, init_p1_pos, init_p2_pos) := init_state in
  let '(scratchpad_ints, p1_pos, p2_pos) := state in
  np.array_equal init_scratchpad_ints scratchpad_ints
  && ((p1_pos =? 0) && (p2_pos =? 0)).

Definition _bubblesort_postcondition (self : Env) (init_state state : State)
  : result bool :=
  let '(scratchpad_ints, p1_pos, p2_pos) := state in
  np.all_le (np.slice scratchpad_ints 0 (length self - 1))
            (np.slice scratchpad_ints 1 (length self)).

(** The body of the loop of [_bubble_postcondition]. *)
Definition bubble_step (a : list Z) (idx : Z) : result (list Z) :=
  r ← np.getitem a (idx + 1);
  l ← np.getitem a idx;
  if r <? l then np.swap a idx (idx + 1) else Ret a.

Definition _bubble_postcondition (self : Env) (init_state state : State)
  : result bool :=
  let '(new_scratchpad_ints, new_p1_pos, new_p2_pos) := init_state in
  new_scratchpad_ints ←
    for_each (range 0 (length self - 1)) bubble_step new_scratchpad_ints;
  let new_p1_pos := length self - 1 in
  let new_p2_pos := length self - 1 in
  Ret (compare_state state (new_scratchpad_ints, new_p1_pos, new_p2_pos)).

(** *** The dispatch tables *)

Definition prog_to_func (hierarchy : bool) : gmap string (Env → result Env) :=
  list_to_map
    [("STOP"%string, λ self, Ret (_stop self));
     ("PTR_1_LEFT"%string, λ self, Ret (_ptr_1_left self));
     ("PTR_2_LEFT"%string, λ self, Ret (_ptr_2_left self));
     ("PTR_1_RIGHT"%string, λ self, Ret (_ptr_1_right self));
     ("PTR_2_RIGHT"%string, λ self, Ret (_ptr_2_right self));
     ("SWAP"%string, _swap)].

Definition prog_to_precondition (hierarchy : bool) : gmap string (Env → bool) :=
  list_to_map
    (if hierarchy
     then [("STOP"%string, _stop_precondition);
           ("RSHIFT"%string, _rshift_precondition);
           ("LSHIFT"%string, _lshift_precondition);
           ("COMPSWAP"%string, _compswap_precondition);
           ("RESET"%string, _reset_precondition);
           ("BUBBLE"%string, _bubble_precondition);
           ("BUBBLESORT"%string, _bubblesort_precondition);
           ("PTR_1_LEFT"%string, _ptr_1_left_precondition);
           ("PTR_2_LEFT"%string, _ptr_2_left_precondition);
           ("PTR_1_RIGHT"%string, _ptr_1_right_precondition);
           ("PTR_2_RIGHT"%string, _ptr_2_right_precondition);
           ("SWAP"%string, _swap_precondition)]
     else [("STOP"%string, _stop_precondition);
           ("BUBBLESORT"%string, _bubblesort_precondition);
           ("PTR_1_LEFT"%string, _ptr_1_left_precondition);
           ("PTR_2_LEFT"%string, _ptr_2_left_precondition);
           ("PTR_1_RIGHT"%string, _ptr_1_right_precondition);
           ("PTR_2_RIGHT"%string, _ptr_2_right_precondition);
           ("SWAP"%string, _swap_precondition)]).

Definition prog_to_postcondition (hierarchy : bool)
  : gmap string (Env → State → State → result bool) :=
  list_to_map
    (if hierarchy
     then [("RSHIFT"%string, λ self s t, Ret (_rshift_postcondition self s t));
           ("LSHIFT"%string, λ self s t, Ret (_lshift_postcondition self s t));
           ("COMPSWAP"%string, _compswap_postcondition);
           ("RESET"%string, λ self s t, Ret (_reset_postcondition self s t));
           ("BUBBLE"%string, _bubble_postcondition);
           ("BUBBLESORT"%string, _bubblesort_postcondition)]
     else [("BUBBLESORT"%string, _bubblesort_postcondition)]).

(** *** The task sampler *)

(** Two pointer positions, each [int(np.random.randint(0, self.length))]. *)
Definition draw_pointers (length : Z) : Rand (Z * Z) := λ rng k,
  '(pos1, k) ← randint 0 length rng k;
  '(pos2, k) ← randint 0 length rng k;
  Ret ((pos1, pos2), k).

(** The [if]/[elif] chain of [reset_env] on the name of the current task. *)
Definition init_pointers (fuel : nat) (current_task_name : string) (length : Z)
  : Rand (Z * Z) := λ rng k,
  if ((current_task_name =? "BUBBLE") || (current_task_name =? "BUBBLESORT"))%string
  then Ret ((0, 0), k)
  else if (current_task_name =? "RESET")%string
  then sample_until fuel (draw_pointers length)
         (λ p, (fst p =? 0) && (snd p =? 0)) rng k
  else if (current_task_name =? "LSHIFT")%string
  then sample_until fuel (draw_pointers length)
         (λ p, (fst p =? 0) && (snd p =? 0)) rng k
  else if (current_task_name =? "RSHIFT")%string
  then sample_until fuel (draw_pointers length)
         (λ p, (fst p =? length - 1) && (snd p =? length - 1)) rng k
  else if (current_task_name =? "COMPSWAP")%string
  then '(pos1, k) ← randint 0 (length - 1) rng k;
       '(pos2, k) ← choice2 pos1 (pos1 + 1) rng k;
       Ret ((pos1, pos2), k)
  else Raise NotImplementedError.

(** [reset_env]: the new [self] together with the outcome, which on success
    is the position of the next unread draw.  [current_task_name] is what
    [get_program_from_index(self.current_task_index)] returned. *)
Definition reset_env (fuel : nat) (current_task_name : string) (self : Env)
  (rng : nat → nat) (k : nat) : Env * result nat :=
  match randint_size 10 (length self) rng k with
  | Ret (a, k) =>
      let self := mkEnv (length self) a (p1_pos self) (p2_pos self)
                        (has_been_reset self) in
      match init_pointers fuel current_task_name (length self) rng k with
      | Ret ((init_pointers_pos1, init_pointers_pos2), k) =>
          (mkEnv (length self) (scratchpad_ints self)
                 init_pointers_pos1 init_pointers_pos2 true, Ret k)
      | Raise e => (self, Raise e)
      | OutOfFuel => (self, OutOfFuel)
      end
  | Raise e => (self, Raise e)
  | OutOfFuel => (self, OutOfFuel)
  end.

Definition get_state (self : Env) : option State :=
  if has_been_reset self
  then Some (scratchpad_ints self, p1_pos self, p2_pos self)
  else None.

Definition reset_to_state (state : State) (self : Env) : Env :=
  let '(a, p1, p2) := state in
  mkEnv (length self) a p1 p2 (has_been_reset self).

(** The states a controller can reach: a successful [reset_env], then
    primitive actions of [prog_to_func], each taken when its entry of
    [prog_to_precondition] holds. *)
Inductive reachable (hierarchy : bool) (length0 : Z) : Env → Prop :=
  | reach_reset fuel task self rng k self' k' :
      0 < length0 →
      length self = length0 →
      reset_env fuel task self rng k = (self', Ret k') →
      reachable hierarchy length0 self'
  | reach_act name f pre self self' :
      reachable hierarchy length0 self →
      prog_to_func hierarchy !! name = Some f →
      prog_to_precondition hierarchy !! name = Some pre →
      pre self = true →
      f self = Ret self' →
      reachable hierarchy length0 self'.

(** *** Observations *)

Definition _one_hot_encode (digit : Z) (basis : Z) : result (list Z) :=
  encoding ← np.zeros basis;
  np.setitem encoding digit 1.

Definition _one_hot_decode (one_encoding : list Z) : result Z :=
  np.argmax one_encoding.

(** [_is_sorted]: [np.all(arr[:-1] <= arr[1:])] *)
Definition _is_sorted (self : Env) : result bool :=
  let arr := scratchpad_ints self in
  np.all_le (np.slice arr 0 (-1)) (np.slice_from arr 1).

(** [get_observation]: [None] when the assertion on [has_been_reset] fails. *)
Definition get_observation (self : Env) : option (result (list Z)) :=
  if has_been_reset self
  then Some (
    p1_val ← np.getitem (scratchpad_ints self) (p1_pos self);
    p2_val ← np.getitem (scratchpad_ints self) (p2_pos self);
    sorted_flag ← _is_sorted self;
    let is_sorted := int_of_bool sorted_flag in
    let pointers_same_pos := int_of_bool (p1_pos self =? p2_pos self) in
    let pt_1_left := int_of_bool (p1_pos self =? 0) in
    let pt_2_left := int_of_bool (p2_pos self =? 0) in
    let pt_1_right := int_of_bool (p1_pos self =? length self - 1) in
    let pt_2_right := int_of_bool (p2_pos self =? length self - 1) in
    p1p2 ← np.eye_take 10 [p1_val; p2_val];
    let bools := [pt_1_left; pt_1_right; pt_2_left; pt_2_right;
                  pointers_same_pos; is_sorted] in
    Ret (p1p2 ++ bools))
  else None.

Definition get_observation_dim : nat := 2 * 10 + 6.

End ListEnv.

(** ** [class QuickSortListEnv]: the quicksort environment, three pointers and
    a stack *)

Module QuickSortListEnv.

Record Env : Type := mkEnv {
  length : Z;
  scratchpad_ints : list Z;
  p1_pos : Z;
  p2_pos : Z;
  p3_pos : Z;
  prog_stack : list Z;
  has_been_reset : bool
}.

(** A state tuple [(scratchpad_ints, p1_pos, p2_pos, p3_pos, prog_stack)]. *)
Definition State : Type := list Z * Z * Z * Z * list Z.

Definition __init__ (length : Z) : option Env :=
  if 0 <? length
  then Some (mkEnv length (replicate (Z.to_nat length) 0) 0 0 0 [] false)
  else None.

Definition library (hierarchy : bool) : list (string * Program) :=
  if hierarchy
  then [entry "PTR_1_LEFT" 0; entry "STOP" (-1); entry "PTR_2_LEFT" 0;
        entry "PTR_1_RIGHT" 0; entry "PTR_2_RIGHT" 0; entry "PTR_3_LEFT" 0;
        entry "PTR_3_RIGHT" 0; entry "SWAP" 0; entry "SWAP_2" 0;
        entry "SWAP_3" 0; entry "PUSH" 0; entry "POP" 0; entry "RSHIFT" 1;
        entry "LSHIFT" 1; entry "COMPSWAP_PARTITION" 1; entry "RESET" 2;
        entry "PARTITION" 2; entry "QUICKSORT" 3]
  else [entry "PTR_1_LEFT" 0; entry "STOP" (-1); entry "PTR_2_LEFT" 0;
        entry "PTR_1_RIGHT" 0; entry "PTR_2_RIGHT" 0; entry "SWAP" 0;
        entry "BUBBLESORT" 1].

Definition programs_library (hierarchy : bool) : gmap string Program :=
  assign_indices (list_to_map (library hierarchy)).

(** *** Primitive actions and their preconditions *)

Definition with_pointers (self : Env) (p1 p2 p3 : Z) : Env :=
  mkEnv (length self) (scratchpad_ints self) p1 p2 p3 (prog_stack self)
        (has_been_reset self).

Definition with_scratchpad (self : Env) (a : list Z) : Env :=
  mkEnv (length self) a (p1_pos self) (p2_pos self) (p3_pos self)
        (prog_stack self) (has_been_reset self).

Definition with_stack (self : Env) (st : list Z) : Env :=
  mkEnv (length self) (scratchpad_ints self) (p1_pos self) (p2_pos self)
        (p3_pos self) st (has_been_reset self).

Definition _ptr_1_left (self : Env) : Env :=
  if 0 <? p1_pos self
  then with_pointers self (p1_pos self - 1) (p2_pos self) (p3_pos self)
  else self.

Definition _ptr_1_left_precondition (self : Env) : bool := 0 <? p1_pos self.

Definition _stop (self : Env) : Env := self.

Definition _stop_precondition (self : Env) : bool := true.

Definition _ptr_2_left (self : Env) : Env :=
  if 0 <? p2_pos self
  then with_pointers self (p1_pos self) (p2_pos self - 1) (p3_pos self)
  else self.

Definition _ptr_2_left_precondition (self : Env) : bool := 0 <? p2_pos self.

Definition _ptr_1_right (self : Env) : Env :=
  if p1_pos self <? length self - 1
  then with_pointers self (p1_pos self + 1) (p2_pos self) (p3_pos self)
  else self.

Definition _ptr_1_right_precondition (self : Env) : bool :=
  p1_pos self <? length self - 1.

Definition _ptr_2_right (self : Env) : Env :=
  if p2_pos self <? length self - 1
  then with_pointers self (p1_pos self) (p2_pos self + 1) (p3_pos self)
  else self.

Definition _ptr_2_right_precondition (self : Env) : bool :=
  p2_pos self <? length self - 1.

Definition _ptr_3_left (self : Env) : Env :=
  if 0 <? p3_pos self
  then with_pointers self (p1_pos self) (p2_pos self) (p3_pos self - 1)
  else self.

Definition _ptr_3_left_precondition (self : Env) : bool := 0 <? p3_pos self.

Definition _ptr_3_right (self : Env) : Env :=
  if p3_pos self <? length self - 1
  then with_pointers self (p1_pos self) (p2_pos self) (p3_pos self + 1)
  else self.

Definition _ptr_3_right_precondition (self : Env) : bool :=
  p3_pos self <? length self - 1.

Definition _swap (self : Env) : result Env :=
  a ← np.swap (scratchpad_ints self) (p1_pos self) (p2_pos self);
  Ret (with_scratchpad self a).

Definition _swap_precondition (self : Env) : bool :=
  negb (p1_pos self =? p2_pos self).

Definition _swap_2 (self : Env) : result Env :=
  a ← np.swap (scratchpad_ints self) (p2_pos self) (p3_pos self);
  Ret (with_scratchpad self a).

Definition _swap_2_precondition (self : Env) : bool :=
  negb (p2_pos self =? p3_pos self).

Definition _swap_3 (self : Env) : result Env :=
  a ← np.swap (scratchpad_ints self) (p3_pos self) (p1_pos self);
  Ret (with_scratchpad self a).

Definition _swap_3_precondition (self : Env) : bool :=
  negb (p3_pos self =? p1_pos self).

Definition _push_precondition (self : Env) : bool := true.

(** [_push]: the assertion on [_push_precondition] cannot fail; each [if]
    appends three integers to the end of [prog_stack]. *)
Definition _push (self : Env) : Env :=
  let st := prog_stack self in
  let st := if p3_pos self + 1 <? p2_pos self
            then st ++ [p3_pos self + 1; p2_pos self; p3_pos self + 1]
            else st in
  let st := if 0 <? p3_pos self - 1
            then st ++ [p1_pos self; p3_pos self - 1; p1_pos self]
            else st in
  with_stack self st.

(** [list.pop()]: removes and returns the last element. *)
Definition list_pop (st : list Z) : result (Z * list Z) :=
  match last st with
  | Some v => Ret (v, removelast st)
  | None => Raise IndexError
  end.

Definition _pop (self : Env) : result Env :=
  if (3 <=? Z.of_nat (List.length (prog_stack self)))
  then '(p1, st) ← list_pop (prog_stack self);
       '(p2, st) ← list_pop st;
       '(p3, st) ← list_pop st;
       Ret (mkEnv (length self) (scratchpad_ints self) p1 p2 p3 st
                  (has_been_reset self))
  else Ret self.

Definition _pop_precondition (self : Env) : bool :=
  3 <=? Z.of_nat (List.length (prog_stack self)).

(** *** Preconditions of the composite programs *)

Definition _lshift_precondition (self : Env) : bool :=
  (0 <? p1_pos self) || (0 <? p2_pos self) || (0 <? p3_pos self).

Definition _rshift_precondition (self : Env) : bool :=
  (p1_pos self <? length self - 1) || (p2_pos self <? length self - 1)
  || (p3_pos self <? length self - 1).

Definition _reset_precondition (self : Env) : bool := true.

Definition _bubblesort_precondition (self : Env) : bool :=
  (p1_pos self =? 0) && (p2_pos self =? 0).

Definition _compswap_partition_precondition (self : Env) : bool :=
  (p1_pos self <=? p2_pos self) && (p3_pos self =? p1_pos self).

Definition _partition_precondition (self : Env) : bool :=
  (p1_pos self <=? p2_pos self) && (p3_pos self =? p1_pos self).

Definition _quicksort_precondition (self : Env) : bool :=
  (p1_pos self =? 0) && (p2_pos self =? length self - 1) && (p3_pos self =? 0).

(** *** State comparison and postconditions *)

Definition compare_state (state1 state2 : State) : bool :=
  let '(a1, p1, q1, r1, st1) := state1 in
  let '(a2, p2, q2, r2, st2) := state2 in
  true && np.array_equal a1 a2 && (p1 =? p2) && (q1 =? q2) && (r1 =? r2)
  && bool_decide (st1 = st2).

(** The reference computation of [_compswap_postcondition], up to the
    construction of [new_state]. *)
Definition compswap_reference (self : Env) (init_state : State) : result State :=
  let '(new_scratchpad_ints, new_p1_pos, new_p2_pos, new_p3_pos, new_stack) :=
    init_state in
  let new_p2_pos :=
    if (new_p1_pos =? new_p2_pos) && (new_p2_pos <? length self - 1)
    then new_p2_pos + 1 else new_p2_pos in
  let idx_left := Z.min new_p1_pos new_p2_pos in
  let idx_right := Z.max new_p1_pos new_p2_pos in
  l ← np.getitem new_scratchpad_ints idx_left;
  r ← np.getitem new_scratchpad_ints idx_right;
  new_scratchpad_ints ←
    (if r <? l then np.swap new_scratchpad_ints idx_left idx_right
     else Ret new_scratchpad_ints);
  Ret (new_scratchpad_ints, new_p1_pos, new_p2_pos, new_p3_pos, new_stack).

(** [_compswap_postcondition] (not in the dispatch table): it ends with
    [compare_state(new_state, init_state)]. *)
Definition _compswap_postcondition (self : Env) (init_state state : State)
  : result bool :=
  new_state ← compswap_reference self init_state;
  Ret (compare_state new_state init_state).

Definition _lshift_postcondition (self : Env) (init_state state : State) : bool :=
  let '(init_scratchpad_ints, init_p1_pos, init_p2_pos, init_p3_pos, init_stack) :=
    init_state in
  let '(scratchpad_ints, p1_pos, p2_pos, p3_pos, stack) := state in
  let b := np.array_equal init_scratchpad_ints scratchpad_ints in
  let b := bool_decide (init_stack = stack) in
  let b := if 0 <? init_p1_pos then b && (p1_pos =? init_p1_pos - 1)
           else b && (p1_pos =? init_p1_pos) in
  let b := if 0 <? init_p2_pos then b && (p2_pos =? init_p2_pos - 1)
           else b && (p2_pos =? init_p2_pos) in
  let b := if 0 <? init_p3_pos then b && (p3_pos =? init_p3_pos - 1)
           else b && (p3_pos =? init_p3_pos) in
  b.

Definition _rshift_postcondition (self : Env) (init_state state : State) : bool :=
  let '(init_scratchpad_ints, init_p1_pos, init_p2_pos, init_p3_pos, init_stack) :=
    init_state in
  let '(scratchpad_ints, p1_pos, p2_pos, p3_pos, stack) := state in
  let b := np.array_equal init_scratchpad_ints scratchpad_ints in
  let b := b && bool_decide (init_stack = stack) in
  let b := if init_p1_pos <? length self - 1 then b && (p1_pos =? init_p1_pos + 1)
           else b && (p1_pos =? init_p1_pos) in
  let b := if init_p2_pos <? length self - 1 then b && (p2_pos =? init_p2_pos + 1)
           else b && (p2_pos =? init_p2_pos) in
  let b := if init_p3_pos <? length self - 1 then b && (p3_pos =? init_p3_pos + 1)
           else b && (p3_pos =? init_p3_pos) in
  b.

Definition _reset_postcondition (self : Env) (init_state state : State) : bool :=
  let '(init_scratchpad_ints, init_p1_pos, init_p2_pos, init_p3_pos, init_stack) :=
    init_state in
  let '(scratchpad_ints, p1_pos, p2_pos, p3_pos, stack) := state in
  np.array_equal init_scratchpad_ints scratchpad_ints
  && bool_decide (init_stack = stack)
  && ((p1_pos =? 0) && (p2_pos =? 0) && (p3_pos =? 0)).

Definition _bubblesort_postcondition (self : Env) (init_state state : State)
  : result bool :=
  let '(scratchpad_ints, p1_pos, p2_pos, p3_pos, stack) := state in
  np.all_le (np.slice scratchpad_ints 0 (length self - 1))
            (np.slice scratchpad_ints 1 (length self)).

(** The [while (j<h)] loop of [_partition]; [j] grows by one each round, so
    [h - j] rounds are left. *)
Fixpoint partition_loop (fuel : nat) (x h : Z) (arr : list Z) (l j : Z)
  : result (list Z * Z * Z) :=
  if j <? h
  then match fuel with
       | O => OutOfFuel
       | S fuel' =>
           aj ← np.getitem arr j;
           '(arr, l) ← (if aj <=? x
                        then arr' ← np.swap arr j l; Ret (arr', l + 1)
                        else Ret (arr, l));
           partition_loop fuel' x h arr l (j + 1)
       end
  else Ret (arr, l, j).

(** [_partition(arr, l, h, j)], a function of the class body. *)
Definition _partition (arr : list Z) (l h j : Z) : result (list Z * Z * Z * Z) :=
  let temp_l := l in
  x ← np.getitem arr h;
  '(arr, l, j) ← partition_loop (Z.to_nat (h - j)) x h arr l j;
  arr ← np.swap arr l h;
  Ret (arr, temp_l, h, l).

(** The body of the loop of [_compswap_partition_postcondition]; the loop
    assigns [new_scratchpad_ints] and [new_p1_pos] and reads [new_p2_pos]. *)
Definition compswap_partition_step (new_p2_pos : Z) (s : list Z * Z) (idx : Z)
  : result (list Z * Z) :=
  let '(new_scratchpad_ints, new_p1_pos) := s in
  v ← np.getitem new_scratchpad_ints idx;
  pv ← np.getitem new_scratchpad_ints new_p2_pos;
  if v <? pv
  then let new_p1_pos := new_p1_pos + 1 in
       a ← np.swap new_scratchpad_ints new_p1_pos idx;
       Ret (a, new_p1_pos)
  else Ret (new_scratchpad_ints, new_p1_pos).

Definition _compswap_partition_postcondition (self : Env)
  (init_state state : State) : result bool :=
  let '(new_scratchpad_ints, new_p1_pos, new_p2_pos, new_p3_pos, stack) :=
    init_state in
  '(new_scratchpad_ints, new_p1_pos) ←
    for_each (range new_p1_pos new_p2_pos) (compswap_partition_step new_p2_pos)
             (new_scratchpad_ints, new_p1_pos);
  let new_p3_pos := new_p2_pos - 1 in
  Ret (compare_state state
         (new_scratchpad_ints, new_p1_pos, new_p2_pos, new_p3_pos, stack)).

(** The names bound at module level in [list_env.py]: its imports and its
    three classes.  A name used in a method body is looked up in the locals,
    then here; the names of the class body are not in scope. *)
Definition module_globals : list string :=
  ["np"; "torch"; "nn"; "F"; "OrderedDict"; "Environment"; "ListEnvEncoder";
   "ListEnv"; "QuickSortListEnv"]%string.

Definition load_global (name : string) : result unit :=
  if bool_decide (name ∈ module_globals) then Ret () else Raise NameError.

(** [_partition_postcondition]: the call is [_partition(new_scratchpad_ints)],
    a bare name with one argument; were the name bound to the function of
    four parameters, the call would raise [TypeError]. *)
Definition _partition_postcondition (self : Env) (init_state state : State)
  : result bool :=
  let '(new_scratchpad_ints, new_p1_pos, new_p2_pos, new_p3_pos, stack) :=
    init_state in
  _ ← load_global "_partition";
  '(arr, l, h, j) ← (Raise TypeError : result (list Z * Z * Z * Z));
  let new_p1_pos := l in
  let new_p2_pos := h in
  let new_p3_pos := j in
  Ret (compare_state state (arr, new_p1_pos, new_p2_pos, new_p3_pos, stack)).

Definition _quicksort_postcondition (self : Env) (init_state state : State)
  : result bool :=
  let '(scratchpad_ints, p1_pos, p2_pos, p3_pos, stack) := state in
  np.all_le (np.slice scratchpad_ints 0 (length self - 1))
            (np.slice scratchpad_ints 1 (length self)).

(** *** The dispatch tables *)

Definition prog_to_func (hierarchy : bool) : gmap string (Env → result Env) :=
  list_to_map
    (if hierarchy
     then [("STOP"%string, λ self, Ret (_stop self));
           ("PTR_1_LEFT"%string, λ self, Ret (_ptr_1_left self));
           ("PTR_2_LEFT"%string, λ self, Ret (_ptr_2_left self));
           ("PTR_1_RIGHT"%string, λ self, Ret (_ptr_1_right self));
           ("PTR_2_RIGHT"%string, λ self, Ret (_ptr_2_right self));
           ("PTR_3_LEFT"%string, λ self, Ret (_ptr_3_left self));
           ("PTR_3_RIGHT"%string, λ self, Ret (_ptr_3_right self));
           ("PUSH"%string, λ self, Ret (_push self));
           ("POP"%string, _pop);
           ("SWAP"%string, _swap);
           ("SWAP_2"%string, _swap_2);
           ("SWAP_3"%string, _swap_3)]
     else [("STOP"%string, λ self, Ret (_stop self));
           ("PTR_1_LEFT"%string, λ self, Ret (_ptr_1_left self));
           ("PTR_2_LEFT"%string, λ self, Ret (_ptr_2_left self));
           ("PTR_1_RIGHT"%string, λ self, Ret (_ptr_1_right self));
           ("PTR_2_RIGHT"%string, λ self, Ret (_ptr_2_right self));
           ("SWAP"%string, _swap)]).

Definition prog_to_precondition (hierarchy : bool) : gmap string (Env → bool) :=
  list_to_map
    (if hierarchy
     then [("STOP"%string, _stop_precondition);
           ("RSHIFT"%string, _rshift_precondition);
           ("LSHIFT"%string, _lshift_precondition);
           ("PUSH"%string, _push_precondition);
           ("POP"%string, _pop_precondition);
           ("COMPSWAP_PARTITION"%string, _compswap_partition_precondition);
           ("RESET"%string, _reset_precondition);
           ("PARTITION"%string, _partition_precondition);
           ("QUICKSORT"%string, _quicksort_precondition);
           ("PTR_1_LEFT"%string, _ptr_1_left_precondition);
           ("PTR_2_LEFT"%string, _ptr_2_left_precondition);
           ("PTR_1_RIGHT"%string, _ptr_1_right_precondition);
           ("PTR_2_RIGHT"%string, _ptr_2_right_precondition);
           ("PTR_3_LEFT"%string, _ptr_3_left_precondition);
           ("PTR_3_RIGHT"%string, _ptr_3_right_precondition);
           ("SWAP"%string, _swap_precondition);
           ("SWAP_2"%string, _swap_2_precondition);
           ("SWAP_3"%string, _swap_3_precondition)]
     else [("STOP"%string, _stop_precondition);
           ("BUBBLESORT"%string, _bubblesort_precondition);
           ("PTR_1_LEFT"%string, _ptr_1_left_precondition);
           ("PTR_2_LEFT"%string, _ptr_2_left_precondition);
           ("PTR_1_RIGHT"%string, _ptr_1_right_precondition);
           ("PTR_2_RIGHT"%string, _ptr_2_right_precondition);
           ("SWAP"%string, _swap_precondition)]).

Definition prog_to_postcondition (hierarchy : bool)
  : gmap string (Env → State → State → result bool) :=
  list_to_map
    (if hierarchy
     then [("RSHIFT"%string, λ self s t, Ret (_rshift_postcondition self s t));
           ("LSHIFT"%string, λ self s t, Ret (_lshift_postcondition self s t));
           ("COMPSWAP_PARTITION"%string, _compswap_partition_postcondition);
           ("RESET"%string, λ self s t, Ret (_reset_postcondition self s t));
           ("PARTITION"%string, _partition_postcondition);
           ("QUICKSORT"%string, _quicksort_postcondition)]
     else [("BUBBLESORT"%string, _bubblesort_postcondition)]).

(** *** The task sampler *)

(** Three pointer positions, each [int(np.random.randint(0, self.length))]. *)
Definition draw_pointers (length : Z) : Rand (Z * Z * Z) := λ rng k,
  '(pos1, k) ← randint 0 length rng k;
  '(pos2, k) ← randint 0 length rng k;
  '(pos3, k) ← randint 0 length rng k;
  Ret ((pos1, pos2, pos3), k).

Definition all_eq (v : Z) (p : Z * Z * Z) : bool :=
  let '(pos1, pos2, pos3) := p in (pos1 =? v) && (pos2 =? v) && (pos3 =? v).

(** The [if]/[elif] chain of [reset_env] on the name of the current task. *)
Definition init_pointers (fuel : nat) (current_task_name : string) (length : Z)
  : Rand (Z * Z * Z) := λ rng k,
  if ((current_task_name =? "BUBBLE") || (current_task_name =? "BUBBLESORT"))%string
  then Ret ((0, 0, 0), k)
  else if ((current_task_name =? "PARTITION")
           || (current_task_name =? "COMPSWAP_PARTITION"))%string
  then '(pos2, k) ← sample_until fuel (randint 0 length) (λ pos2, pos2 =? 0) rng k;
       '(pos1, k) ← randint 0 pos2 rng k;
       Ret ((pos1, pos2, pos1), k)
  else if (current_task_name =? "QUICKSORT")%string
  then Ret ((0, length - 1, 0), k)
  else if (current_task_name =? "RESET")%string
  then sample_until fuel (draw_pointers length) (all_eq 0) rng k
  else if (current_task_name =? "LSHIFT")%string
  then sample_until fuel (draw_pointers length) (all_eq 0) rng k
  else if (current_task_name =? "RSHIFT")%string
  then sample_until fuel (draw_pointers length) (all_eq (length - 1)) rng k
  else if (current_task_name =? "COMPSWAP")%string
  then '(pos1, k) ← randint 0 (length - 1) rng k;
       '(pos2, k) ← choice2 pos1 (pos1 + 1) rng k;
       Ret ((pos1, pos2, 0), k)
  else Raise NotImplementedError.

(** [reset_env]: the new [self] together with the outcome, which on success
    is the position of the next unread draw.  [current_task_name] is what
    [get_program_from_index(self.current_task_index)] returned. *)
Definition reset_env (fuel : nat) (current_task_name : string) (self : Env)
  (rng : nat → nat) (k : nat) : Env * result nat :=
  match randint_size 10 (length self) rng k with
  | Ret (a, k) =>
      let self := with_scratchpad self a in
      match randint_size (length self - 1) (3 * (length self `mod` 2)) rng k with
      | Ret (st, k) =>
          let self := with_stack self st in
          match init_pointers fuel current_task_name (length self) rng k with
          | Ret ((init_pointers_pos1, init_pointers_pos2, init_pointers_pos3), k) =>
              (mkEnv (length self) (scratchpad_ints self) init_pointers_pos1
                     init_pointers_pos2 init_pointers_pos3 (prog_stack self) true,
               Ret k)
          | Raise e => (self, Raise e)
          | OutOfFuel => (self, OutOfFuel)
          end
      | Raise e => (self, Raise e)
      | OutOfFuel => (self, OutOfFuel)
      end
  | Raise e => (self, Raise e)
  | OutOfFuel => (self, OutOfFuel)
  end.

Definition get_state (self : Env) : option State :=
  if has_been_reset self
  then Some (scratchpad_ints self, p1_pos self, p2_pos self, p3_pos self,
             prog_stack self)
  else None.

Definition reset_to_state (state : State) (self : Env) : Env :=
  let '(a, p1, p2, p3, st) := state in
  mkEnv (length self) a p1 p2 p3 st (has_been_reset self).

(** The states a controller can reach: a successful [reset_env], then
    primitive actions of [prog_to_func], each taken when its entry of
    [prog_to_precondition] holds. *)
Inductive reachable (hierarchy : bool) (length0 : Z) : Env → Prop :=
  | reach_reset fuel task self rng k self' k' :
      0 < length0 →
      length self = length0 →
      reset_env fuel task self rng k = (self', Ret k') →
      reachable hierarchy length0 self'
  | reach_act name f pre self self' :
      reachable hierarchy length0 self →
      prog_to_func hierarchy !! name = Some f →
      prog_to_precondition hierarchy !! name = Some pre →
      pre self = true →
      f self = Ret self' →
      reachable hierarchy length0 self'.

(** *** Observations *)

Definition _one_hot_encode (digit : Z) (basis : Z) : result (list Z) :=
  encoding ← np.zeros basis;
  np.setitem encoding digit 1.

Definition _one_hot_decode (one_encoding : list Z) : result Z :=
  np.argmax one_encoding.

(** [_is_sorted]: [np.all(arr[:-1] <= arr[1:])] *)
Definition _is_sorted (self : Env) : result bool :=
  let arr := scratchpad_ints self in
  np.all_le (np.slice arr 0 (-1)) (np.slice_from arr 1).

(** [get_observation]: [None] when the assertion on [has_been_reset] fails. *)
Definition get_observation (self : Env) : option (result (list Z)) :=
  if has_been_reset self
  then Some (
    p1_val ← np.getitem (scratchpad_ints self) (p1_pos self);
    p2_val ← np.getitem (scratchpad_ints self) (p2_pos self);
    p3_val ← np.getitem (scratchpad_ints self) (p3_pos self);
    sorted_flag ← _is_sorted self;
    let is_sorted := int_of_bool sorted_flag in
    let is_stack_empty :=
      int_of_bool (3 <=? Z.of_nat (List.length (prog_stack self))) in
    let pointers_same_pos := int_of_bool (p1_pos self =? p2_pos self) in
    let pointers_same_pos_2 := int_of_bool (p2_pos self =? p3_pos self) in
    let pt_1_left := int_of_bool (p1_pos self =? 0) in
    let pt_2_left := int_of_bool (p2_pos self =? 0) in
    let pt_1_right := int_of_bool (p1_pos self =? length self - 1) in
    let pt_2_right := int_of_bool (p2_pos self =? length self - 1) in
    let pt_3_left := int_of_bool (p3_pos self =? 0) in
    let pt_3_right := int_of_bool (p3_pos self =? length self - 1) in
    p1p2p3 ← np.eye_take 10 [p1_val; p2_val; p3_val];
    let bools := [pt_1_left; pt_1_right; pt_2_left; pt_2_right; pt_3_left;
                  pt_3_right; pointers_same_pos; pointers_same_pos_2;
                  is_sorted; is_stack_empty] in
    Ret (p1p2p3 ++ bools))
  else None.

Definition get_observation_dim : nat := 3 * 10 + 10.

End QuickSortListEnv.

(** ** Reference notions of the specification *)

(** A scratchpad that is non-decreasing end to end. *)
Definition non_decreasing (a : list Z) : Prop :=
  ∀ (i j : nat) (x y : Z), (i ≤ j)%nat → a !! i = Some x → a !! j = Some y → x ≤ y.

(** One left-to-right pass of adjacent compare-and-swap steps, written on the
    list: [x] is the element carried to the right, [rest] the cells after it. *)
Fixpoint bubble_from (x : Z) (rest : list Z) : list Z :=
  match rest with
  | [] => [x]
  | y :: rest' => if y <? x then y :: bubble_from x rest' else x :: bubble_from y rest'
  end.

Definition bubble_pass (a : list Z) : list Z :=
  match a with
  | [] => []
  | x :: rest => bubble_from x rest
  end.

(** The single comparison-swap step, in the words of the specification: when
    [p1 = p2] and [p2] is not at the right boundary, [p2] first advances by
    one; the element at the larger of [p1], [p2] is then compared against the
    element at the smaller, and the two are exchanged when out of order; the
    other cells, [p3] and the stack stay. *)
Definition single_compswap_step (len : Z) (s : QuickSortListEnv.State)
  : QuickSortListEnv.State :=
  let '(a, p1, p2, p3, st) := s in
  let p2 := if (p1 =? p2) && (p2 <? len - 1) then p2 + 1 else p2 in
  let lo := Z.to_nat (Z.min p1 p2) in
  let hi := Z.to_nat (Z.max p1 p2) in
  match a !! lo, a !! hi with
  | Some x, Some y =>
      if y <? x then (<[hi := x]> (<[lo := y]> a), p1, p2, p3, st)
      else (a, p1, p2, p3, st)
  | _, _ => (a, p1, p2, p3, st)
  end.

(** Exchange of the cells [i] and [j] of a list. *)
Definition exchange (a : list Z) (i j : nat) : list Z :=
  <[j := a !!! i]> (<[i := a !!! j]> a).

(** The scan that [_compswap_partition_postcondition] runs, written on
    positions inside the list: [idxs] are the positions still to visit,
    [pivot] the position of the element compared against, [p1] the pointer
    that advances before each exchange. *)
Fixpoint partition_scan (pivot : nat) (idxs : list nat) (a : list Z) (p1 : nat)
  : list Z * nat :=
  match idxs with
  | [] => (a, p1)
  | idx :: idxs' =>
      if a !!! idx <? a !!! pivot
      then partition_scan pivot idxs' (exchange a (S p1) idx) (S p1)
      else partition_scan pivot idxs' a p1
  end.

(** The state the scan leaves: the scanned scratchpad and the advanced [p1];
    [p2] and the stack of the snapshot; [p3 = p2 - 1]. *)
Definition scan_outcome (s : QuickSortListEnv.State) : QuickSortListEnv.State :=
  let '(a, p1, p2, p3, st) := s in
  let '(a', p1') :=
    partition_scan (Z.to_nat p2) (seq (Z.to_nat p1) (Z.to_nat (p2 - p1))) a
                   (Z.to_nat p1) in
  (a', Z.of_nat p1', p2, p2 - 1, st).

(** The invariant of the data model, bubble-sort environment. *)
Definition ListEnv_wf (length0 : Z) (self : ListEnv.Env) : Prop :=
  ListEnv.length self = length0
  ∧ Z.of_nat (length (ListEnv.scratchpad_ints self)) = length0
  ∧ 0 ≤ ListEnv.p1_pos self ≤ length0 - 1
  ∧ 0 ≤ ListEnv.p2_pos self ≤ length0 - 1.

(** The invariant of the data model, quicksort environment. *)
Definition QuickSort_wf (length0 : Z) (self : QuickSortListEnv.Env) : Prop :=
  QuickSortListEnv.length self = length0
  ∧ Z.of_nat (length (QuickSortListEnv.scratchpad_ints self)) = length0
  ∧ 0 ≤ QuickSortListEnv.p1_pos self ≤ length0 - 1
  ∧ 0 ≤ QuickSortListEnv.p2_pos self ≤ length0 - 1
  ∧ 0 ≤ QuickSortListEnv.p3_pos self ≤ length0 - 1
  ∧ (length (QuickSortListEnv.prog_stack self) `mod` 3 = 0)%nat.

(** What the stack holds: positions of the scratchpad. *)
Definition stack_in_range (length0 : Z) (self : QuickSortListEnv.Env) : Prop :=
  Forall (λ v, 0 ≤ v ≤ length0 - 1) (QuickSortListEnv.prog_stack self).

(** The tasks with a sampling rule, as the specification enumerates them. *)
Definition bubble_tasks : list string :=
  ["BUBBLE"; "BUBBLESORT"; "RESET"; "LSHIFT"; "RSHIFT"; "COMPSWAP"]%string.

Definition quicksort_tasks : list string :=
  bubble_tasks ++ ["PARTITION"; "COMPSWAP_PARTITION"; "QUICKSORT"]%string.

(** A run of [reset_env] is a function of the fuel of its rejection loop, of
    the random stream and of the position in it.  An unsupported task: every
    run raises [NotImplementedError] and leaves [has_been_reset] as it was. *)
Definition reset_unsupported {E : Type} (flag : E → bool) (self : E)
  (run : nat → (nat → nat) → nat → E * result nat) : Prop :=
  ∀ fuel rng k,
    snd (run fuel rng k) = Raise NotImplementedError
    ∧ flag (fst (run fuel rng k)) = flag self.

(** The raw draws at the [n] positions from [k] on all give the position [v]
    of a list of [len] cells. *)
Definition draws_all (len v : Z) (rng : nat → nat) (k n : nat) : Prop :=
  ∀ i : nat, (i < n)%nat → Z.of_nat (rng (k + i)%nat) mod len = v.

(** The rejection loop of a task: [None] for a task that draws its pointers
    without a loop, [Some (v, w)] for a loop whose round reads [w] raw draws
    and is rejected when all of them give the position [v]. *)
Definition ListEnv_loop (task : string) (len : Z) : option (Z * nat) :=
  if ((task =? "RESET") || (task =? "LSHIFT"))%string then Some (0, 2%nat)
  else if (task =? "RSHIFT")%string then Some (len - 1, 2%nat)
  else None.

Definition QuickSort_loop (task : string) (len : Z) : option (Z * nat) :=
  if ((task =? "RESET") || (task =? "LSHIFT"))%string then Some (0, 3%nat)
  else if (task =? "RSHIFT")%string then Some (len - 1, 3%nat)
  else if ((task =? "PARTITION") || (task =? "COMPSWAP_PARTITION"))%string
  then Some (0, 1%nat)
  else None.

(** Where the pointer sampler starts to read when [reset_env] starts at [k]:
    after the [len] digits of the scratchpad and, in the quicksort class,
    the entries of the stack. *)
Definition ListEnv_loop_start (len : Z) (k : nat) : nat := (k + Z.to_nat len)%nat.

Definition QuickSort_loop_start (len : Z) (k : nat) : nat :=
  (k + Z.to_nat len + Z.to_nat (3 * (len `mod` 2)))%nat.

(** A supported task: no run raises; a run that returns has marked the
    environment as reset; a task without a rejection loop returns on every
    random stream, and a task with one returns as soon as a round is not
    rejected, that is, it is still without a result after [fuel] rounds
    exactly when every draw of these rounds gave the rejected position; and
    some random stream makes every run with at least one round return. *)
Definition reset_succeeds {E : Type} (flag : E → bool) (len : Z)
  (start : nat → nat) (loop : option (Z * nat))
  (run : nat → (nat → nat) → nat → E * result nat) : Prop :=
  (∀ fuel rng k, is_Raise (snd (run fuel rng k)) = false)
  ∧ (∀ fuel rng k, is_Ret (snd (run fuel rng k)) = true →
       flag (fst (run fuel rng k)) = true)
  ∧ match loop with
    | None => ∀ fuel rng k, is_Ret (snd (run fuel rng k)) = true
    | Some (v, w) =>
        ∀ fuel rng k,
          is_Ret (snd (run fuel rng k)) = false
          ↔ draws_all len v rng (start k) (w * fuel)
    end
  ∧ (∃ rng, ∀ fuel k, is_Ret (snd (run (S fuel) rng k)) = true).

(** The invariant that the primitives of the quicksort class preserve. *)
Definition QuickSort_inv (len : Z) (self : QuickSortListEnv.Env) : Prop :=
  QuickSort_wf len self ∧ stack_in_range len self.

(** The outcome of [reset_env] from the result of the pointer sampler. *)
Definition outcome_of {A} (r : result (A * nat)) : result nat :=
  match r with
  | Ret (_, k) => Ret k
  | Raise e => Raise e
  | OutOfFuel => OutOfFuel
  end.

(** A random stream that the rejection loop of the task accepts at once. *)
Definition accepted_stream (task : string) : nat → nat :=
  if (task =? "RSHIFT")%string then (λ _, 0%nat) else (λ _, 1%nat).

(** The cells [p] and [q] of [a] are exchanged in [a'], the others stay. *)
Definition cells_exchanged (a a' : list Z) (p q : Z) : Prop :=
  a' ≡ₚ a
  ∧ a' !! Z.to_nat p = a !! Z.to_nat q
  ∧ a' !! Z.to_nat q = a !! Z.to_nat p
  ∧ ∀ k : nat, k ≠ Z.to_nat p → k ≠ Z.to_nat q → a' !! k = a !! k.

(** A chain of [n] transitions, each accepted by the postcondition [post]. *)
Inductive accepted_chain {S : Type} (post : S → S → result bool)
  : nat → S → S → Prop :=
  | chain_nil s : accepted_chain post 0 s s
  | chain_snoc n s t u :
      accepted_chain post n s t → post t u = Ret true →
      accepted_chain post (Datatypes.S n) s u.

(** The list ends with a sorted suffix that dominates the rest, and at most
    [k] cells come before it. *)
Definition sorted_suffix (k : nat) (a : list Z) : Prop :=
  ∃ pre suf,
    a = pre ++ suf ∧ StronglySorted Z.le suf
    ∧ Forall (λ y, Forall (λ v, v ≤ y) pre) suf ∧ (length pre ≤ k)%nat.

(** The cells of a scratchpad are decimal digits, as [reset_env] draws
    them. *)
Definition digits (a : list Z) : Prop := Forall (λ v, 0 ≤ v < 10) a.

(** The entries of an observation are 0.0 or 1.0. *)
Definition binary (obs : list Z) : Prop := Forall (λ v, v = 0 ∨ v = 1) obs.

(** Block [i] of ten entries of an observation. *)
Definition block (i : nat) (obs : list Z) : list Z := take 10 (drop (10 * i) obs).

(** [arr'] is [arr] partitioned on the range [[l, h]] around the pivot
    [arr[h]], which ends at position [m]. *)
Definition partitioned (arr arr' : list Z) (l h m : nat) : Prop :=
  arr' ≡ₚ arr
  ∧ (l ≤ m ≤ h)%nat
  ∧ arr' !! m = arr !! h
  ∧ (∀ k : nat, (k < l ∨ h < k)%nat → arr' !! k = arr !! k)
  ∧ (∀ k : nat, (l ≤ k < m)%nat → arr' !!! k ≤ arr !!! h)
  ∧ (∀ k : nat, (m < k ≤ h)%nat → arr !!! h < arr' !!! k).

(** The three dispatch tables agree with the registry [lib]: preconditions
    for every program, functions for the programs of level at most 0,
    postconditions for the programs of level above 0. *)
Definition dispatch_consistent {E S : Type} (lib : gmap string Program)
  (funcs : gmap string (E → result E)) (pres : gmap string (E → bool))
  (posts : gmap string (E → S → S → result bool)) : Prop :=
  ∀ name : string,
    (is_Some (pres !! name) ↔ is_Some (lib !! name))
    ∧ (is_Some (funcs !! name) ↔ ∃ p, lib !! name = Some p ∧ level p ≤ 0)
    ∧ (is_Some (posts !! name) ↔ ∃ p, lib !! name = Some p ∧ 0 < level p).

(** ** Proof automation *)

(** Projections of a bubble-sort environment given by its fields. *)
Ltac le_proj :=
  cbn [ListEnv.length ListEnv.scratchpad_ints ListEnv.p1_pos ListEnv.p2_pos
       ListEnv.has_been_reset] in *.

(** Projections of a quicksort environment built by one of its setters. *)
Ltac qs_proj :=
  cbn [QuickSortListEnv.length QuickSortListEnv.scratchpad_ints
       QuickSortListEnv.p1_pos QuickSortListEnv.p2_pos QuickSortListEnv.p3_pos
       QuickSortListEnv.prog_stack QuickSortListEnv.has_been_reset
       QuickSortListEnv.with_stack QuickSortListEnv.with_scratchpad
       QuickSortListEnv.with_pointers] in *.

(** A pointer move keeps the invariant. *)
Ltac pointer_move :=
  match goal with
  | Hrun : Ret _ = Ret _ |- _ => injection Hrun as <-
  end;
  match goal with
  | |- QuickSort_inv _ (?f _) => unfold f
  end;
  match goal with
  | |- context [if ?b then _ else _] =>
      let E := fresh "E" in
      destruct b eqn:E; [apply Z.ltb_lt in E | assumption]
  end;
  match goal with
  | H : QuickSort_inv _ _ |- _ =>
      destruct H as [(? & ? & ? & ? & ? & ?) ?]
  end;
  unfold QuickSort_inv, QuickSort_wf, stack_in_range in *; qs_proj;
  repeat split; first [assumption | lia].

(** The comparisons of [reset_env] against a literal task name. *)
Ltac eval_task_tests :=
  cbn [String.eqb Ascii.eqb Bool.eqb andb orb].

Ltac absent_task H :=
  repeat (apply not_elem_of_cons in H as [?%String.eqb_neq H]);
  repeat match goal with
         | E : (_ =? _)%string = false |- _ => rewrite E; clear E
         end.

(** An entry of the registry against the three dispatch tables. *)
Ltac table_entry :=
  split; [by eexists |];
  first [ left; split; [cbn; lia |]; split; [by eexists | reflexivity]
        | right; split; [cbn; lia |]; split; [reflexivity | by eexists] ].

(** The names of the dispatch tables are names of the registry. *)
Ltac table_names H :=
  destruct H as [[? H] | [[? H] | [? H]]];
  apply elem_of_list_to_map_2 in H;
  repeat (apply elem_of_cons in H as [H | H];
          [injection H as -> _; apply (bool_decide_unpack _); by vm_compute |]);
  by apply elem_of_nil in H.

(** ** Arrays: reads and writes at positions inside the array *)

Section np_facts.

Implicit Types (a : list Z) (i j : nat) (x y v : Z).

Lemma np_index_nat (n i : nat) : (i < n)%nat → np.index n (Z.of_nat i) = Ret i.
Proof.
  intros Hi. unfold np.index.
  replace ((0 <=? Z.of_nat i) && (Z.of_nat i <? Z.of_nat n)) with true
    by (symmetry; apply andb_true_iff; split; [apply Z.leb_le | apply Z.ltb_lt]; lia).
  by rewrite Nat2Z.id.
Qed.

Lemma np_getitem_nat a i x : a !! i = Some x → np.getitem a (Z.of_nat i) = Ret x.
Proof.
  intros Hx. unfold np.getitem.
  rewrite np_index_nat by (by eapply lookup_lt_Some). simpl. by rewrite Hx.
Qed.

Lemma np_setitem_nat a i v :
  (i < length a)%nat → np.setitem a (Z.of_nat i) v = Ret (<[i := v]> a).
Proof. intros Hi. unfold np.setitem. by rewrite np_index_nat. Qed.

Lemma np_swap_nat a i j x y :
  a !! i = Some x → a !! j = Some y →
  np.swap a (Z.of_nat i) (Z.of_nat j) = Ret (<[j := x]> (<[i := y]> a)).
Proof.
  intros Hx Hy. unfold np.swap.
  rewrite (np_getitem_nat _ _ _ Hy), (np_getitem_nat _ _ _ Hx). simpl.
  rewrite np_setitem_nat by (by eapply lookup_lt_Some). simpl.
  rewrite np_setitem_nat; [done | rewrite length_insert; by eapply lookup_lt_Some].
Qed.

Lemma np_swap_length a p q a' : np.swap a p q = Ret a' → length a' = length a.
Proof.
  unfold np.swap, np.setitem. intros H.
  destruct (np.getitem a q); simpl in H; try discriminate.
  destruct (np.getitem a p); simpl in H; try discriminate.
  destruct (np.index (length a) p); simpl in H; try discriminate.
  destruct (np.index (length (<[a2:=a0]> a)) q); simpl in H; try discriminate.
  inversion H. by rewrite !length_insert.
Qed.

Lemma np_array_equal_spec a b : np.array_equal a b = true ↔ a = b.
Proof. unfold np.array_equal. apply bool_decide_eq_true. Qed.

Lemma np_getitem_Z a (p : Z) :
  0 ≤ p < Z.of_nat (length a) → np.getitem a p = Ret (a !!! Z.to_nat p).
Proof.
  intros Hp. rewrite <- (Z2Nat.id p) at 1 by lia.
  apply np_getitem_nat, list_lookup_lookup_total_lt. lia.
Qed.

Lemma np_swap_Z a (p q : Z) :
  0 ≤ p < Z.of_nat (length a) → 0 ≤ q < Z.of_nat (length a) →
  np.swap a p q
  = Ret (<[Z.to_nat q := a !!! Z.to_nat p]> (<[Z.to_nat p := a !!! Z.to_nat q]> a)).
Proof.
  intros Hp Hq. rewrite <- (Z2Nat.id p) at 1 by lia.
  rewrite <- (Z2Nat.id q) at 1 by lia.
  apply np_swap_nat; apply list_lookup_lookup_total_lt; lia.
Qed.

End np_facts.

Lemma range_nil lo hi : hi ≤ lo → range lo hi = [].
Proof. intros H. unfold range. by replace (Z.to_nat (hi - lo)) with O by lia. Qed.

Lemma range_cons lo hi : lo < hi → range lo hi = lo :: range (lo + 1) hi.
Proof.
  intros H. unfold range.
  replace (Z.to_nat (hi - lo)) with (S (Z.to_nat (hi - (lo + 1)))) by lia.
  simpl. f_equal; [lia |].
  rewrite <- fmap_S_seq, <- list_fmap_compose.
  apply list_fmap_ext. intros _ n _. simpl. lia.
Qed.

(** ** BUBBLE: the loop of the postcondition is one bubble pass *)

Lemma bubble_step_at (pre rest : list Z) (x y : Z) :
  ListEnv.bubble_step (pre ++ x :: y :: rest) (Z.of_nat (length pre))
  = Ret (if y <? x then pre ++ y :: x :: rest else pre ++ x :: y :: rest).
Proof.
  assert (Hx : (pre ++ x :: y :: rest) !! length pre = Some x)
    by (by apply list_lookup_middle).
  assert (Hy : (pre ++ x :: y :: rest) !! S (length pre) = Some y).
  { rewrite lookup_app_r by lia.
    by replace (S (length pre) - length pre)%nat with 1%nat by lia. }
  unfold ListEnv.bubble_step.
  replace (Z.of_nat (length pre) + 1) with (Z.of_nat (S (length pre))) by lia.
  rewrite (np_getitem_nat _ _ _ Hy), (np_getitem_nat _ _ _ Hx).
  cbn [mbind result_bind].
  destruct (y <? x); [| done].
  rewrite (np_swap_nat _ _ _ _ _ Hx Hy). f_equal.
  replace (length pre) with (length pre + 0)%nat at 2 by lia.
  rewrite insert_app_r. simpl.
  replace (S (length pre)) with (length pre + 1)%nat by lia.
  by rewrite insert_app_r.
Qed.

Lemma bubble_loop_from (rest pre : list Z) (x : Z) :
  for_each (range (Z.of_nat (length pre))
                  (Z.of_nat (length pre) + Z.of_nat (length rest)))
           ListEnv.bubble_step (pre ++ x :: rest)
  = Ret (pre ++ bubble_from x rest).
Proof.
  revert pre x. induction rest as [|y rest IH]; intros pre x.
  - rewrite range_nil by (simpl; lia). done.
  - rewrite range_cons by (simpl length; lia). cbn [for_each].
    rewrite bubble_step_at. cbn [mbind result_bind bubble_from].
    replace (Z.of_nat (length pre) + 1) with (Z.of_nat (length (pre ++ [x])))
      by (rewrite length_app; simpl; lia).
    replace (Z.of_nat (length pre) + Z.of_nat (length (y :: rest)))
      with (Z.of_nat (length (pre ++ [x])) + Z.of_nat (length rest))
      by (rewrite length_app; simpl; lia).
    destruct (y <? x).
    + replace (length (pre ++ [x])) with (length (pre ++ [y]))
        by (by rewrite !length_app).
      replace (pre ++ y :: x :: rest) with ((pre ++ [y]) ++ x :: rest)
        by (by rewrite <- app_assoc).
      rewrite IH. by rewrite <- app_assoc.
    + replace (pre ++ x :: y :: rest) with ((pre ++ [x]) ++ y :: rest)
        by (by rewrite <- app_assoc).
      rewrite IH. by rewrite <- app_assoc.
Qed.

Lemma bubble_loop_pass (a : list Z) :
  for_each (range 0 (Z.of_nat (length a) - 1)) ListEnv.bubble_step a
  = Ret (bubble_pass a).
Proof.
  destruct a as [|x rest].
  - rewrite range_nil by (simpl; lia). done.
  - pose proof (bubble_loop_from rest [] x) as H. simpl in H.
    replace (Z.of_nat (length (x :: rest)) - 1) with (Z.of_nat (length rest))
      by (simpl; lia).
    exact H.
Qed.

Lemma bubble_from_length (rest : list Z) (x : Z) :
  length (bubble_from x rest) = S (length rest).
Proof.
  revert x. induction rest as [|y rest IH]; intros x; simpl; [done |].
  destruct (y <? x); simpl; by rewrite IH.
Qed.

Lemma bubble_pass_length (a : list Z) : length (bubble_pass a) = length a.
Proof. destruct a as [|x rest]; [done | apply bubble_from_length]. Qed.

(** C10. In the hierarchical bubble-sort environment, for a snapshot whose
    scratchpad has the length of the environment, the BUBBLE postcondition
    returns, and it returns true exactly when the scratchpad of the resulting
    state is one full left-to-right pass of adjacent compare-and-swap steps
    applied to the snapshot's scratchpad and both resulting pointers are
    [length - 1], whatever the snapshot's pointers were; BUBBLE is dispatched
    to this function. *)
Theorem C10_bubble_postcondition
  (self : ListEnv.Env) (a : list Z) (p1 p2 : Z) (a' : list Z) (p1' p2' : Z) :
  Z.of_nat (length a) = ListEnv.length self →
  ListEnv.prog_to_postcondition true !! "BUBBLE"%string
    = Some ListEnv._bubble_postcondition
  ∧ ∃ b : bool,
      ListEnv._bubble_postcondition self (a, p1, p2) (a', p1', p2') = Ret b
      ∧ (b = true ↔ a' = bubble_pass a
                    ∧ p1' = ListEnv.length self - 1
                    ∧ p2' = ListEnv.length self - 1).
Proof.
  intros Hlen. split; [done |].
  unfold ListEnv._bubble_postcondition. rewrite <- Hlen, bubble_loop_pass. simpl.
  eexists. split; [done |].
  unfold np.array_equal.
  rewrite !andb_true_iff, bool_decide_eq_true, !Z.eqb_eq. tauto.
Qed.

Lemma C10_bubble_postcondition_witness :
  ∃ b : bool,
    ListEnv._bubble_postcondition (ListEnv.mkEnv 4 [3; 1; 2; 0] 0 0 true)
      ([3; 1; 2; 0], 0, 1) ([1; 2; 0; 3], 3, 3) = Ret b
    ∧ (b = true ↔ [1; 2; 0; 3] = bubble_pass [3; 1; 2; 0] ∧ 3 = 4 - 1 ∧ 3 = 4 - 1).
Proof.
  apply (C10_bubble_postcondition (ListEnv.mkEnv 4 [3; 1; 2; 0] 0 0 true)
           [3; 1; 2; 0] 0 1 [1; 2; 0; 3] 3 3).
  reflexivity.
Defined.

(** ** BUBBLESORT and QUICKSORT: the comparison of the two slices *)

Lemma non_decreasing_cons (x : Z) (a : list Z) :
  non_decreasing (x :: a) ↔ Forall (Z.le x) a ∧ non_decreasing a.
Proof.
  unfold non_decreasing. split.
  - intros H. split.
    + apply Forall_lookup. intros i y Hy. by apply (H O (S i) x y); [lia | |].
    + intros i j u v Hij Hu Hv. by apply (H (S i) (S j) u v); [lia | |].
  - intros [Hx Ha] i j u v Hij Hu Hv.
    destruct i as [|i], j as [|j]; simpl in *; try lia.
    + simplify_eq. lia.
    + simplify_eq. by eapply (proj1 (Forall_lookup _ _) Hx).
    + by apply (Ha i j u v); [lia | |].
Qed.

Lemma non_decreasing_StronglySorted (a : list Z) :
  non_decreasing a ↔ StronglySorted Z.le a.
Proof.
  induction a as [|x a IH].
  - split; [constructor | by intros _ i j u v _ Hu; rewrite lookup_nil in Hu].
  - rewrite non_decreasing_cons, IH. split.
    + intros [? ?]. by constructor.
    + intros H. apply StronglySorted_inv in H. tauto.
Qed.

Lemma non_decreasing_Sorted (a : list Z) : non_decreasing a ↔ Sorted Z.le a.
Proof.
  rewrite non_decreasing_StronglySorted. split.
  - apply StronglySorted_Sorted.
  - apply Sorted_StronglySorted. intros x y z. apply Z.le_trans.
Qed.

Lemma adjacent_pairs_cons (x y : Z) (a : list Z) :
  zip (take (length (x :: y :: a) - 1) (x :: y :: a)) (drop 1 (x :: y :: a))
  = (x, y) :: zip (take (length (y :: a) - 1) (y :: a)) (drop 1 (y :: a)).
Proof.
  replace (length (x :: y :: a) - 1)%nat with (S (length (y :: a) - 1))
    by (simpl; lia).
  done.
Qed.

Lemma adjacent_pairs_Sorted (a : list Z) :
  forallb (λ p, fst p <=? snd p) (zip (take (length a - 1) a) (drop 1 a)) = true
  ↔ Sorted Z.le a.
Proof.
  induction a as [|x [|y a] IH].
  - split; [constructor | done].
  - split; [repeat constructor | done].
  - rewrite adjacent_pairs_cons. cbn [forallb fst snd].
    rewrite andb_true_iff, Z.leb_le, IH. split.
    + intros [Hxy Hs]. constructor; [done | by constructor].
    + intros H. apply Sorted_inv in H as [Hs Hh].
      split; [by apply HdRel_inv in Hh | done].
Qed.

Lemma slices_all_le (a : list Z) :
  np.all_le (np.slice a 0 (Z.of_nat (length a) - 1))
            (np.slice a 1 (Z.of_nat (length a)))
  = Ret (forallb (λ p, fst p <=? snd p) (zip (take (length a - 1) a) (drop 1 a))).
Proof.
  assert (H1 : np.slice a 0 (Z.of_nat (length a) - 1) = take (length a - 1) a).
  { unfold np.slice, np.bound. destruct a as [|x a]; [done |].
    replace (Z.of_nat (length (x :: a)) - 1 <? 0) with false
      by (symmetry; apply Z.ltb_ge; simpl; lia).
    cbn [Z.ltb Z.compare]. rewrite drop_0. f_equal. simpl length. lia. }
  assert (H2 : np.slice a 1 (Z.of_nat (length a)) = drop 1 a).
  { unfold np.slice, np.bound. destruct a as [|x a]; [done |].
    replace (Z.of_nat (length (x :: a)) <? 0) with false
      by (symmetry; apply Z.ltb_ge; simpl; lia).
    cbn [Z.ltb Z.compare].
    replace (Z.to_nat (Z.min (Z.of_nat (length (x :: a))) (Z.max 0 1))) with 1%nat
      by (simpl length; lia).
    apply take_ge. rewrite length_drop. simpl length. lia. }
  rewrite H1, H2. unfold np.all_le.
  rewrite decide_True; [done |].
  rewrite length_take, length_drop. lia.
Qed.

Lemma sorted_postcondition_value (a : list Z) :
  ∃ b : bool,
    np.all_le (np.slice a 0 (Z.of_nat (length a) - 1))
              (np.slice a 1 (Z.of_nat (length a))) = Ret b
    ∧ (b = true ↔ non_decreasing a).
Proof.
  rewrite slices_all_le. eexists. split; [done |].
  by rewrite adjacent_pairs_Sorted, non_decreasing_Sorted.
Qed.

(** C4. For a resulting state whose scratchpad has the length of the
    environment, the BUBBLESORT postcondition of both classes and the
    QUICKSORT postcondition return, and return true exactly when that
    scratchpad is non-decreasing end to end; the result is the same for any
    other snapshot and any other pointers or stack of the resulting state. *)
Theorem C4_sortedness_is_the_whole_contract
  (lself : ListEnv.Env) (qself : QuickSortListEnv.Env)
  (ls : ListEnv.State) (qs : QuickSortListEnv.State)
  (la qa : list Z) (lp1 lp2 qp1 qp2 qp3 : Z) (qst : list Z) :
  Z.of_nat (length la) = ListEnv.length lself →
  Z.of_nat (length qa) = QuickSortListEnv.length qself →
  (∃ b : bool,
     ListEnv._bubblesort_postcondition lself ls (la, lp1, lp2) = Ret b
     ∧ (b = true ↔ non_decreasing la))
  ∧ (∃ b : bool,
       QuickSortListEnv._quicksort_postcondition qself qs (qa, qp1, qp2, qp3, qst)
       = Ret b
       ∧ (b = true ↔ non_decreasing qa))
  ∧ (∃ b : bool,
       QuickSortListEnv._bubblesort_postcondition qself qs (qa, qp1, qp2, qp3, qst)
       = Ret b
       ∧ (b = true ↔ non_decreasing qa))
  ∧ (∀ ls' lp1' lp2',
       ListEnv._bubblesort_postcondition lself ls' (la, lp1', lp2')
       = ListEnv._bubblesort_postcondition lself ls (la, lp1, lp2))
  ∧ (∀ qs' qp1' qp2' qp3' qst',
       QuickSortListEnv._quicksort_postcondition qself qs' (qa, qp1', qp2', qp3', qst')
       = QuickSortListEnv._quicksort_postcondition qself qs (qa, qp1, qp2, qp3, qst))
  ∧ ListEnv.prog_to_postcondition true !! "BUBBLESORT"%string
    = Some ListEnv._bubblesort_postcondition
  ∧ QuickSortListEnv.prog_to_postcondition true !! "QUICKSORT"%string
    = Some QuickSortListEnv._quicksort_postcondition.
Proof.
  intros Hl Hq.
  unfold ListEnv._bubblesort_postcondition,
    QuickSortListEnv._quicksort_postcondition,
    QuickSortListEnv._bubblesort_postcondition.
  rewrite <- Hl, <- Hq.
  repeat split; try done; apply sorted_postcondition_value.
Qed.

Lemma C4_sortedness_witness :
  Z.of_nat (length [1; 1; 3; 4; 5]) = 5
  ∧ ∃ b : bool,
      ListEnv._bubblesort_postcondition (ListEnv.mkEnv 5 [1; 1; 3; 4; 5] 2 4 true)
        ([3; 1; 4; 1; 5], 0, 0) ([1; 1; 3; 4; 5], 2, 4) = Ret b
      ∧ (b = true ↔ non_decreasing [1; 1; 3; 4; 5]).
Proof.
  split; [reflexivity |].
  apply (C4_sortedness_is_the_whole_contract
           (ListEnv.mkEnv 5 [1; 1; 3; 4; 5] 2 4 true)
           (QuickSortListEnv.mkEnv 5 [1; 1; 3; 4; 5] 0 4 0 [] true)
           ([3; 1; 4; 1; 5], 0, 0) ([3; 1; 4; 1; 5], 0, 4, 0, [])
           [1; 1; 3; 4; 5] [1; 1; 3; 4; 5] 2 4 0 4 0 []); reflexivity.
Defined.

(** ** PUSH and POP *)

Lemma list_pop_snoc (st : list Z) (v : Z) :
  QuickSortListEnv.list_pop (st ++ [v]) = Ret (v, st).
Proof.
  unfold QuickSortListEnv.list_pop. by rewrite last_snoc, removelast_last.
Qed.

Lemma split_last_three (st : list Z) :
  (3 ≤ length st)%nat → ∃ rest a b c, st = rest ++ [a; b; c].
Proof.
  intros Hlen. exists (take (length st - 3) st).
  pose proof (take_drop (length st - 3) st) as Htd.
  pose proof (length_drop st (length st - 3)) as Hd.
  destruct (drop (length st - 3) st) as [|a [|b [|c [|d tl]]]] eqn:Hdrop;
    simpl in Hd; try lia.
  exists a, b, c. by rewrite Htd.
Qed.

Lemma pop_last_three (self : QuickSortListEnv.Env) (rest : list Z) (a b c : Z) :
  QuickSortListEnv.prog_stack self = rest ++ [a; b; c] →
  QuickSortListEnv._pop self
  = Ret (QuickSortListEnv.mkEnv (QuickSortListEnv.length self)
           (QuickSortListEnv.scratchpad_ints self) c b a rest
           (QuickSortListEnv.has_been_reset self)).
Proof.
  intros Hst. unfold QuickSortListEnv._pop. rewrite Hst.
  replace (3 <=? Z.of_nat (length (rest ++ [a; b; c]))) with true
    by (symmetry; apply Z.leb_le; rewrite length_app; simpl; lia).
  replace (rest ++ [a; b; c]) with (((rest ++ [a]) ++ [b]) ++ [c])
    by (by rewrite <- !app_assoc).
  rewrite list_pop_snoc. cbn [mbind result_bind].
  rewrite list_pop_snoc. cbn [mbind result_bind].
  by rewrite list_pop_snoc.
Qed.

Lemma pop_short_stack (self : QuickSortListEnv.Env) :
  (length (QuickSortListEnv.prog_stack self) < 3)%nat →
  QuickSortListEnv._pop self = Ret self.
Proof.
  intros Hlen. unfold QuickSortListEnv._pop.
  by replace (3 <=? Z.of_nat (length (QuickSortListEnv.prog_stack self)))
    with false by (symmetry; apply Z.leb_gt; lia).
Qed.

(** What [_push] appends, as one expression. *)
Lemma push_appends (self : QuickSortListEnv.Env) :
  QuickSortListEnv._push self
  = QuickSortListEnv.with_stack self
      (QuickSortListEnv.prog_stack self
       ++ (if QuickSortListEnv.p3_pos self + 1 <? QuickSortListEnv.p2_pos self
           then [QuickSortListEnv.p3_pos self + 1; QuickSortListEnv.p2_pos self;
                 QuickSortListEnv.p3_pos self + 1]
           else [])
       ++ (if 0 <? QuickSortListEnv.p3_pos self - 1
           then [QuickSortListEnv.p1_pos self; QuickSortListEnv.p3_pos self - 1;
                 QuickSortListEnv.p1_pos self]
           else [])).
Proof.
  unfold QuickSortListEnv._push.
  destruct (_ + 1 <? _), (0 <? _ - 1); f_equal;
    by rewrite ?app_nil_r, <- ?app_assoc.
Qed.

(** The example of the specification: with [p1 = 1], [p2 = 6], [p3 = 3] the
    triples of the sub-ranges [[4, 6]] and [[1, 2]] are appended, in this
    order, and nothing else changes. *)
Lemma push_example (len : Z) (a st : list Z) (r : bool) :
  QuickSortListEnv._push (QuickSortListEnv.mkEnv len a 1 6 3 st r)
  = QuickSortListEnv.mkEnv len a 1 6 3 (st ++ [4; 6; 4] ++ [1; 2; 1]) r.
Proof. by rewrite push_appends. Qed.

(** C5. PUSH appends the triple of the left sub-range [[p1, p3 - 1]] when
    [p3 - 1 > 0], whether or not that sub-range is empty: with [p1 = 3],
    [p2 = 6], [p3 = 3] it appends [(3, 2, 3)] after [(4, 6, 4)], although no
    index [i] satisfies [3 <= i <= 2]. *)
Theorem C5_push_appends_empty_left_range :
  QuickSortListEnv._push
    (QuickSortListEnv.mkEnv 8 [5; 0; 1; 2; 9; 7; 8; 3] 3 6 3 [] true)
  = QuickSortListEnv.mkEnv 8 [5; 0; 1; 2; 9; 7; 8; 3] 3 6 3 [4; 6; 4; 3; 2; 3] true
  ∧ ¬ (∃ i : Z, 3 ≤ i ≤ 2).
Proof. split; [reflexivity | intros [i Hi]; lia]. Qed.

(** C6. POP on a stack of at least three elements removes its last three
    elements and loads them into the registers, the last one into [p1], the
    one before into [p2], the third from the end into [p3]; after a PUSH that
    appended exactly one triple (left bound, right bound, recursion index),
    POP restores the stack and sets [(p1, p2, p3)] to that triple; on a stack
    of fewer than three elements POP changes nothing. *)
Theorem C6_pop_restores_pushed_triple (self : QuickSortListEnv.Env) :
  ((3 ≤ length (QuickSortListEnv.prog_stack self))%nat →
   ∃ rest a b c,
     QuickSortListEnv.prog_stack self = rest ++ [a; b; c]
     ∧ QuickSortListEnv._pop self
       = Ret (QuickSortListEnv.mkEnv (QuickSortListEnv.length self)
                (QuickSortListEnv.scratchpad_ints self) c b a rest
                (QuickSortListEnv.has_been_reset self)))
  ∧ (∀ left_bound right_bound recursion_index : Z,
       QuickSortListEnv.prog_stack (QuickSortListEnv._push self)
       = QuickSortListEnv.prog_stack self
         ++ [left_bound; right_bound; recursion_index] →
       QuickSortListEnv._pop (QuickSortListEnv._push self)
       = Ret (QuickSortListEnv.mkEnv (QuickSortListEnv.length self)
                (QuickSortListEnv.scratchpad_ints self)
                left_bound right_bound recursion_index
                (QuickSortListEnv.prog_stack self)
                (QuickSortListEnv.has_been_reset self)))
  ∧ ((length (QuickSortListEnv.prog_stack self) < 3)%nat →
     QuickSortListEnv._pop self = Ret self).
Proof.
  split; [| split].
  - intros Hlen. destruct (split_last_three _ Hlen) as (rest & a & b & c & Hst).
    exists rest, a, b, c. split; [done | by apply pop_last_three].
  - intros l r i Hpush.
    rewrite (pop_last_three _ _ _ _ _ Hpush).
    rewrite push_appends in Hpush |- *. cbn in Hpush |- *.
    apply app_inv_head in Hpush.
    destruct (_ + 1 <? _), (0 <? _ - 1); simpl in Hpush; by simplify_eq.
  - apply pop_short_stack.
Qed.

Lemma C6_pop_witness :
  (∃ rest a b c,
     [7; 4; 6; 4; 1; 2; 1] = rest ++ [a; b; c]
     ∧ QuickSortListEnv._pop
         (QuickSortListEnv.mkEnv 8 [5; 0; 1; 2; 9; 7; 8; 3] 0 0 0
            [7; 4; 6; 4; 1; 2; 1] true)
       = Ret (QuickSortListEnv.mkEnv 8 [5; 0; 1; 2; 9; 7; 8; 3] c b a rest true))
  ∧ QuickSortListEnv._pop
      (QuickSortListEnv._push
         (QuickSortListEnv.mkEnv 8 [5; 0; 1; 2; 9; 7; 8; 3] 0 6 0 [9; 9] true))
    = Ret (QuickSortListEnv.mkEnv 8 [5; 0; 1; 2; 9; 7; 8; 3] 1 6 1 [9; 9] true)
  ∧ QuickSortListEnv._pop
      (QuickSortListEnv.mkEnv 8 [5; 0; 1; 2; 9; 7; 8; 3] 2 3 4 [9; 9] true)
    = Ret (QuickSortListEnv.mkEnv 8 [5; 0; 1; 2; 9; 7; 8; 3] 2 3 4 [9; 9] true).
Proof.
  split; [| split].
  - apply (C6_pop_restores_pushed_triple
             (QuickSortListEnv.mkEnv 8 [5; 0; 1; 2; 9; 7; 8; 3] 0 0 0
                [7; 4; 6; 4; 1; 2; 1] true)).
    simpl. lia.
  - apply (C6_pop_restores_pushed_triple
             (QuickSortListEnv.mkEnv 8 [5; 0; 1; 2; 9; 7; 8; 3] 0 6 0 [9; 9] true)
           ).
    reflexivity.
  - apply (C6_pop_restores_pushed_triple
             (QuickSortListEnv.mkEnv 8 [5; 0; 1; 2; 9; 7; 8; 3] 2 3 4 [9; 9] true)).
    simpl. lia.
Defined.

(** ** RSHIFT and LSHIFT *)

Lemma ListEnv_rshift_postcondition_iff
  (self : ListEnv.Env) (a : list Z) (p1 p2 : Z) (a' : list Z) (p1' p2' : Z) :
  ListEnv._rshift_postcondition self (a, p1, p2) (a', p1', p2') = true
  ↔ a' = a
    ∧ p1' = (if p1 <? ListEnv.length self - 1 then p1 + 1 else p1)
    ∧ p2' = (if p2 <? ListEnv.length self - 1 then p2 + 1 else p2).
Proof.
  unfold ListEnv._rshift_postcondition, np.array_equal.
  destruct (p1 <? _), (p2 <? _);
    rewrite !andb_true_iff, bool_decide_eq_true, !Z.eqb_eq; intuition congruence.
Qed.

Lemma ListEnv_lshift_postcondition_iff
  (self : ListEnv.Env) (a : list Z) (p1 p2 : Z) (a' : list Z) (p1' p2' : Z) :
  ListEnv._lshift_postcondition self (a, p1, p2) (a', p1', p2') = true
  ↔ a' = a
    ∧ p1' = (if 0 <? p1 then p1 - 1 else p1)
    ∧ p2' = (if 0 <? p2 then p2 - 1 else p2).
Proof.
  unfold ListEnv._lshift_postcondition, np.array_equal.
  destruct (0 <? p1), (0 <? p2);
    rewrite !andb_true_iff, bool_decide_eq_true, !Z.eqb_eq; intuition congruence.
Qed.

Lemma QuickSort_rshift_postcondition_iff
  (self : QuickSortListEnv.Env) (a : list Z) (p1 p2 p3 : Z) (st : list Z)
  (a' : list Z) (p1' p2' p3' : Z) (st' : list Z) :
  QuickSortListEnv._rshift_postcondition self (a, p1, p2, p3, st)
    (a', p1', p2', p3', st') = true
  ↔ a' = a ∧ st' = st
    ∧ p1' = (if p1 <? QuickSortListEnv.length self - 1 then p1 + 1 else p1)
    ∧ p2' = (if p2 <? QuickSortListEnv.length self - 1 then p2 + 1 else p2)
    ∧ p3' = (if p3 <? QuickSortListEnv.length self - 1 then p3 + 1 else p3).
Proof.
  unfold QuickSortListEnv._rshift_postcondition, np.array_equal.
  destruct (p1 <? _), (p2 <? _), (p3 <? _);
    rewrite !andb_true_iff, !bool_decide_eq_true, !Z.eqb_eq; intuition congruence.
Qed.

(** The LSHIFT postcondition of the quicksort class does not read either
    scratchpad: the result of [np.array_equal] is overwritten by the
    comparison of the stacks. *)
Lemma QuickSort_lshift_postcondition_iff
  (self : QuickSortListEnv.Env) (a : list Z) (p1 p2 p3 : Z) (st : list Z)
  (a' : list Z) (p1' p2' p3' : Z) (st' : list Z) :
  QuickSortListEnv._lshift_postcondition self (a, p1, p2, p3, st)
    (a', p1', p2', p3', st') = true
  ↔ st' = st
    ∧ p1' = (if 0 <? p1 then p1 - 1 else p1)
    ∧ p2' = (if 0 <? p2 then p2 - 1 else p2)
    ∧ p3' = (if 0 <? p3 then p3 - 1 else p3).
Proof.
  unfold QuickSortListEnv._lshift_postcondition.
  destruct (0 <? p1), (0 <? p2), (0 <? p3);
    rewrite !andb_true_iff, !bool_decide_eq_true, !Z.eqb_eq; intuition congruence.
Qed.

(** The example of the specification: RSHIFT from [p1 = 4], [p2 = 2] on a
    list of length 5 accepts [p1 = 4], [p2 = 3] and rejects [p2 = 2] and
    [p2 = 4]. *)
Lemma rshift_example (a : list Z) :
  let self := ListEnv.mkEnv 5 a 4 2 true in
  ListEnv._rshift_postcondition self (a, 4, 2) (a, 4, 3) = true
  ∧ ListEnv._rshift_postcondition self (a, 4, 2) (a, 4, 2) = false
  ∧ ListEnv._rshift_postcondition self (a, 4, 2) (a, 4, 4) = false.
Proof.
  cbn zeta. unfold ListEnv._rshift_postcondition, np.array_equal.
  by rewrite bool_decide_eq_true_2.
Qed.

(** C2. The LSHIFT postcondition of the quicksort class accepts a resulting
    state whose scratchpad differs from the snapshot's: from
    [([1, 2], 1, 1, 1, [])] it accepts [([2, 1], 0, 0, 0, [])], while the
    RSHIFT postcondition of the same class and the LSHIFT postcondition of
    the bubble-sort class reject a changed scratchpad. *)
Theorem C2_quicksort_lshift_accepts_changed_scratchpad :
  let self := QuickSortListEnv.mkEnv 2 [2; 1] 0 0 0 [] true in
  QuickSortListEnv._lshift_postcondition self
    ([1; 2], 1, 1, 1, []) ([2; 1], 0, 0, 0, []) = true
  ∧ QuickSortListEnv._rshift_postcondition self
      ([1; 2], 0, 0, 0, []) ([2; 1], 1, 1, 1, []) = false
  ∧ ListEnv._lshift_postcondition (ListEnv.mkEnv 2 [2; 1] 0 0 true)
      ([1; 2], 1, 1) ([2; 1], 0, 0) = false.
Proof. repeat split. Qed.

(** ** PARTITION *)

Lemma partition_postcondition_raises
  (self : QuickSortListEnv.Env) (init_state state : QuickSortListEnv.State) :
  QuickSortListEnv._partition_postcondition self init_state state = Raise NameError.
Proof. by destruct init_state as [[[[a p1] p2] p3] st]. Qed.

(** The reference [_partition] itself is total on a well-formed sub-range:
    the loop ends within [h - j] rounds and no index leaves the array. *)
Lemma partition_loop_returns (x h : Z) (fuel : nat) :
  ∀ (arr : list Z) (l j : Z),
    (Z.to_nat (h - j) ≤ fuel)%nat →
    0 ≤ l ≤ j → j ≤ h → h < Z.of_nat (length arr) →
    ∃ arr' l',
      QuickSortListEnv.partition_loop fuel x h arr l j = Ret (arr', l', h)
      ∧ length arr' = length arr ∧ l ≤ l' ≤ h.
Proof.
  induction fuel as [|fuel IH]; intros arr l j Hfuel Hl Hj Hh.
  - exists arr, l. assert (j = h) as -> by lia.
    cbn [QuickSortListEnv.partition_loop]. rewrite Z.ltb_irrefl.
    repeat split; lia.
  - cbn [QuickSortListEnv.partition_loop].
    destruct (j <? h) eqn:E; [apply Z.ltb_lt in E | apply Z.ltb_ge in E].
    + rewrite np_getitem_Z by lia. cbn [mbind result_bind].
      destruct (_ <=? x).
      * rewrite np_swap_Z by lia. cbn [mbind result_bind].
        destruct (IH (<[Z.to_nat l := arr !!! Z.to_nat j]>
                        (<[Z.to_nat j := arr !!! Z.to_nat l]> arr))
                     (l + 1) (j + 1)) as (arr' & l' & -> & Hlen & Hl');
          [lia | lia | lia | by rewrite !length_insert |].
        exists arr', l'. rewrite !length_insert in Hlen. repeat split; [done | lia..].
      * cbn [mbind result_bind].
        destruct (IH arr l (j + 1)) as (arr' & l' & -> & Hlen & Hl');
          [lia | lia | lia | done |].
        exists arr', l'. repeat split; [done | lia..].
    + exists arr, l. assert (j = h) as -> by lia. repeat split; lia.
Qed.

Lemma partition_returns (arr : list Z) (l h j : Z) :
  0 ≤ l ≤ j → j ≤ h → h < Z.of_nat (length arr) →
  ∃ arr' pivot,
    QuickSortListEnv._partition arr l h j = Ret (arr', l, h, pivot)
    ∧ length arr' = length arr ∧ l ≤ pivot ≤ h.
Proof.
  intros Hl Hj Hh. unfold QuickSortListEnv._partition.
  rewrite np_getitem_Z by lia. cbn [mbind result_bind].
  destruct (partition_loop_returns (arr !!! Z.to_nat h) h (Z.to_nat (h - j)) arr l j)
    as (arr' & l' & -> & Hlen & Hl'); [lia | lia | lia | lia |].
  cbn [mbind result_bind]. rewrite np_swap_Z by lia. cbn [mbind result_bind].
  eexists _, l'. split; [done |]. by rewrite !length_insert.
Qed.

(** C3. The PARTITION postcondition never returns: the bare name
    [_partition] is not bound in a method body, so every call raises
    [NameError]; in particular it does so for the snapshot
    [([2, 1], 0, 1, 0, [])], which satisfies the PARTITION precondition, and
    the state [([1, 2], 0, 1, 0, [])] that [_partition] computes from it. *)
Theorem C3_partition_postcondition_never_returns :
  (∀ self init_state state,
     QuickSortListEnv._partition_postcondition self init_state state
     = Raise NameError)
  ∧ QuickSortListEnv.prog_to_postcondition true !! "PARTITION"%string
    = Some QuickSortListEnv._partition_postcondition
  ∧ QuickSortListEnv._partition_precondition
      (QuickSortListEnv.mkEnv 2 [2; 1] 0 1 0 [] true) = true
  ∧ QuickSortListEnv._partition [2; 1] 0 1 0 = Ret ([1; 2], 0, 1, 0)
  ∧ QuickSortListEnv._partition_postcondition
      (QuickSortListEnv.mkEnv 2 [1; 2] 0 1 0 [] true)
      ([2; 1], 0, 1, 0, []) ([1; 2], 0, 1, 0, []) = Raise NameError.
Proof. split; [apply partition_postcondition_raises | repeat split]. Qed.

(** ** COMPSWAP_PARTITION *)

Lemma exchange_length (a : list Z) (i j : nat) : length (exchange a i j) = length a.
Proof. unfold exchange. by rewrite !length_insert. Qed.

Lemma np_swap_exchange (a : list Z) (i j : nat) :
  (i < length a)%nat → (j < length a)%nat →
  np.swap a (Z.of_nat i) (Z.of_nat j) = Ret (exchange a i j).
Proof.
  intros Hi Hj. apply np_swap_nat; by apply list_lookup_lookup_total_lt.
Qed.

Lemma compswap_partition_step_at (pivot idx p1 : nat) (a : list Z) :
  (p1 ≤ idx)%nat → (idx < pivot)%nat → (pivot < length a)%nat →
  QuickSortListEnv.compswap_partition_step (Z.of_nat pivot) (a, Z.of_nat p1)
    (Z.of_nat idx)
  = Ret (if a !!! idx <? a !!! pivot
         then (exchange a (S p1) idx, Z.of_nat (S p1))
         else (a, Z.of_nat p1)).
Proof.
  intros Hp1 Hidx Hpivot. unfold QuickSortListEnv.compswap_partition_step.
  rewrite (np_getitem_nat a idx (a !!! idx))
    by (apply list_lookup_lookup_total_lt; lia).
  rewrite (np_getitem_nat a pivot (a !!! pivot))
    by (by apply list_lookup_lookup_total_lt).
  cbn [mbind result_bind].
  destruct (a !!! idx <? a !!! pivot); [| done].
  replace (Z.of_nat p1 + 1) with (Z.of_nat (S p1)) by lia.
  by rewrite np_swap_exchange by lia.
Qed.

Lemma compswap_partition_loop (pivot n : nat) :
  ∀ (start p1 : nat) (a : list Z),
    (p1 ≤ start)%nat → (start + n = pivot)%nat → (pivot < length a)%nat →
    for_each (range (Z.of_nat start) (Z.of_nat pivot))
             (QuickSortListEnv.compswap_partition_step (Z.of_nat pivot))
             (a, Z.of_nat p1)
    = Ret (let '(a', p1') := partition_scan pivot (seq start n) a p1 in
           (a', Z.of_nat p1')).
Proof.
  induction n as [|n IH]; intros start p1 a Hp1 Hn Hpivot.
  - rewrite range_nil by lia. done.
  - rewrite range_cons by lia. cbn [for_each seq partition_scan].
    rewrite compswap_partition_step_at by lia.
    replace (Z.of_nat start + 1) with (Z.of_nat (S start)) by lia.
    destruct (a !!! start <? a !!! pivot); cbn [mbind result_bind].
    + apply IH; [lia | lia | by rewrite exchange_length].
    + apply IH; [lia | lia | done].
Qed.

(** The reference of [_compswap_postcondition], the function of the class
    that is not dispatched, is the single comparison-swap step of the
    specification on well-formed snapshots. *)
Lemma compswap_reference_single_step
  (self : QuickSortListEnv.Env) (a : list Z) (p1 p2 p3 : Z) (st : list Z) :
  Z.of_nat (length a) = QuickSortListEnv.length self →
  0 ≤ p1 < Z.of_nat (length a) → 0 ≤ p2 < Z.of_nat (length a) →
  QuickSortListEnv.compswap_reference self (a, p1, p2, p3, st)
  = Ret (single_compswap_step (QuickSortListEnv.length self) (a, p1, p2, p3, st)).
Proof.
  intros Hlen Hp1 Hp2.
  unfold QuickSortListEnv.compswap_reference, single_compswap_step.
  set (p2' := if (p1 =? p2) && (p2 <? QuickSortListEnv.length self - 1)
              then p2 + 1 else p2).
  assert (Hp2' : 0 ≤ p2' < Z.of_nat (length a)).
  { subst p2'. destruct (p1 =? p2); cbn [andb]; [| lia].
    destruct (p2 <? _) eqn:E; [apply Z.ltb_lt in E |]; lia. }
  rewrite !np_getitem_Z by lia. cbn [mbind result_bind].
  rewrite !(list_lookup_lookup_total_lt a) by lia.
  destruct (a !!! _ <? a !!! _); cbn [mbind result_bind]; [| done].
  by rewrite np_swap_Z by lia.
Qed.

(** What [_compswap_partition_postcondition] computes on a snapshot with
    [0 <= p1 <= p2 < len(scratchpad)]: it returns, and it returns true
    exactly on the outcome of its scan over the positions [p1 .. p2 - 1]. *)
Lemma compswap_partition_postcondition_scan
  (self : QuickSortListEnv.Env) (a : list Z) (p1 p2 p3 : Z) (st : list Z)
  (t : QuickSortListEnv.State) :
  0 ≤ p1 ≤ p2 →
  p2 < Z.of_nat (length a) →
  ∃ b : bool,
    QuickSortListEnv._compswap_partition_postcondition self (a, p1, p2, p3, st) t
    = Ret b
    ∧ (b = true ↔ t = scan_outcome (a, p1, p2, p3, st)).
Proof.
  intros Hp Hlen.
  unfold QuickSortListEnv._compswap_partition_postcondition, scan_outcome.
  pose proof (compswap_partition_loop (Z.to_nat p2) (Z.to_nat (p2 - p1))
                (Z.to_nat p1) (Z.to_nat p1) a) as Hloop.
  rewrite !Z2Nat.id in Hloop by lia.
  rewrite Hloop by lia. clear Hloop.
  destruct (partition_scan _ _ _ _) as [a' p1'].
  destruct t as [[[[ta tp1] tp2] tp3] tst].
  cbn [mbind result_bind]. eexists. split; [done |].
  unfold QuickSortListEnv.compare_state, np.array_equal.
  rewrite !andb_true_iff, !bool_decide_eq_true, !Z.eqb_eq.
  split; [intros; f_equal; intuition congruence | intros [= -> -> -> -> ->]; tauto].
Qed.

(** The only state that the postcondition accepts for such a snapshot. *)
Lemma compswap_partition_accepts_only
  (self : QuickSortListEnv.Env) (a : list Z) (p1 p2 p3 : Z) (st : list Z)
  (t : QuickSortListEnv.State) :
  0 ≤ p1 ≤ p2 →
  p2 < Z.of_nat (length a) →
  QuickSortListEnv._compswap_partition_postcondition self (a, p1, p2, p3, st) t
  = Ret true
  ↔ t = scan_outcome (a, p1, p2, p3, st).
Proof.
  intros Hp Hlen.
  destruct (compswap_partition_postcondition_scan self a p1 p2 p3 st t Hp Hlen)
    as (b & -> & Hb).
  rewrite <- Hb. split; [by intros [= ->] | by intros ->].
Qed.

(** C1. The COMPSWAP_PARTITION postcondition does not accept the single
    comparison-swap step of the claim.  [reset_env] for COMPSWAP_PARTITION
    on a list of length 2 can draw the snapshot [([1, 2], 0, 1, 0, [])]; the
    step leaves it as it is (the cells at 0 and 1 are in order), as does the
    reference of [_compswap_postcondition] of the same class; yet the
    postcondition rejects that state: the only state it accepts is
    [([2, 1], 1, 1, 0, [])], with the two cells out of order.  Its loop
    advances [p1] before it exchanges, where [_partition] exchanges and then
    advances: for the sorted snapshot [([1, 2, 3, 4], 0, 3, 0, [])], which
    the step and [_partition] leave sorted, it accepts only
    [([2, 3, 4, 1], 3, 3, 2, [])]; and for the snapshot
    [([1, 2], 0, 0, 0, [])], where the step advances [p2] to 1, it accepts
    only a state with [p3 = -1], a position outside the list. *)
Theorem C1_compswap_partition_postcondition_diverges :
  let self := QuickSortListEnv.mkEnv 2 [1; 2] 0 1 0 [] true in
  let s : QuickSortListEnv.State := ([1; 2], 0, 1, 0, []) in
  let self4 := QuickSortListEnv.mkEnv 4 [1; 2; 3; 4] 0 3 0 [] true in
  let s4 : QuickSortListEnv.State := ([1; 2; 3; 4], 0, 3, 0, []) in
  let self0 := QuickSortListEnv.mkEnv 2 [1; 2] 0 0 0 [] true in
  let s0 : QuickSortListEnv.State := ([1; 2], 0, 0, 0, []) in
  QuickSortListEnv.prog_to_postcondition true !! "COMPSWAP_PARTITION"%string
  = Some QuickSortListEnv._compswap_partition_postcondition
  ∧ QuickSortListEnv.reset_env 1 "COMPSWAP_PARTITION"
      (QuickSortListEnv.mkEnv 2 [0; 0] 0 0 0 [] false) (λ n, S n) 0
    = (self, Ret 4%nat)
  ∧ QuickSortListEnv.get_state self = Some s
  ∧ QuickSortListEnv._compswap_partition_precondition self = true
  ∧ single_compswap_step 2 s = s
  ∧ QuickSortListEnv.compswap_reference self s = Ret s
  ∧ QuickSortListEnv._compswap_partition_postcondition self s s = Ret false
  ∧ (∀ t, QuickSortListEnv._compswap_partition_postcondition self s t = Ret true
          ↔ t = ([2; 1], 1, 1, 0, []))
  ∧ QuickSortListEnv._compswap_partition_precondition self4 = true
  ∧ single_compswap_step 4 s4 = s4
  ∧ QuickSortListEnv._partition [1; 2; 3; 4] 0 3 0 = Ret ([1; 2; 3; 4], 0, 3, 3)
  ∧ QuickSortListEnv._compswap_partition_postcondition self4 s4 s4 = Ret false
  ∧ (∀ t, QuickSortListEnv._compswap_partition_postcondition self4 s4 t = Ret true
          ↔ t = ([2; 3; 4; 1], 3, 3, 2, []))
  ∧ QuickSortListEnv._compswap_partition_precondition self0 = true
  ∧ single_compswap_step 2 s0 = ([1; 2], 0, 1, 0, [])
  ∧ (∀ t, QuickSortListEnv._compswap_partition_postcondition self0 s0 t = Ret true
          ↔ t = ([1; 2], 0, 0, -1, [])).
Proof.
  cbn zeta. repeat (split; [reflexivity |]).
  split; [| repeat (split; [reflexivity |]);
            split; [| repeat (split; [reflexivity |])]].
  - intros t. by rewrite compswap_partition_accepts_only by (simpl; lia).
  - intros t. by rewrite compswap_partition_accepts_only by (simpl; lia).
  - intros t. by rewrite compswap_partition_accepts_only by (simpl; lia).
Qed.

(** ** The program registry: indices are ranks *)

Lemma String_compare_OT (a b : string) :
  String_as_OT.compare a b = String.compare a b.
Proof.
  revert b. induction a as [|c a IH]; intros [|d b]; simpl; try done.
  all: rewrite IH; unfold Ascii_as_OT.compare, Ascii.compare.
  all: by destruct (_ ?= _)%N.
Qed.

Lemma str_lt_compare a b : str_lt a b ↔ String.compare a b = Lt.
Proof. unfold str_lt, String.ltb. by destruct (String.compare a b). Qed.

Lemma str_lt_irrefl a : ¬ str_lt a a.
Proof.
  rewrite str_lt_compare, <- String_compare_OT. apply String_as_OT.lt_strorder.
Qed.

#[global] Instance str_lt_trans : Transitive str_lt.
Proof.
  intros a b c. rewrite !str_lt_compare, <- !String_compare_OT.
  apply String_as_OT.lt_strorder.
Qed.

Lemma str_le_lt_eq a b : str_le a b ↔ str_lt a b ∨ a = b.
Proof.
  unfold str_le, String.leb. rewrite str_lt_compare.
  destruct (String.compare a b) eqn:Hc.
  - apply String.compare_eq_iff in Hc. tauto.
  - tauto.
  - split; [done |]. intros [? | ->]; [done |].
    pose proof (String.compare_antisym b b) as Ha. rewrite Hc in Ha. done.
Qed.

#[global] Instance str_le_trans : Transitive str_le.
Proof.
  intros a b c. rewrite !str_le_lt_eq. intros [H1 | ->] [H2 | ->]; auto.
  left. by transitivity b.
Qed.

#[global] Instance str_le_total : Total str_le.
Proof. intros a b. apply String.leb_total. Qed.

Lemma sorted_Permutation (l : list string) : sorted l ≡ₚ l.
Proof. apply merge_sort_Permutation. Qed.

Lemma sorted_StronglySorted (l : list string) : StronglySorted str_le (sorted l).
Proof. apply (StronglySorted_merge_sort str_le). Qed.

Lemma filter_all (P : string → Prop) `{∀ x, Decision (P x)} (l : list string) :
  Forall P l → filter P l = l.
Proof.
  induction 1 as [|x l Hx _ IH]; [done |].
  by rewrite filter_cons_True, IH.
Qed.

Lemma filter_none (P : string → Prop) `{∀ x, Decision (P x)} (l : list string) :
  Forall (λ x, ¬ P x) l → filter P l = [].
Proof.
  induction 1 as [|x l Hx _ IH]; [done |].
  by rewrite filter_cons_False, IH.
Qed.

(** In the sorted list of distinct names, a name stands at its rank. *)
Lemma sorted_position_rank (l : list string) (i : nat) (key : string) :
  NoDup l → sorted l !! i = Some key → rank l key = i.
Proof.
  intros Hnd Hi. unfold rank.
  rewrite <- (sorted_Permutation l).
  pose proof (sorted_StronglySorted l) as Hs.
  assert (Hnd' : NoDup (sorted l)) by (by rewrite sorted_Permutation).
  apply list_elem_of_split_length in Hi as (l1 & l2 & Hl & ->).
  rewrite Hl in Hs, Hnd' |- *. clear Hl.
  apply StronglySorted_app in Hs as (Hcross & _ & Hs2).
  apply StronglySorted_inv in Hs2 as [_ Hafter].
  apply NoDup_app in Hnd' as (_ & Hne1 & Hnd2).
  apply NoDup_cons in Hnd2 as [Hne2 _].
  rewrite filter_app, filter_all, filter_none, app_nil_r; [done | |].
  - constructor; [apply str_lt_irrefl |].
    apply Forall_forall. intros x Hx Hlt.
    rewrite Forall_forall in Hafter. specialize (Hafter x Hx).
    apply str_le_lt_eq in Hafter as [Hlt' | ->]; [| done].
    apply (str_lt_irrefl x). by transitivity key.
  - apply Forall_forall. intros x Hx.
    destruct (proj1 (str_le_lt_eq x key)) as [? | ->]; [| done |].
    + apply Hcross; [done | left].
    + exfalso. apply (Hne1 key Hx). left.
Qed.

Lemma assign_loop_other (l : list string) :
  ∀ (start : nat) (d : gmap string Program) (key : string),
    key ∉ l →
    foldl assign_step d (imap (λ i k, ((start + i)%nat, k)) l) !! key = d !! key.
Proof.
  induction l as [|x l IH]; intros start d key Hkey; [done |].
  rewrite imap_cons. cbn [foldl].
  rewrite (imap_ext _ (λ i k, ((S start + i)%nat, k)))
    by (intros; simpl; f_equal; lia).
  rewrite IH by (by intros ?; apply Hkey; right).
  unfold assign_step. simpl.
  apply lookup_alter_ne. intros ->. apply Hkey. left.
Qed.

Lemma assign_loop_at (l : list string) :
  ∀ (start : nat) (d : gmap string Program) (key : string) (i : nat),
    NoDup l → l !! i = Some key →
    foldl assign_step d (imap (λ i k, ((start + i)%nat, k)) l) !! key
    = set_index (start + i) <$> d !! key.
Proof.
  induction l as [|x l IH]; intros start d key i Hnd Hi; [done |].
  apply NoDup_cons in Hnd as [Hx Hnd].
  rewrite imap_cons. cbn [foldl].
  rewrite (imap_ext _ (λ i k, ((S start + i)%nat, k)))
    by (intros; simpl; f_equal; lia).
  destruct i as [|i]; simpl in Hi.
  - injection Hi as ->. rewrite assign_loop_other by done.
    unfold assign_step. simpl. apply lookup_alter_eq.
  - rewrite (IH _ _ _ i) by done.
    unfold assign_step. simpl.
    rewrite lookup_alter_ne.
    + by replace (S (start + i)) with (start + S i)%nat by lia.
    + intros ->. apply Hx. by eapply list_elem_of_lookup_2.
Qed.

Lemma elem_of_keys (lib : gmap string Program) (key : string) :
  key ∈ keys lib ↔ is_Some (lib !! key).
Proof.
  unfold keys. rewrite list_elem_of_fmap. split.
  - intros ([k p] & -> & Hin). apply elem_of_map_to_list in Hin. by exists p.
  - intros [p Hp]. exists (key, p). split; [done | by apply elem_of_map_to_list].
Qed.

Lemma assign_indices_unfold (lib : gmap string Program) :
  assign_indices lib
  = foldl assign_step lib (imap (λ i k, ((0 + i)%nat, k)) (sorted (keys lib))).
Proof. done. Qed.

Lemma assign_indices_Some (lib : gmap string Program) (key : string) (p0 : Program) :
  lib !! key = Some p0 →
  ∃ i, sorted (keys lib) !! i = Some key
       ∧ assign_indices lib !! key = Some (set_index i p0).
Proof.
  intros Hkey.
  assert (Hin : key ∈ sorted (keys lib))
    by (rewrite sorted_Permutation; apply elem_of_keys; eauto).
  apply list_elem_of_lookup in Hin as [i Hi]. exists i. split; [done |].
  rewrite assign_indices_unfold, (assign_loop_at _ _ _ _ i), Hkey; [done | | done].
  rewrite sorted_Permutation. apply NoDup_fst_map_to_list.
Qed.

Lemma assign_indices_None (lib : gmap string Program) (key : string) :
  lib !! key = None → assign_indices lib !! key = None.
Proof.
  intros Hkey. rewrite assign_indices_unfold, assign_loop_other; [done |].
  rewrite sorted_Permutation, elem_of_keys, Hkey. by intros [? ?].
Qed.

Lemma keys_list_to_map (l : list (string * Program)) :
  NoDup l.*1 → keys (list_to_map l) ≡ₚ l.*1.
Proof. intros Hnd. unfold keys. by rewrite map_to_list_to_map. Qed.

Lemma rank_Permutation (l l' : list string) (key : string) :
  l ≡ₚ l' → rank l key = rank l' key.
Proof. intros H. unfold rank. by rewrite H. Qed.

(** The registry built from a dictionary literal with distinct keys. *)
Lemma registry_rank (l : list (string * Program)) :
  NoDup l.*1 →
  (∀ key, key ∈ l.*1 ↔ is_Some (assign_indices (list_to_map l) !! key))
  ∧ (∀ key p, assign_indices (list_to_map l) !! key = Some p →
       index p = Some (rank l.*1 key) ∧ (rank l.*1 key < length l.*1)%nat)
  ∧ (∀ i, (i < length l.*1)%nat →
       ∃ key p, assign_indices (list_to_map l) !! key = Some p ∧ index p = Some i).
Proof.
  intros Hnd. set (lib := list_to_map l : gmap string Program).
  pose proof (keys_list_to_map l Hnd) as Hkeys. fold lib in Hkeys.
  assert (Hndk : NoDup (keys lib)) by apply NoDup_fst_map_to_list.
  split; [| split].
  - intros key. rewrite <- Hkeys, elem_of_keys. split.
    + intros [p0 Hp0]. destruct (assign_indices_Some _ _ _ Hp0) as (i & _ & Hi). eauto.
    + intros [p Hp]. destruct (lib !! key) eqn:Hk; [eauto |].
      by rewrite assign_indices_None in Hp.
  - intros key p Hp. destruct (lib !! key) as [p0|] eqn:Hk.
    + destruct (assign_indices_Some _ _ _ Hk) as (i & Hi & Hi').
      rewrite Hp in Hi'. injection Hi' as ->.
      rewrite <- (rank_Permutation _ _ key Hkeys).
      rewrite (sorted_position_rank _ _ _ Hndk Hi). split; [done |].
      apply lookup_lt_Some in Hi.
      by rewrite sorted_Permutation, Hkeys in Hi.
    + by rewrite assign_indices_None in Hp.
  - intros i Hi. rewrite <- Hkeys, <- (sorted_Permutation (keys lib)) in Hi.
    apply lookup_lt_is_Some in Hi as [key Hkey].
    assert (Hin : key ∈ keys lib).
    { rewrite <- sorted_Permutation. by eapply list_elem_of_lookup_2. }
    apply elem_of_keys in Hin as [p0 Hp0].
    destruct (assign_indices_Some _ _ _ Hp0) as (j & Hj & Hj').
    assert (j = i) as ->.
    { eapply NoDup_lookup; [| exact Hj | exact Hkey].
      by rewrite sorted_Permutation. }
    exists key, (set_index i p0). done.
Qed.

(** C9. In both classes and both hierarchy configurations, the names of the
    registry are those of the dictionary literal; the index stored for a
    program is its rank, counting from 0, in the lexicographic order of these
    names; and every number below the number of names is the index of some
    program. *)
Theorem C9_index_is_lexicographic_rank (quicksort hierarchy : bool) :
  let names :=
    (if quicksort then QuickSortListEnv.library hierarchy
     else ListEnv.library hierarchy).*1 in
  let registry :=
    if quicksort then QuickSortListEnv.programs_library hierarchy
    else ListEnv.programs_library hierarchy in
  (∀ key, key ∈ names ↔ is_Some (registry !! key))
  ∧ (∀ key p, registry !! key = Some p →
       index p = Some (rank names key) ∧ (rank names key < length names)%nat)
  ∧ (∀ i, (i < length names)%nat →
       ∃ key p, registry !! key = Some p ∧ index p = Some i).
Proof.
  destruct quicksort, hierarchy; cbn zeta;
    apply registry_rank; apply (bool_decide_unpack _); by vm_compute.
Qed.

Lemma C9_index_witness :
  QuickSortListEnv.programs_library true !! "SWAP_2"%string
    = Some (mkProgram 0 false (Some 16%nat))
  ∧ index (mkProgram 0 false (Some 16%nat))
    = Some (rank (QuickSortListEnv.library true).*1 "SWAP_2")
  ∧ (∃ key p, ListEnv.programs_library false !! key = Some p
              ∧ index p = Some 6%nat).
Proof.
  split; [by vm_compute |]. split.
  - apply (C9_index_is_lexicographic_rank true true). by vm_compute.
  - apply (C9_index_is_lexicographic_rank false false). simpl. lia.
Defined.

(** ** The task sampler: what a draw can return *)

Lemma randint_Ret (low high : Z) (rng : nat → nat) (k : nat) :
  low < high →
  randint low high rng k = Ret (low + Z.of_nat (rng k) mod (high - low), S k).
Proof.
  intros H. unfold randint.
  by replace (low <? high) with true by (symmetry; by apply Z.ltb_lt).
Qed.

Lemma randint_range (low high : Z) (rng : nat → nat) (k : nat) (v : Z) (k' : nat) :
  randint low high rng k = Ret (v, k') → low ≤ v < high.
Proof.
  unfold randint. destruct (low <? high) eqn:H; [| done].
  apply Z.ltb_lt in H. intros [= <- _].
  pose proof (Z.mod_pos_bound (Z.of_nat (rng k)) (high - low)). lia.
Qed.

Lemma randint_size_Ret (high size : Z) (rng : nat → nat) (k : nat)
  (a : list Z) (k' : nat) :
  randint_size high size rng k = Ret (a, k') →
  length a = Z.to_nat size ∧ Forall (λ v, 0 ≤ v < high) a.
Proof.
  unfold randint_size. destruct (0 <? high) eqn:H; [| done].
  apply Z.ltb_lt in H. intros [= <- _]. split.
  - by rewrite length_fmap, length_seq.
  - apply Forall_fmap, Forall_forall. intros i _. simpl.
    by apply Z.mod_pos_bound.
Qed.

Lemma sample_until_Ret {A} (fuel : nat) (draw : Rand A) (reject : A → bool)
  (rng : nat → nat) :
  ∀ (k : nat) (x : A) (k' : nat),
    sample_until fuel draw reject rng k = Ret (x, k') →
    reject x = false ∧ ∃ k0, draw rng k0 = Ret (x, k').
Proof.
  induction fuel as [|fuel IH]; intros k x k' H; [done |].
  simpl in H. destruct (draw rng k) as [[y k1]| |] eqn:Hd; try done.
  destruct (reject y) eqn:Hr.
  - by apply IH in H.
  - injection H as -> ->. eauto.
Qed.

Lemma sample_until_Raise {A} (fuel : nat) (draw : Rand A) (reject : A → bool)
  (rng : nat → nat) :
  ∀ (k : nat) (e : exn),
    sample_until fuel draw reject rng k = Raise e → ∃ k0, draw rng k0 = Raise e.
Proof.
  induction fuel as [|fuel IH]; intros k e H; [done |].
  simpl in H. destruct (draw rng k) as [[y k1]| |] eqn:Hd; try done.
  - destruct (reject y); [by apply IH in H | done].
  - injection H as ->. eauto.
Qed.

(** A round whose draw is accepted ends the loop. *)
Lemma sample_until_accept {A} (fuel : nat) (draw : Rand A) (reject : A → bool)
  (rng : nat → nat) (k : nat) (x : A) (k' : nat) :
  draw rng k = Ret (x, k') → reject x = false →
  sample_until (S fuel) draw reject rng k = Ret (x, k').
Proof. intros Hd Hr. simpl. by rewrite Hd, Hr. Qed.

(** More fuel does not change a result. *)
Lemma sample_until_more_fuel {A} (draw : Rand A) (reject : A → bool)
  (rng : nat → nat) (fuel : nat) :
  ∀ (k : nat) (r : A * nat),
    sample_until fuel draw reject rng k = Ret r →
    sample_until (S fuel) draw reject rng k = Ret r.
Proof.
  induction fuel as [|fuel IH]; intros k r H; [done |].
  cbn [sample_until] in H |- *.
  destruct (draw rng k) as [[y k1]| |]; try done.
  destruct (reject y); [by apply IH | done].
Qed.

(** With a draw that always returns, the loop is out of fuel exactly when
    every round so far was rejected. *)
Lemma sample_until_OutOfFuel_iff {A} (draw : Rand A) (reject : A → bool)
  (rng : nat → nat) (fuel : nat) :
  (∀ k, is_Ret (draw rng k) = true) →
  ∀ k, sample_until fuel draw reject rng k = OutOfFuel
       ↔ rejected_rounds fuel draw reject rng k.
Proof.
  intros Htotal. induction fuel as [|fuel IH]; intros k; [done |].
  cbn [sample_until rejected_rounds]. specialize (Htotal k).
  destruct (draw rng k) as [[x k1]| |]; try done.
  destruct (reject x) eqn:Hr.
  - rewrite IH. split; [by eauto |].
    by intros (y & k2 & [= <- <-] & _ & H).
  - split; [done |]. intros (y & k2 & [= <- <-] & Hy & _). congruence.
Qed.

Lemma ListEnv_draw_pointers_Ret (len : Z) (rng : nat → nat) (k : nat) :
  0 < len →
  ListEnv.draw_pointers len rng k
  = Ret ((Z.of_nat (rng k) mod len, Z.of_nat (rng (S k)) mod len), S (S k)).
Proof.
  intros H. unfold ListEnv.draw_pointers.
  rewrite randint_Ret by done. cbn [mbind result_bind].
  rewrite randint_Ret by done. cbn [mbind result_bind].
  by rewrite Z.sub_0_r.
Qed.

Lemma QuickSort_draw_pointers_Ret (len : Z) (rng : nat → nat) (k : nat) :
  0 < len →
  QuickSortListEnv.draw_pointers len rng k
  = Ret ((Z.of_nat (rng k) mod len, Z.of_nat (rng (S k)) mod len,
          Z.of_nat (rng (S (S k))) mod len), S (S (S k))).
Proof.
  intros H. unfold QuickSortListEnv.draw_pointers.
  rewrite randint_Ret by done. cbn [mbind result_bind].
  rewrite randint_Ret by done. cbn [mbind result_bind].
  rewrite randint_Ret by done. cbn [mbind result_bind].
  by rewrite Z.sub_0_r.
Qed.

(** ** The task sampler of the bubble-sort environment *)

Lemma ListEnv_init_pointers_range (fuel : nat) (task : string) (len : Z)
  (rng : nat → nat) (k : nat) (p1 p2 : Z) (k' : nat) :
  0 < len →
  ListEnv.init_pointers fuel task len rng k = Ret ((p1, p2), k') →
  0 ≤ p1 ≤ len - 1 ∧ 0 ≤ p2 ≤ len - 1.
Proof.
  intros Hlen H. unfold ListEnv.init_pointers in H.
  pose proof (Z.mod_pos_bound) as Hmod.
  destruct (_ || _)%string; [injection H as <- <- _; lia |].
  destruct (task =? "RESET")%string;
    [| destruct (task =? "LSHIFT")%string;
       [| destruct (task =? "RSHIFT")%string]].
  1-3: apply sample_until_Ret in H as (_ & k0 & H);
       rewrite ListEnv_draw_pointers_Ret in H by done;
       injection H as <- <- _;
       pose proof (Hmod (Z.of_nat (rng k0)) len Hlen);
       pose proof (Hmod (Z.of_nat (rng (S k0))) len Hlen); lia.
  destruct (task =? "COMPSWAP")%string; [| done].
  destruct (randint 0 (len - 1) rng k) as [[pos1 k1]| |] eqn:Hr; try done.
  apply randint_range in Hr. cbn in H. injection H as <- <- _.
  destruct (Nat.even _); lia.
Qed.

Lemma ListEnv_reset_env_unfold (fuel : nat) (task : string) (self : ListEnv.Env)
  (rng : nat → nat) (k : nat) :
  ListEnv.reset_env fuel task self rng k
  = let a := (λ i : nat, Z.of_nat (rng (k + i)%nat) mod 10)
               <$> seq 0 (Z.to_nat (ListEnv.length self)) in
    match ListEnv.init_pointers fuel task (ListEnv.length self) rng
            (k + Z.to_nat (ListEnv.length self))%nat with
    | Ret ((pos1, pos2), k') =>
        (ListEnv.mkEnv (ListEnv.length self) a pos1 pos2 true, Ret k')
    | Raise e =>
        (ListEnv.mkEnv (ListEnv.length self) a (ListEnv.p1_pos self)
           (ListEnv.p2_pos self) (ListEnv.has_been_reset self), Raise e)
    | OutOfFuel =>
        (ListEnv.mkEnv (ListEnv.length self) a (ListEnv.p1_pos self)
           (ListEnv.p2_pos self) (ListEnv.has_been_reset self), OutOfFuel)
    end.
Proof.
  unfold ListEnv.reset_env, randint_size. cbn.
  by destruct (ListEnv.init_pointers _ _ _ _ _) as [[[? ?] ?]| |].
Qed.

Lemma ListEnv_reset_env_wf (fuel : nat) (task : string) (self : ListEnv.Env)
  (rng : nat → nat) (k : nat) (self' : ListEnv.Env) (k' : nat) :
  0 < ListEnv.length self →
  ListEnv.reset_env fuel task self rng k = (self', Ret k') →
  ListEnv_wf (ListEnv.length self) self' ∧ ListEnv.has_been_reset self' = true.
Proof.
  intros Hlen. rewrite ListEnv_reset_env_unfold. cbn zeta.
  destruct (ListEnv.init_pointers _ _ _ _ _) as [[[p1 p2] k1]| |] eqn:Hp; try done.
  intros [= <- _]. apply ListEnv_init_pointers_range in Hp; [| done].
  unfold ListEnv_wf. cbn. rewrite length_fmap, length_seq. repeat split; lia.
Qed.

Lemma ListEnv_prog_to_func_cases (hierarchy : bool) (name : string)
  (f : ListEnv.Env → result ListEnv.Env) :
  ListEnv.prog_to_func hierarchy !! name = Some f →
  f = (λ self, Ret (ListEnv._stop self))
  ∨ f = (λ self, Ret (ListEnv._ptr_1_left self))
  ∨ f = (λ self, Ret (ListEnv._ptr_2_left self))
  ∨ f = (λ self, Ret (ListEnv._ptr_1_right self))
  ∨ f = (λ self, Ret (ListEnv._ptr_2_right self))
  ∨ f = ListEnv._swap.
Proof.
  intros H. apply elem_of_list_to_map_2 in H.
  repeat (apply elem_of_cons in H as [[= _ ->] | H]; [tauto |]).
  by apply elem_of_nil in H.
Qed.

Lemma ListEnv_act_wf (hierarchy : bool) (name : string)
  (f : ListEnv.Env → result ListEnv.Env) (len : Z) (self self' : ListEnv.Env) :
  ListEnv.prog_to_func hierarchy !! name = Some f →
  f self = Ret self' →
  ListEnv_wf len self → ListEnv_wf len self'.
Proof.
  intros Hf Hrun (Hl & Ha & Hp1 & Hp2).
  apply ListEnv_prog_to_func_cases in Hf.
  destruct Hf as [-> | [-> | [-> | [-> | [-> | ->]]]]].
  - injection Hrun as <-. done.
  - injection Hrun as <-. unfold ListEnv._ptr_1_left.
    destruct (0 <? _) eqn:E; [apply Z.ltb_lt in E | done].
    unfold ListEnv_wf. cbn. repeat split; lia.
  - injection Hrun as <-. unfold ListEnv._ptr_2_left.
    destruct (0 <? _) eqn:E; [apply Z.ltb_lt in E | done].
    unfold ListEnv_wf. cbn. repeat split; lia.
  - injection Hrun as <-. unfold ListEnv._ptr_1_right.
    destruct (_ <? _) eqn:E; [apply Z.ltb_lt in E | done].
    unfold ListEnv_wf. cbn. repeat split; lia.
  - injection Hrun as <-. unfold ListEnv._ptr_2_right.
    destruct (_ <? _) eqn:E; [apply Z.ltb_lt in E | done].
    unfold ListEnv_wf. cbn. repeat split; lia.
  - unfold ListEnv._swap in Hrun.
    destruct (np.swap _ _ _) as [a| |] eqn:Hs; try done.
    injection Hrun as <-. apply np_swap_length in Hs.
    unfold ListEnv_wf. cbn. rewrite Hs. repeat split; lia.
Qed.

(** In a well-formed state no primitive raises. *)
Lemma ListEnv_act_returns (hierarchy : bool) (name : string)
  (f : ListEnv.Env → result ListEnv.Env) (len : Z) (self : ListEnv.Env) :
  ListEnv.prog_to_func hierarchy !! name = Some f →
  ListEnv_wf len self →
  ∃ self', f self = Ret self'.
Proof.
  intros Hf (Hl & Ha & Hp1 & Hp2).
  apply ListEnv_prog_to_func_cases in Hf.
  destruct Hf as [-> | [-> | [-> | [-> | [-> | ->]]]]]; try by eexists.
  unfold ListEnv._swap. rewrite np_swap_Z by lia. by eexists.
Qed.

Lemma ListEnv_reachable_wf (hierarchy : bool) (len : Z) (self : ListEnv.Env) :
  ListEnv.reachable hierarchy len self → ListEnv_wf len self.
Proof.
  induction 1 as [fuel task self rng k self' k' Hlen Hself Hreset
                 | name f pre self self' _ IH Hf _ _ Hrun].
  - subst len. by eapply ListEnv_reset_env_wf.
  - by eapply ListEnv_act_wf.
Qed.

(** ** The task sampler and the primitives of the quicksort environment *)

Lemma QuickSort_init_pointers_range (fuel : nat) (task : string) (len : Z)
  (rng : nat → nat) (k : nat) (p1 p2 p3 : Z) (k' : nat) :
  0 < len →
  QuickSortListEnv.init_pointers fuel task len rng k = Ret ((p1, p2, p3), k') →
  0 ≤ p1 ≤ len - 1 ∧ 0 ≤ p2 ≤ len - 1 ∧ 0 ≤ p3 ≤ len - 1.
Proof.
  intros Hlen H. unfold QuickSortListEnv.init_pointers in H.
  pose proof (Z.mod_pos_bound) as Hmod.
  destruct (_ || _)%string; [injection H as <- <- <- _; lia |].
  destruct (_ || _)%string.
  { destruct (sample_until _ _ _ _ _) as [[pos2 k1]| |] eqn:Hs; try done.
    apply sample_until_Ret in Hs as (Hne & k0 & Hs).
    apply randint_range in Hs. apply Z.eqb_neq in Hne.
    cbn [mbind result_bind] in H.
    destruct (randint 0 pos2 rng k1) as [[pos1 k2]| |] eqn:Hr; try done.
    apply randint_range in Hr. cbn in H. injection H as <- <- <- _. lia. }
  destruct (task =? "QUICKSORT")%string; [injection H as <- <- <- _; lia |].
  destruct (task =? "RESET")%string;
    [| destruct (task =? "LSHIFT")%string;
       [| destruct (task =? "RSHIFT")%string]].
  1-3: apply sample_until_Ret in H as (_ & k0 & H);
       rewrite QuickSort_draw_pointers_Ret in H by done;
       injection H as <- <- <- _;
       pose proof (Hmod (Z.of_nat (rng k0)) len Hlen);
       pose proof (Hmod (Z.of_nat (rng (S k0))) len Hlen);
       pose proof (Hmod (Z.of_nat (rng (S (S k0)))) len Hlen); lia.
  destruct (task =? "COMPSWAP")%string; [| done].
  destruct (randint 0 (len - 1) rng k) as [[pos1 k1]| |] eqn:Hr; try done.
  apply randint_range in Hr. cbn in H. injection H as <- <- <- _.
  destruct (Nat.even _); lia.
Qed.

Lemma QuickSort_reset_env_wf (fuel : nat) (task : string)
  (self : QuickSortListEnv.Env) (rng : nat → nat) (k : nat)
  (self' : QuickSortListEnv.Env) (k' : nat) :
  0 < QuickSortListEnv.length self →
  QuickSortListEnv.reset_env fuel task self rng k = (self', Ret k') →
  QuickSort_wf (QuickSortListEnv.length self) self'
  ∧ stack_in_range (QuickSortListEnv.length self) self'
  ∧ QuickSortListEnv.has_been_reset self' = true.
Proof.
  intros Hlen. unfold QuickSortListEnv.reset_env.
  destruct (randint_size 10 _ rng k) as [[a k1]| |] eqn:Ha; try done.
  apply randint_size_Ret in Ha as [Ha _]. cbn [QuickSortListEnv.length
    QuickSortListEnv.with_scratchpad QuickSortListEnv.with_stack].
  destruct (randint_size _ _ rng k1) as [[st k2]| |] eqn:Hst; try done.
  apply randint_size_Ret in Hst as [Hst1 Hst2].
  destruct (QuickSortListEnv.init_pointers _ _ _ _ _) as [[[[p1 p2] p3] k3]| |]
    eqn:Hp; try done.
  intros [= <- _]. apply QuickSort_init_pointers_range in Hp as (? & ? & ?); [| done].
  unfold QuickSort_wf, stack_in_range. qs_proj. rewrite Ha, Hst1.
  repeat split; try lia.
  - pose proof (Z.mod_pos_bound (QuickSortListEnv.length self) 2).
    replace (Z.to_nat (3 * (QuickSortListEnv.length self `mod` 2)))
      with (Z.to_nat (QuickSortListEnv.length self `mod` 2) * 3)%nat by lia.
    apply Nat.Div0.mod_mul.
  - eapply Forall_impl; [exact Hst2 |]. intros v Hv. simpl in Hv. lia.
Qed.

Lemma QuickSort_prog_to_func_cases (hierarchy : bool) (name : string)
  (f : QuickSortListEnv.Env → result QuickSortListEnv.Env) :
  QuickSortListEnv.prog_to_func hierarchy !! name = Some f →
  f = (λ self, Ret (QuickSortListEnv._stop self))
  ∨ f = (λ self, Ret (QuickSortListEnv._ptr_1_left self))
  ∨ f = (λ self, Ret (QuickSortListEnv._ptr_2_left self))
  ∨ f = (λ self, Ret (QuickSortListEnv._ptr_1_right self))
  ∨ f = (λ self, Ret (QuickSortListEnv._ptr_2_right self))
  ∨ f = (λ self, Ret (QuickSortListEnv._ptr_3_left self))
  ∨ f = (λ self, Ret (QuickSortListEnv._ptr_3_right self))
  ∨ f = (λ self, Ret (QuickSortListEnv._push self))
  ∨ f = QuickSortListEnv._pop
  ∨ f = QuickSortListEnv._swap
  ∨ f = QuickSortListEnv._swap_2
  ∨ f = QuickSortListEnv._swap_3.
Proof.
  intros H. apply elem_of_list_to_map_2 in H. destruct hierarchy.
  all: repeat (apply elem_of_cons in H as [[= _ ->] | H]; [tauto |]).
  all: by apply elem_of_nil in H.
Qed.

Lemma QuickSort_swap_inv (len : Z) (self : QuickSortListEnv.Env) (p q : Z)
  (self' : QuickSortListEnv.Env) :
  (a ← np.swap (QuickSortListEnv.scratchpad_ints self) p q;
   Ret (QuickSortListEnv.with_scratchpad self a)) = Ret self' →
  QuickSort_inv len self → QuickSort_inv len self'.
Proof.
  intros Hrun [(Hl & Ha & Hp1 & Hp2 & Hp3 & Hst) Hrange].
  destruct (np.swap _ _ _) as [a| |] eqn:Hs; try done.
  injection Hrun as <-. apply np_swap_length in Hs.
  unfold QuickSort_inv, QuickSort_wf, stack_in_range. qs_proj. rewrite Hs. done.
Qed.

Lemma QuickSort_push_inv (len : Z) (self : QuickSortListEnv.Env) :
  QuickSort_inv len self → QuickSort_inv len (QuickSortListEnv._push self).
Proof.
  intros [(Hl & Ha & Hp1 & Hp2 & Hp3 & Hst) Hrange].
  rewrite push_appends.
  unfold QuickSort_inv, QuickSort_wf, stack_in_range in *. qs_proj.
  repeat split; try done; try lia.
  - rewrite !length_app.
    destruct (_ + 1 <? _), (0 <? _ - 1); cbn [length];
      rewrite ?Nat.add_0_r; try done.
    + replace (_ + _)%nat
        with (length (QuickSortListEnv.prog_stack self) + 2 * 3)%nat by lia.
      by rewrite Nat.Div0.mod_add.
    + replace (_ + _)%nat
        with (length (QuickSortListEnv.prog_stack self) + 1 * 3)%nat by lia.
      by rewrite Nat.Div0.mod_add.
    + replace (_ + _)%nat
        with (length (QuickSortListEnv.prog_stack self) + 1 * 3)%nat by lia.
      by rewrite Nat.Div0.mod_add.
  - rewrite !Forall_app. split; [done |].
    destruct (_ + 1 <? _) eqn:E1, (0 <? _ - 1) eqn:E2;
      try apply Z.ltb_lt in E1; try apply Z.ltb_lt in E2;
      split; repeat constructor; lia.
Qed.

Lemma QuickSort_pop_inv (len : Z) (self self' : QuickSortListEnv.Env) :
  QuickSortListEnv._pop self = Ret self' →
  QuickSort_inv len self → QuickSort_inv len self'.
Proof.
  intros Hrun Hinv.
  destruct (decide (3 ≤ length (QuickSortListEnv.prog_stack self))%nat) as [Hge | Hlt].
  - destruct (split_last_three _ Hge) as (rest & a & b & c & Hst).
    rewrite (pop_last_three _ _ _ _ _ Hst) in Hrun. injection Hrun as <-.
    destruct Hinv as [(Hl & Ha & Hp1 & Hp2 & Hp3 & Hmod) Hrange].
    unfold QuickSort_inv, QuickSort_wf, stack_in_range in *. qs_proj.
    rewrite Hst in Hmod, Hrange. rewrite length_app in Hmod. cbn [length] in Hmod.
    apply Forall_app in Hrange as [Hrest Hlast].
    apply Forall_cons in Hlast as [Hca Hlast].
    apply Forall_cons in Hlast as [Hcb Hlast].
    apply Forall_cons in Hlast as [Hcc _].
    repeat split; try done; try lia.
    replace (length rest + 3)%nat with (length rest + 1 * 3)%nat in Hmod by lia.
    by rewrite Nat.Div0.mod_add in Hmod.
  - rewrite pop_short_stack in Hrun by lia. by injection Hrun as <-.
Qed.

Lemma QuickSort_act_inv (hierarchy : bool) (name : string)
  (f : QuickSortListEnv.Env → result QuickSortListEnv.Env) (len : Z)
  (self self' : QuickSortListEnv.Env) :
  QuickSortListEnv.prog_to_func hierarchy !! name = Some f →
  f self = Ret self' →
  QuickSort_inv len self → QuickSort_inv len self'.
Proof.
  intros Hf Hrun Hinv.
  apply QuickSort_prog_to_func_cases in Hf.
  destruct Hf as [-> | [-> | [-> | [-> | [-> | [-> | [-> | [-> | [-> | [-> | [-> | ->]]]]]]]]]]].
  - by injection Hrun as <-.
  - pointer_move.
  - pointer_move.
  - pointer_move.
  - pointer_move.
  - pointer_move.
  - pointer_move.
  - injection Hrun as <-. by apply QuickSort_push_inv.
  - by eapply QuickSort_pop_inv.
  - by eapply QuickSort_swap_inv.
  - by eapply QuickSort_swap_inv.
  - by eapply QuickSort_swap_inv.
Qed.

(** Under the invariant no primitive raises. *)
Lemma QuickSort_act_returns (hierarchy : bool) (name : string)
  (f : QuickSortListEnv.Env → result QuickSortListEnv.Env) (len : Z)
  (self : QuickSortListEnv.Env) :
  QuickSortListEnv.prog_to_func hierarchy !! name = Some f →
  QuickSort_inv len self →
  ∃ self', f self = Ret self'.
Proof.
  intros Hf [(Hl & Ha & Hp1 & Hp2 & Hp3 & Hmod) Hrange].
  apply QuickSort_prog_to_func_cases in Hf.
  destruct Hf as [-> | [-> | [-> | [-> | [-> | [-> | [-> | [-> | [-> | [-> | [-> | ->]]]]]]]]]]];
    try by eexists.
  - destruct (decide (3 ≤ length (QuickSortListEnv.prog_stack self))%nat)
      as [Hge | Hlt].
    + destruct (split_last_three _ Hge) as (rest & a & b & c & Hst).
      rewrite (pop_last_three _ _ _ _ _ Hst). by eexists.
    + rewrite pop_short_stack by lia. by eexists.
  - unfold QuickSortListEnv._swap. rewrite np_swap_Z by lia. by eexists.
  - unfold QuickSortListEnv._swap_2. rewrite np_swap_Z by lia. by eexists.
  - unfold QuickSortListEnv._swap_3. rewrite np_swap_Z by lia. by eexists.
Qed.

Lemma QuickSort_reachable_inv (hierarchy : bool) (len : Z)
  (self : QuickSortListEnv.Env) :
  QuickSortListEnv.reachable hierarchy len self → QuickSort_inv len self.
Proof.
  induction 1 as [fuel task self rng k self' k' Hlen Hself Hreset
                 | name f pre self self' _ IH Hf _ _ Hrun].
  - subst len. split; by eapply QuickSort_reset_env_wf.
  - by eapply QuickSort_act_inv.
Qed.

(** C7. In both classes, every state reached by a successful [reset_env]
    followed by primitive actions, each taken when its precondition holds,
    keeps the construction-time length, has a scratchpad of that length and
    every pointer in [[0, length - 1]]; in the quicksort class the length of
    the stack is a multiple of 3. *)
Theorem C7_reachable_states_well_formed
  (hierarchy : bool) (length0 : Z)
  (lself : ListEnv.Env) (qself : QuickSortListEnv.Env) :
  (ListEnv.reachable hierarchy length0 lself → ListEnv_wf length0 lself)
  ∧ (QuickSortListEnv.reachable hierarchy length0 qself →
     QuickSort_wf length0 qself).
Proof.
  split.
  - apply ListEnv_reachable_wf.
  - intros H. by apply QuickSort_reachable_inv in H as [? _].
Qed.

Lemma C7_reachable_witness :
  let l0 := fst (ListEnv.reset_env 1 "COMPSWAP" (ListEnv.mkEnv 4 [] 0 0 false)
                   (λ n, S n) 0) in
  let q0 := fst (QuickSortListEnv.reset_env 1 "QUICKSORT"
                   (QuickSortListEnv.mkEnv 3 [] 0 0 0 [] false) (λ n, n) 0) in
  ListEnv_wf 4 (ListEnv._ptr_2_left l0)
  ∧ QuickSort_wf 3 (QuickSortListEnv._push q0).
Proof.
  cbn zeta. split.
  - apply (C7_reachable_states_well_formed true 4 _
             (QuickSortListEnv.mkEnv 3 [] 0 0 0 [] false)).
    eapply (ListEnv.reach_act true 4 "PTR_2_LEFT").
    + eapply (ListEnv.reach_reset true 4 1 "COMPSWAP"
                (ListEnv.mkEnv 4 [] 0 0 false) (λ n, S n) 0);
        [lia | reflexivity | vm_compute; reflexivity].
    + vm_compute; reflexivity.
    + vm_compute; reflexivity.
    + vm_compute; reflexivity.
    + vm_compute; reflexivity.
  - apply (C7_reachable_states_well_formed true 3
             (ListEnv.mkEnv 3 [] 0 0 false)).
    eapply (QuickSortListEnv.reach_act true 3 "PUSH").
    + eapply (QuickSortListEnv.reach_reset true 3 1 "QUICKSORT"
                (QuickSortListEnv.mkEnv 3 [] 0 0 0 [] false) (λ n, n) 0);
        [lia | reflexivity | vm_compute; reflexivity].
    + vm_compute; reflexivity.
    + vm_compute; reflexivity.
    + vm_compute; reflexivity.
    + vm_compute; reflexivity.
Defined.

(** ** [reset_env]: supported and unsupported tasks *)

Lemma ListEnv_init_pointers_unsupported (fuel : nat) (task : string) (len : Z)
  (rng : nat → nat) (k : nat) :
  task ∉ bubble_tasks →
  ListEnv.init_pointers fuel task len rng k = Raise NotImplementedError.
Proof.
  intros H. unfold bubble_tasks in H. unfold ListEnv.init_pointers.
  by absent_task H.
Qed.

Lemma QuickSort_init_pointers_unsupported (fuel : nat) (task : string) (len : Z)
  (rng : nat → nat) (k : nat) :
  task ∉ quicksort_tasks →
  QuickSortListEnv.init_pointers fuel task len rng k = Raise NotImplementedError.
Proof.
  intros H. unfold quicksort_tasks, bubble_tasks in H. cbn [app] in H.
  unfold QuickSortListEnv.init_pointers.
  by absent_task H.
Qed.

(** The rejection loops never raise. *)
Lemma ListEnv_sample_not_Raise (fuel : nat) (len : Z) (reject : Z * Z → bool)
  (rng : nat → nat) (k : nat) :
  0 < len →
  is_Raise (sample_until fuel (ListEnv.draw_pointers len) reject rng k) = false.
Proof.
  intros Hlen.
  destruct (sample_until _ _ _ _ _) as [r|e|] eqn:H; try done.
  apply sample_until_Raise in H as [k0 H].
  by rewrite ListEnv_draw_pointers_Ret in H.
Qed.

Lemma QuickSort_sample_not_Raise (fuel : nat) (len : Z)
  (reject : Z * Z * Z → bool) (rng : nat → nat) (k : nat) :
  0 < len →
  is_Raise (sample_until fuel (QuickSortListEnv.draw_pointers len) reject rng k)
  = false.
Proof.
  intros Hlen.
  destruct (sample_until _ _ _ _ _) as [r|e|] eqn:H; try done.
  apply sample_until_Raise in H as [k0 H].
  by rewrite QuickSort_draw_pointers_Ret in H.
Qed.

Lemma ListEnv_init_pointers_not_Raise (fuel : nat) (task : string) (len : Z)
  (rng : nat → nat) (k : nat) :
  2 ≤ len → task ∈ bubble_tasks →
  is_Raise (ListEnv.init_pointers fuel task len rng k) = false.
Proof.
  intros Hlen H. unfold bubble_tasks in H.
  repeat (apply elem_of_cons in H as [-> | H]); [.. | by apply elem_of_nil in H];
    unfold ListEnv.init_pointers; eval_task_tests; try done;
    try (apply ListEnv_sample_not_Raise; lia).
  rewrite randint_Ret by lia. done.
Qed.

Lemma QuickSort_init_pointers_not_Raise (fuel : nat) (task : string) (len : Z)
  (rng : nat → nat) (k : nat) :
  2 ≤ len → task ∈ quicksort_tasks →
  is_Raise (QuickSortListEnv.init_pointers fuel task len rng k) = false.
Proof.
  intros Hlen H. unfold quicksort_tasks, bubble_tasks in H. cbn [app] in H.
  assert (Hpart : is_Raise
            ('(pos2, k) ← sample_until fuel (randint 0 len) (λ pos2, pos2 =? 0) rng k;
             '(pos1, k) ← randint 0 pos2 rng k;
             Ret ((pos1, pos2, pos1), k)) = false).
  { destruct (sample_until _ _ _ _ _) as [[pos2 k1]|e|] eqn:Hs; try done.
    - apply sample_until_Ret in Hs as (Hne & k0 & Hs).
      apply randint_range in Hs. apply Z.eqb_neq in Hne.
      cbn [mbind result_bind]. by rewrite randint_Ret by lia.
    - apply sample_until_Raise in Hs as [k0 Hs].
      by rewrite randint_Ret in Hs by lia. }
  repeat (apply elem_of_cons in H as [-> | H]); [.. | by apply elem_of_nil in H];
    unfold QuickSortListEnv.init_pointers; eval_task_tests; try done;
    try (apply QuickSort_sample_not_Raise; lia).
  rewrite randint_Ret by lia. done.
Qed.

Lemma ListEnv_reset_env_outcome (fuel : nat) (task : string) (self : ListEnv.Env)
  (rng : nat → nat) (k : nat) :
  let r := ListEnv.init_pointers fuel task (ListEnv.length self) rng
             (k + Z.to_nat (ListEnv.length self))%nat in
  snd (ListEnv.reset_env fuel task self rng k) = outcome_of r
  ∧ ListEnv.has_been_reset (fst (ListEnv.reset_env fuel task self rng k))
    = (if is_Ret r then true else ListEnv.has_been_reset self).
Proof.
  rewrite ListEnv_reset_env_unfold. cbn zeta.
  by destruct (ListEnv.init_pointers _ _ _ _ _) as [[[? ?] ?]| |].
Qed.

Lemma QuickSort_reset_env_outcome (fuel : nat) (task : string)
  (self : QuickSortListEnv.Env) (rng : nat → nat) (k : nat) :
  2 ≤ QuickSortListEnv.length self →
  let len := QuickSortListEnv.length self in
  let r := QuickSortListEnv.init_pointers fuel task len rng
             (k + Z.to_nat len + Z.to_nat (3 * (len `mod` 2)))%nat in
  snd (QuickSortListEnv.reset_env fuel task self rng k) = outcome_of r
  ∧ QuickSortListEnv.has_been_reset
      (fst (QuickSortListEnv.reset_env fuel task self rng k))
    = (if is_Ret r then true else QuickSortListEnv.has_been_reset self).
Proof.
  intros Hlen. cbn zeta.
  unfold QuickSortListEnv.reset_env, randint_size. qs_proj.
  change (0 <? 10) with true. cbn match.
  replace (0 <? QuickSortListEnv.length self - 1) with true
    by (symmetry; apply Z.ltb_lt; lia).
  by destruct (QuickSortListEnv.init_pointers _ _ _ _ _) as [[[[? ?] ?] ?]| |].
Qed.

Lemma is_Ret_outcome_of {A} (r : result (A * nat)) : is_Ret (outcome_of r) = is_Ret r.
Proof. by destruct r as [[? ?]| |]. Qed.

Lemma is_Raise_outcome_of {A} (r : result (A * nat)) :
  is_Raise (outcome_of r) = is_Raise r.
Proof. by destruct r as [[? ?]| |]. Qed.

Lemma ListEnv_init_pointers_returns (task : string) (len : Z) (fuel k : nat) :
  2 ≤ len → task ∈ bubble_tasks →
  is_Ret (ListEnv.init_pointers (S fuel) task len (accepted_stream task) k) = true.
Proof.
  intros Hlen H. unfold bubble_tasks in H.
  repeat (apply elem_of_cons in H as [-> | H]); [.. | by apply elem_of_nil in H];
    unfold ListEnv.init_pointers, accepted_stream; eval_task_tests; try done.
  - erewrite sample_until_accept;
      [done | apply ListEnv_draw_pointers_Ret; lia |].
    cbn. rewrite Z.mod_small by lia. done.
  - erewrite sample_until_accept;
      [done | apply ListEnv_draw_pointers_Ret; lia |].
    cbn. rewrite Z.mod_small by lia. done.
  - erewrite sample_until_accept;
      [done | apply ListEnv_draw_pointers_Ret; lia |].
    cbn [fst snd Z.of_nat QuickSortListEnv.all_eq]. rewrite Z.mod_small by lia.
    by replace (Z.of_nat 0 =? len - 1) with false
      by (symmetry; apply Z.eqb_neq; lia).
  - rewrite randint_Ret by lia. done.
Qed.

Lemma QuickSort_init_pointers_returns (task : string) (len : Z) (fuel k : nat) :
  2 ≤ len → task ∈ quicksort_tasks →
  is_Ret (QuickSortListEnv.init_pointers (S fuel) task len (accepted_stream task) k)
  = true.
Proof.
  intros Hlen H. unfold quicksort_tasks, bubble_tasks in H. cbn [app] in H.
  repeat (apply elem_of_cons in H as [-> | H]); [.. | by apply elem_of_nil in H];
    unfold QuickSortListEnv.init_pointers, accepted_stream; eval_task_tests;
    try done.
  - erewrite sample_until_accept;
      [done | apply QuickSort_draw_pointers_Ret; lia |].
    cbn. rewrite Z.mod_small by lia. done.
  - erewrite sample_until_accept;
      [done | apply QuickSort_draw_pointers_Ret; lia |].
    cbn. rewrite Z.mod_small by lia. done.
  - erewrite sample_until_accept;
      [done | apply QuickSort_draw_pointers_Ret; lia |].
    cbn [fst snd Z.of_nat QuickSortListEnv.all_eq]. rewrite Z.mod_small by lia.
    by replace (Z.of_nat 0 =? len - 1) with false
      by (symmetry; apply Z.eqb_neq; lia).
  - rewrite randint_Ret by lia. done.
  - erewrite sample_until_accept; [| apply randint_Ret; lia |].
    + cbn [mbind result_bind]. rewrite randint_Ret; [done |].
      cbn. rewrite Z.mod_small by lia. lia.
    + cbn. rewrite Z.mod_small by lia. done.
  - erewrite sample_until_accept; [| apply randint_Ret; lia |].
    + cbn [mbind result_bind]. rewrite randint_Ret; [done |].
      cbn. rewrite Z.mod_small by lia. lia.
    + cbn. rewrite Z.mod_small by lia. done.
Qed.

(** The rounds of a rejection loop against the raw draws they read. *)
Lemma rejected_rounds_draws {A : Type} (draw : Rand A) (reject : A → bool)
  (w : nat) (len v : Z) (rng : nat → nat) :
  (∀ k, ∃ x, draw rng k = Ret (x, (k + w)%nat)
             ∧ (reject x = true ↔ draws_all len v rng k w)) →
  ∀ (n k : nat),
    rejected_rounds n draw reject rng k ↔ draws_all len v rng k (w * n).
Proof.
  intros Hd. induction n as [|n IH]; intros k.
  - rewrite Nat.mul_0_r. split; [intros _ i Hi; lia | done].
  - cbn [rejected_rounds]. rewrite Nat.mul_succ_r.
    destruct (Hd k) as (x & Hx & Hrej). split.
    + intros (y & k' & Hy & Hr & Hrest). rewrite Hx in Hy.
      injection Hy as <- <-. apply Hrej in Hr. apply IH in Hrest.
      intros i Hi. destruct (decide (i < w)%nat) as [Hlt | Hge]; [by apply Hr |].
      replace (k + i)%nat with (k + w + (i - w))%nat by lia. apply Hrest. lia.
    + intros Hall. exists x, (k + w)%nat. split; [done |]. split.
      * apply Hrej. intros i Hi. apply Hall. lia.
      * apply IH. intros i Hi.
        replace (k + w + i)%nat with (k + (w + i))%nat by lia. apply Hall. lia.
Qed.

Lemma is_Ret_false_OutOfFuel {A : Type} (r : result A) :
  is_Raise r = false → is_Ret r = false ↔ r = OutOfFuel.
Proof. by destruct r. Qed.

Lemma ListEnv_sample_OutOfFuel (fuel : nat) (len v : Z) (rng : nat → nat) (k : nat) :
  0 < len →
  is_Ret (sample_until fuel (ListEnv.draw_pointers len)
            (λ p, (fst p =? v) && (snd p =? v)) rng k) = false
  ↔ draws_all len v rng k (2 * fuel).
Proof.
  intros Hlen.
  rewrite is_Ret_false_OutOfFuel by (by apply ListEnv_sample_not_Raise).
  rewrite sample_until_OutOfFuel_iff
    by (intros k0; by rewrite ListEnv_draw_pointers_Ret).
  apply rejected_rounds_draws. intros k0. eexists.
  split; [rewrite ListEnv_draw_pointers_Ret by done; do 2 f_equal; lia |].
  cbn [fst snd]. rewrite andb_true_iff, !Z.eqb_eq. split.
  - intros [H0 H1] i Hi. destruct i as [|[|i]]; [| | lia].
    + by rewrite Nat.add_0_r.
    + by rewrite Nat.add_1_r.
  - intros H. split.
    + specialize (H 0%nat). rewrite Nat.add_0_r in H. apply H. lia.
    + specialize (H 1%nat). rewrite Nat.add_1_r in H. apply H. lia.
Qed.

Lemma QuickSort_sample_OutOfFuel (fuel : nat) (len v : Z) (rng : nat → nat)
  (k : nat) :
  0 < len →
  is_Ret (sample_until fuel (QuickSortListEnv.draw_pointers len)
            (QuickSortListEnv.all_eq v) rng k) = false
  ↔ draws_all len v rng k (3 * fuel).
Proof.
  intros Hlen.
  rewrite is_Ret_false_OutOfFuel by (by apply QuickSort_sample_not_Raise).
  rewrite sample_until_OutOfFuel_iff
    by (intros k0; by rewrite QuickSort_draw_pointers_Ret).
  apply rejected_rounds_draws. intros k0. eexists.
  split; [rewrite QuickSort_draw_pointers_Ret by done; do 2 f_equal; lia |].
  unfold QuickSortListEnv.all_eq. rewrite !andb_true_iff, !Z.eqb_eq. split.
  - intros [[H0 H1] H2] i Hi. destruct i as [|[|[|i]]]; [| | | lia].
    + by rewrite Nat.add_0_r.
    + by rewrite Nat.add_1_r.
    + by replace (k0 + 2)%nat with (S (S k0)) by lia.
  - intros H. repeat split.
    + specialize (H 0%nat). rewrite Nat.add_0_r in H. apply H. lia.
    + specialize (H 1%nat). rewrite Nat.add_1_r in H. apply H. lia.
    + specialize (H 2%nat). replace (k0 + 2)%nat with (S (S k0)) in H by lia.
      apply H. lia.
Qed.

(** The loop of PARTITION and COMPSWAP_PARTITION draws [p2] until it is not
    0; the draw of [p1] below [p2] that follows always returns. *)
Lemma QuickSort_partition_sample_OutOfFuel (fuel : nat) (len : Z)
  (rng : nat → nat) (k : nat) :
  0 < len →
  is_Ret ('(pos2, k) ← sample_until fuel (randint 0 len) (λ pos2, pos2 =? 0) rng k;
          '(pos1, k) ← randint 0 pos2 rng k;
          Ret ((pos1, pos2, pos1), k)) = false
  ↔ draws_all len 0 rng k (1 * fuel).
Proof.
  intros Hlen.
  assert (Hloop : sample_until fuel (randint 0 len) (λ pos2, pos2 =? 0) rng k
                  = OutOfFuel ↔ draws_all len 0 rng k (1 * fuel)).
  { rewrite sample_until_OutOfFuel_iff
      by (intros k0; by rewrite randint_Ret).
    apply rejected_rounds_draws. intros k0. eexists.
    split; [rewrite randint_Ret by done; do 2 f_equal; lia |].
    rewrite Z.eqb_eq, Z.sub_0_r, Z.add_0_l. split.
    - intros H0 i Hi. assert (i = 0%nat) as -> by lia. by rewrite Nat.add_0_r.
    - intros H. specialize (H 0%nat). rewrite Nat.add_0_r in H. apply H. lia. }
  rewrite <- Hloop.
  destruct (sample_until _ _ _ _ _) as [[pos2 k1]|e|] eqn:Hs.
  - apply sample_until_Ret in Hs as (Hne & k0 & Hs).
    apply randint_range in Hs. apply Z.eqb_neq in Hne.
    cbn [mbind result_bind]. rewrite randint_Ret by lia. done.
  - apply sample_until_Raise in Hs as [k0 Hs]. by rewrite randint_Ret in Hs.
  - done.
Qed.

Lemma ListEnv_init_pointers_loop (fuel : nat) (task : string) (len : Z)
  (rng : nat → nat) (k : nat) :
  2 ≤ len → task ∈ bubble_tasks →
  match ListEnv_loop task len with
  | None => is_Ret (ListEnv.init_pointers fuel task len rng k) = true
  | Some (v, w) =>
      is_Ret (ListEnv.init_pointers fuel task len rng k) = false
      ↔ draws_all len v rng k (w * fuel)
  end.
Proof.
  intros Hlen H. unfold bubble_tasks in H.
  repeat (apply elem_of_cons in H as [-> | H]); [.. | by apply elem_of_nil in H];
    unfold ListEnv.init_pointers, ListEnv_loop; eval_task_tests; try done;
    try (apply ListEnv_sample_OutOfFuel; lia).
  rewrite randint_Ret by lia. done.
Qed.

Lemma QuickSort_init_pointers_loop (fuel : nat) (task : string) (len : Z)
  (rng : nat → nat) (k : nat) :
  2 ≤ len → task ∈ quicksort_tasks →
  match QuickSort_loop task len with
  | None => is_Ret (QuickSortListEnv.init_pointers fuel task len rng k) = true
  | Some (v, w) =>
      is_Ret (QuickSortListEnv.init_pointers fuel task len rng k) = false
      ↔ draws_all len v rng k (w * fuel)
  end.
Proof.
  intros Hlen H. unfold quicksort_tasks, bubble_tasks in H. cbn [app] in H.
  repeat (apply elem_of_cons in H as [-> | H]); [.. | by apply elem_of_nil in H];
    unfold QuickSortListEnv.init_pointers, QuickSort_loop; eval_task_tests;
    try done;
    try (apply QuickSort_sample_OutOfFuel; lia);
    try (apply QuickSort_partition_sample_OutOfFuel; lia).
  rewrite randint_Ret by lia. done.
Qed.

(** C8 (as amended). For a construction length of at least 2, in both
    classes: [reset_env] on a task outside the enumerated set raises
    [NotImplementedError] and leaves [has_been_reset] as it was; on a task of
    the enumerated set it succeeds: it never raises, it has marked the
    environment as reset whenever it returns, it returns on every random
    stream when the task draws its pointers without a loop (BUBBLE,
    BUBBLESORT, COMPSWAP, QUICKSORT), and with a rejection loop (RESET,
    LSHIFT, RSHIFT, PARTITION, COMPSWAP_PARTITION) it returns as soon as a
    round is not rejected: it is without a result after [fuel] rounds exactly
    when every draw of these rounds gave the rejected position. *)
Theorem C8_reset_env_supported_tasks
  (task : string) (lself : ListEnv.Env) (qself : QuickSortListEnv.Env) :
  2 ≤ ListEnv.length lself →
  2 ≤ QuickSortListEnv.length qself →
  (task ∉ bubble_tasks →
   reset_unsupported ListEnv.has_been_reset lself
     (λ fuel, ListEnv.reset_env fuel task lself))
  ∧ (task ∈ bubble_tasks →
     reset_succeeds ListEnv.has_been_reset (ListEnv.length lself)
       (ListEnv_loop_start (ListEnv.length lself))
       (ListEnv_loop task (ListEnv.length lself))
       (λ fuel, ListEnv.reset_env fuel task lself))
  ∧ (task ∉ quicksort_tasks →
     reset_unsupported QuickSortListEnv.has_been_reset qself
       (λ fuel, QuickSortListEnv.reset_env fuel task qself))
  ∧ (task ∈ quicksort_tasks →
     reset_succeeds QuickSortListEnv.has_been_reset (QuickSortListEnv.length qself)
       (QuickSort_loop_start (QuickSortListEnv.length qself))
       (QuickSort_loop task (QuickSortListEnv.length qself))
       (λ fuel, QuickSortListEnv.reset_env fuel task qself)).
Proof.
  intros Hl Hq. split; [| split; [| split]].
  - intros Hout fuel rng k. split.
    + destruct (ListEnv_reset_env_outcome fuel task lself rng k) as [-> _].
      by rewrite ListEnv_init_pointers_unsupported.
    + destruct (ListEnv_reset_env_outcome fuel task lself rng k) as [_ ->].
      by rewrite ListEnv_init_pointers_unsupported.
  - intros Hin. split; [| split; [| split]].
    + intros fuel rng k.
      destruct (ListEnv_reset_env_outcome fuel task lself rng k) as [-> _].
      rewrite is_Raise_outcome_of. by apply ListEnv_init_pointers_not_Raise.
    + intros fuel rng k.
      destruct (ListEnv_reset_env_outcome fuel task lself rng k) as [-> ->].
      rewrite is_Ret_outcome_of. by intros ->.
    + destruct (ListEnv_loop task (ListEnv.length lself)) as [[v w]|] eqn:Hloop;
        intros fuel rng k;
        destruct (ListEnv_reset_env_outcome fuel task lself rng k) as [-> _];
        rewrite is_Ret_outcome_of;
        pose proof (ListEnv_init_pointers_loop fuel task (ListEnv.length lself) rng
                      (ListEnv_loop_start (ListEnv.length lself) k) Hl Hin) as H;
        by rewrite Hloop in H.
    + exists (accepted_stream task). intros fuel k.
      destruct (ListEnv_reset_env_outcome (S fuel) task lself (accepted_stream task) k)
        as [-> _].
      rewrite is_Ret_outcome_of. by apply ListEnv_init_pointers_returns.
  - intros Hout fuel rng k. split.
    + destruct (QuickSort_reset_env_outcome fuel task qself rng k Hq) as [-> _].
      by rewrite QuickSort_init_pointers_unsupported.
    + destruct (QuickSort_reset_env_outcome fuel task qself rng k Hq) as [_ ->].
      by rewrite QuickSort_init_pointers_unsupported.
  - intros Hin. split; [| split; [| split]].
    + intros fuel rng k.
      destruct (QuickSort_reset_env_outcome fuel task qself rng k Hq) as [-> _].
      rewrite is_Raise_outcome_of. by apply QuickSort_init_pointers_not_Raise.
    + intros fuel rng k.
      destruct (QuickSort_reset_env_outcome fuel task qself rng k Hq) as [-> ->].
      rewrite is_Ret_outcome_of. by intros ->.
    + destruct (QuickSort_loop task (QuickSortListEnv.length qself)) as [[v w]|]
        eqn:Hloop;
        intros fuel rng k;
        destruct (QuickSort_reset_env_outcome fuel task qself rng k Hq) as [-> _];
        rewrite is_Ret_outcome_of;
        pose proof (QuickSort_init_pointers_loop fuel task
                      (QuickSortListEnv.length qself) rng
                      (QuickSort_loop_start (QuickSortListEnv.length qself) k)
                      Hq Hin) as H;
        by rewrite Hloop in H.
    + exists (accepted_stream task). intros fuel k.
      destruct (QuickSort_reset_env_outcome (S fuel) task qself
                  (accepted_stream task) k Hq) as [-> _].
      rewrite is_Ret_outcome_of. by apply QuickSort_init_pointers_returns.
Qed.

Lemma C8_reset_env_witness :
  let lself := ListEnv.mkEnv 3 [0; 0; 0] 0 0 false in
  let qself := QuickSortListEnv.mkEnv 3 [0; 0; 0] 0 0 0 [] false in
  reset_unsupported ListEnv.has_been_reset lself
    (λ fuel, ListEnv.reset_env fuel "SWAP" lself)
  ∧ reset_succeeds ListEnv.has_been_reset 3 (ListEnv_loop_start 3)
      (ListEnv_loop "RESET" 3) (λ fuel, ListEnv.reset_env fuel "RESET" lself)
  ∧ reset_succeeds ListEnv.has_been_reset 3 (ListEnv_loop_start 3)
      (ListEnv_loop "COMPSWAP" 3) (λ fuel, ListEnv.reset_env fuel "COMPSWAP" lself)
  ∧ reset_unsupported QuickSortListEnv.has_been_reset qself
      (λ fuel, QuickSortListEnv.reset_env fuel "PUSH" qself)
  ∧ reset_succeeds QuickSortListEnv.has_been_reset 3 (QuickSort_loop_start 3)
      (QuickSort_loop "PARTITION" 3)
      (λ fuel, QuickSortListEnv.reset_env fuel "PARTITION" qself)
  ∧ reset_succeeds QuickSortListEnv.has_been_reset 3 (QuickSort_loop_start 3)
      (QuickSort_loop "QUICKSORT" 3)
      (λ fuel, QuickSortListEnv.reset_env fuel "QUICKSORT" qself).
Proof.
  cbn zeta. split; [| split; [| split; [| split; [| split]]]].
  - apply (C8_reset_env_supported_tasks "SWAP"
             (ListEnv.mkEnv 3 [0; 0; 0] 0 0 false)
             (QuickSortListEnv.mkEnv 3 [0; 0; 0] 0 0 0 [] false));
      [simpl; lia | simpl; lia | apply (bool_decide_unpack _); vm_compute; exact I].
  - apply (C8_reset_env_supported_tasks "RESET"
             (ListEnv.mkEnv 3 [0; 0; 0] 0 0 false)
             (QuickSortListEnv.mkEnv 3 [0; 0; 0] 0 0 0 [] false));
      [simpl; lia | simpl; lia | apply (bool_decide_unpack _); vm_compute; exact I].
  - apply (C8_reset_env_supported_tasks "COMPSWAP"
             (ListEnv.mkEnv 3 [0; 0; 0] 0 0 false)
             (QuickSortListEnv.mkEnv 3 [0; 0; 0] 0 0 0 [] false));
      [simpl; lia | simpl; lia | apply (bool_decide_unpack _); vm_compute; exact I].
  - apply (C8_reset_env_supported_tasks "PUSH"
             (ListEnv.mkEnv 3 [0; 0; 0] 0 0 false)
             (QuickSortListEnv.mkEnv 3 [0; 0; 0] 0 0 0 [] false));
      [simpl; lia | simpl; lia | apply (bool_decide_unpack _); vm_compute; exact I].
  - apply (C8_reset_env_supported_tasks "PARTITION"
             (ListEnv.mkEnv 3 [0; 0; 0] 0 0 false)
             (QuickSortListEnv.mkEnv 3 [0; 0; 0] 0 0 0 [] false));
      [simpl; lia | simpl; lia | apply (bool_decide_unpack _); vm_compute; exact I].
  - apply (C8_reset_env_supported_tasks "QUICKSORT"
             (ListEnv.mkEnv 3 [0; 0; 0] 0 0 false)
             (QuickSortListEnv.mkEnv 3 [0; 0; 0] 0 0 0 [] false));
      [simpl; lia | simpl; lia | apply (bool_decide_unpack _); vm_compute; exact I].
Defined.

(** With a list of length 1 the rejection loop of RESET in the bubble-sort
    class rejects every draw: no amount of fuel makes it return. *)
Lemma ListEnv_length_one_reset_never_returns (fuel : nat) (self : ListEnv.Env)
  (rng : nat → nat) (k : nat) :
  ListEnv.length self = 1 →
  snd (ListEnv.reset_env fuel "RESET" self rng k) = OutOfFuel.
Proof.
  intros Hlen.
  destruct (ListEnv_reset_env_outcome fuel "RESET" self rng k) as [-> _].
  rewrite Hlen. unfold ListEnv.init_pointers. eval_task_tests.
  generalize (k + Z.to_nat 1)%nat. clear k.
  induction fuel as [|fuel IH]; intros k; [done |].
  cbn [sample_until]. rewrite ListEnv_draw_pointers_Ret by lia.
  rewrite !Z.mod_1_r. cbn [fst snd Z.eqb andb]. apply IH.
Qed.

(** With a list of length 1 every [reset_env] of the quicksort class raises
    [ValueError], whatever the task: the stack is drawn below [length - 1]. *)
Lemma QuickSort_length_one_reset_raises (fuel : nat) (task : string)
  (self : QuickSortListEnv.Env) (rng : nat → nat) (k : nat) :
  QuickSortListEnv.length self = 1 →
  snd (QuickSortListEnv.reset_env fuel task self rng k) = Raise ValueError.
Proof.
  intros Hlen. unfold QuickSortListEnv.reset_env, randint_size. qs_proj.
  by rewrite Hlen.
Qed.

(** C8, counterexample.  For a list of length 1, which the constructor
    accepts, [reset_env] fails on tasks of the enumerated set (COMPSWAP in
    the bubble-sort class, QUICKSORT in the quicksort class), and on the
    unsupported task STOP the quicksort class raises [ValueError], not the
    unsupported-task error. *)
Lemma C8_length_one_counterexample :
  is_Some (ListEnv.__init__ 1)
  ∧ snd (ListEnv.reset_env 3 "COMPSWAP" (ListEnv.mkEnv 1 [0] 0 0 false) (λ n, n) 0)
    = Raise ValueError
  ∧ snd (QuickSortListEnv.reset_env 3 "QUICKSORT"
           (QuickSortListEnv.mkEnv 1 [0] 0 0 0 [] false) (λ n, n) 0)
    = Raise ValueError
  ∧ snd (QuickSortListEnv.reset_env 3 "STOP"
           (QuickSortListEnv.mkEnv 1 [0] 0 0 0 [] false) (λ n, n) 0)
    = Raise ValueError.
Proof. repeat split. by eexists. Qed.

(** * Further properties of the environments *)

(** ** States: comparison and round trips *)

(** X1. [compare_state] of either class is true exactly on equal states, so
    it is reflexive and symmetric. *)
Theorem X1_compare_state_is_equality
  (s t : ListEnv.State) (qs qt : QuickSortListEnv.State) :
  (ListEnv.compare_state s t = true ↔ s = t)
  ∧ (QuickSortListEnv.compare_state qs qt = true ↔ qs = qt)
  ∧ ListEnv.compare_state s s = true
  ∧ ListEnv.compare_state s t = ListEnv.compare_state t s
  ∧ QuickSortListEnv.compare_state qs qs = true
  ∧ QuickSortListEnv.compare_state qs qt = QuickSortListEnv.compare_state qt qs.
Proof.
  assert (Hl : ∀ s t, ListEnv.compare_state s t = true ↔ s = t).
  { intros [[a p1] p2] [[a' p1'] p2']. unfold ListEnv.compare_state, np.array_equal.
    rewrite !andb_true_iff, bool_decide_eq_true, !Z.eqb_eq.
    split; [intros; f_equal; [f_equal |]; tauto | by intros [= -> -> ->]]. }
  assert (Hq : ∀ s t, QuickSortListEnv.compare_state s t = true ↔ s = t).
  { intros [[[[a p1] p2] p3] st] [[[[a' p1'] p2'] p3'] st'].
    unfold QuickSortListEnv.compare_state, np.array_equal.
    rewrite !andb_true_iff, !bool_decide_eq_true, !Z.eqb_eq.
    split; [intros; repeat f_equal; tauto | by intros [= -> -> -> -> ->]]. }
  assert (Hsym : ∀ (A : Type) (f : A → A → bool),
             (∀ x y, f x y = true ↔ x = y) → ∀ x y, f x y = f y x).
  { intros A f Hf x y. destruct (f x y) eqn:E1, (f y x) eqn:E2; try done.
    - apply Hf in E1 as ->. by rewrite (proj2 (Hf y y) eq_refl) in E2.
    - apply Hf in E2 as ->. by rewrite (proj2 (Hf x x) eq_refl) in E1. }
  repeat split; try apply Hl; try apply Hq; try done; by apply Hsym.
Qed.

(** X2. [reset_to_state(get_state())] leaves the environment as it is, and
    after [reset_to_state(state)] on an environment that has been reset,
    [get_state()] returns [state]. *)
Theorem X2_state_round_trip
  (lself : ListEnv.Env) (qself : QuickSortListEnv.Env)
  (s : ListEnv.State) (qs : QuickSortListEnv.State) :
  (ListEnv.get_state lself = Some s → ListEnv.reset_to_state s lself = lself)
  ∧ (ListEnv.has_been_reset lself = true →
     ListEnv.get_state (ListEnv.reset_to_state s lself) = Some s)
  ∧ (QuickSortListEnv.get_state qself = Some qs →
     QuickSortListEnv.reset_to_state qs qself = qself)
  ∧ (QuickSortListEnv.has_been_reset qself = true →
     QuickSortListEnv.get_state (QuickSortListEnv.reset_to_state qs qself) = Some qs).
Proof.
  destruct lself as [len a p1 p2 r], qself as [qlen qa q1 q2 q3 qst qr].
  destruct s as [[sa sp1] sp2], qs as [[[[qsa qsp1] qsp2] qsp3] qsst].
  unfold ListEnv.get_state, QuickSortListEnv.get_state. cbn.
  repeat split.
  - destruct r; [by intros [= -> -> ->] | done].
  - by intros ->.
  - destruct qr; [by intros [= -> -> -> -> ->] | done].
  - by intros ->.
Qed.

Lemma X2_state_round_trip_witness :
  ListEnv.reset_to_state ([3; 1; 2], 0, 2) (ListEnv.mkEnv 3 [3; 1; 2] 0 2 true)
  = ListEnv.mkEnv 3 [3; 1; 2] 0 2 true
  ∧ ListEnv.get_state
      (ListEnv.reset_to_state ([3; 1; 2], 0, 2) (ListEnv.mkEnv 3 [3; 1; 2] 0 2 true))
    = Some ([3; 1; 2], 0, 2)
  ∧ QuickSortListEnv.reset_to_state ([3; 1; 2], 0, 2, 0, [1; 2; 1])
      (QuickSortListEnv.mkEnv 3 [3; 1; 2] 0 2 0 [1; 2; 1] true)
    = QuickSortListEnv.mkEnv 3 [3; 1; 2] 0 2 0 [1; 2; 1] true
  ∧ QuickSortListEnv.get_state
      (QuickSortListEnv.reset_to_state ([3; 1; 2], 0, 2, 0, [1; 2; 1])
         (QuickSortListEnv.mkEnv 3 [3; 1; 2] 0 2 0 [1; 2; 1] true))
    = Some ([3; 1; 2], 0, 2, 0, [1; 2; 1]).
Proof.
  pose proof (X2_state_round_trip (ListEnv.mkEnv 3 [3; 1; 2] 0 2 true)
                (QuickSortListEnv.mkEnv 3 [3; 1; 2] 0 2 0 [1; 2; 1] true)
                ([3; 1; 2], 0, 2) ([3; 1; 2], 0, 2, 0, [1; 2; 1]))
    as (H1 & H2 & H3 & H4).
  split; [apply H1; reflexivity |].
  split; [apply H2; reflexivity |].
  split; [apply H3; reflexivity | apply H4; reflexivity].
Defined.

(** ** Primitive actions *)

Lemma np_index_lt (n : nat) (p : Z) (i : nat) : np.index n p = Ret i → (i < n)%nat.
Proof.
  unfold np.index.
  destruct ((0 <=? p) && (p <? Z.of_nat n)) eqn:E1.
  - apply andb_true_iff in E1 as [?%Z.leb_le ?%Z.ltb_lt]. intros [= <-]. lia.
  - destruct ((- Z.of_nat n <=? p) && (p <? 0)) eqn:E2; [| done].
    apply andb_true_iff in E2 as [?%Z.leb_le ?%Z.ltb_lt]. intros [= <-]. lia.
Qed.

Lemma exchange_Permutation (a : list Z) (i j : nat) :
  (i < length a)%nat → (j < length a)%nat → exchange a i j ≡ₚ a.
Proof.
  intros Hi Hj. unfold exchange.
  apply Permutation_insert_swap; by apply list_lookup_lookup_total_lt.
Qed.

Lemma exchange_lookup (a : list Z) (i j k : nat) :
  (i < length a)%nat → (j < length a)%nat →
  exchange a i j !! k
  = if decide (k = j) then a !! i else if decide (k = i) then a !! j else a !! k.
Proof.
  intros Hi Hj. unfold exchange.
  rewrite !list_lookup_insert, length_insert.
  repeat case_decide; try lia; subst;
    by rewrite ?list_lookup_lookup_total_lt by lia.
Qed.

Lemma exchange_involutive (a : list Z) (i j : nat) :
  (i < length a)%nat → (j < length a)%nat →
  exchange (exchange a i j) i j = a.
Proof.
  intros Hi Hj. apply list_eq. intros k.
  rewrite exchange_lookup by (by rewrite exchange_length).
  rewrite !exchange_lookup by done.
  repeat case_decide; by subst.
Qed.

(** A swap of two cells inside the array. *)
Lemma np_swap_spec (a : list Z) (p q : Z) :
  0 ≤ p < Z.of_nat (length a) → 0 ≤ q < Z.of_nat (length a) →
  ∃ a', np.swap a p q = Ret a' ∧ cells_exchanged a a' p q
        ∧ np.swap a' p q = Ret a.
Proof.
  intros Hp Hq. exists (exchange a (Z.to_nat p) (Z.to_nat q)).
  assert (Hi : (Z.to_nat p < length a)%nat) by lia.
  assert (Hj : (Z.to_nat q < length a)%nat) by lia.
  split; [| split].
  - by rewrite np_swap_Z by lia.
  - unfold cells_exchanged. split; [by apply exchange_Permutation |].
    rewrite !exchange_lookup by done. repeat split.
    + repeat case_decide; congruence.
    + repeat case_decide; congruence.
    + intros k Hk1 Hk2. rewrite exchange_lookup by done.
      by repeat case_decide.
  - rewrite np_swap_Z by (rewrite exchange_length; lia).
    f_equal. by apply exchange_involutive.
Qed.

(** X3. In a well-formed state, a pointer move taken under its precondition
    is undone by the opposite move: left then right, and right then left,
    restore the environment, for every pointer of both classes. *)
Theorem X3_pointer_moves_are_inverse
  (len : Z) (lself : ListEnv.Env) (qself : QuickSortListEnv.Env) :
  ListEnv_wf len lself → QuickSort_wf len qself →
  (ListEnv._ptr_1_left_precondition lself = true →
   ListEnv._ptr_1_right (ListEnv._ptr_1_left lself) = lself)
  ∧ (ListEnv._ptr_1_right_precondition lself = true →
     ListEnv._ptr_1_left (ListEnv._ptr_1_right lself) = lself)
  ∧ (ListEnv._ptr_2_left_precondition lself = true →
     ListEnv._ptr_2_right (ListEnv._ptr_2_left lself) = lself)
  ∧ (ListEnv._ptr_2_right_precondition lself = true →
     ListEnv._ptr_2_left (ListEnv._ptr_2_right lself) = lself)
  ∧ (QuickSortListEnv._ptr_1_left_precondition qself = true →
     QuickSortListEnv._ptr_1_right (QuickSortListEnv._ptr_1_left qself) = qself)
  ∧ (QuickSortListEnv._ptr_1_right_precondition qself = true →
     QuickSortListEnv._ptr_1_left (QuickSortListEnv._ptr_1_right qself) = qself)
  ∧ (QuickSortListEnv._ptr_2_left_precondition qself = true →
     QuickSortListEnv._ptr_2_right (QuickSortListEnv._ptr_2_left qself) = qself)
  ∧ (QuickSortListEnv._ptr_2_right_precondition qself = true →
     QuickSortListEnv._ptr_2_left (QuickSortListEnv._ptr_2_right qself) = qself)
  ∧ (QuickSortListEnv._ptr_3_left_precondition qself = true →
     QuickSortListEnv._ptr_3_right (QuickSortListEnv._ptr_3_left qself) = qself)
  ∧ (QuickSortListEnv._ptr_3_right_precondition qself = true →
     QuickSortListEnv._ptr_3_left (QuickSortListEnv._ptr_3_right qself) = qself).
Proof.
  intros (Hl & _ & Hp1 & Hp2) (Hql & _ & Hq1 & Hq2 & Hq3 & _).
  destruct lself as [llen a p1 p2 r], qself as [qlen qa q1 q2 q3 qst qr].
  cbn in Hl, Hp1, Hp2, Hql, Hq1, Hq2, Hq3. subst llen qlen.
  unfold ListEnv._ptr_1_left_precondition, ListEnv._ptr_1_right_precondition,
    ListEnv._ptr_2_left_precondition, ListEnv._ptr_2_right_precondition,
    QuickSortListEnv._ptr_1_left_precondition,
    QuickSortListEnv._ptr_1_right_precondition,
    QuickSortListEnv._ptr_2_left_precondition,
    QuickSortListEnv._ptr_2_right_precondition,
    QuickSortListEnv._ptr_3_left_precondition,
    QuickSortListEnv._ptr_3_right_precondition,
    ListEnv._ptr_1_left, ListEnv._ptr_1_right, ListEnv._ptr_2_left,
    ListEnv._ptr_2_right, QuickSortListEnv._ptr_1_left,
    QuickSortListEnv._ptr_1_right, QuickSortListEnv._ptr_2_left,
    QuickSortListEnv._ptr_2_right, QuickSortListEnv._ptr_3_left,
    QuickSortListEnv._ptr_3_right, QuickSortListEnv.with_pointers.
  cbn [ListEnv.p1_pos ListEnv.p2_pos ListEnv.length ListEnv.scratchpad_ints
       ListEnv.has_been_reset]. qs_proj.
  repeat split; intros E; rewrite E; apply Z.ltb_lt in E;
    cbn [ListEnv.p1_pos ListEnv.p2_pos ListEnv.length ListEnv.scratchpad_ints
         ListEnv.has_been_reset]; qs_proj.
  all: match goal with
       | |- (if ?b then _ else _) = _ =>
           replace b with true by (symmetry; apply Z.ltb_lt; lia)
       end.
  all: f_equal; lia.
Qed.

Lemma X3_pointer_moves_witness :
  ListEnv._ptr_1_right
    (ListEnv._ptr_1_left (ListEnv.mkEnv 3 [3; 1; 2] 2 0 true))
  = ListEnv.mkEnv 3 [3; 1; 2] 2 0 true
  ∧ QuickSortListEnv._ptr_3_left
      (QuickSortListEnv._ptr_3_right
         (QuickSortListEnv.mkEnv 3 [3; 1; 2] 0 2 1 [] true))
    = QuickSortListEnv.mkEnv 3 [3; 1; 2] 0 2 1 [] true.
Proof.
  assert (Hl : ListEnv_wf 3 (ListEnv.mkEnv 3 [3; 1; 2] 2 0 true))
    by (unfold ListEnv_wf; simpl; lia).
  assert (Hq : QuickSort_wf 3 (QuickSortListEnv.mkEnv 3 [3; 1; 2] 0 2 1 [] true))
    by (unfold QuickSort_wf; simpl; lia).
  split.
  - apply (X3_pointer_moves_are_inverse 3 _ _ Hl Hq). reflexivity.
  - apply (X3_pointer_moves_are_inverse 3 _ _ Hl Hq). reflexivity.
Defined.

(** X4. In a well-formed state every swap primitive returns; it exchanges the
    two cells under its pointers and keeps the others, so the scratchpad is
    permuted; the pointers, the stack and the flags stay; and the same swap
    applied again restores the environment. *)
Theorem X4_swap_exchanges_cells
  (len : Z) (lself : ListEnv.Env) (qself : QuickSortListEnv.Env) :
  ListEnv_wf len lself → QuickSort_wf len qself →
  (∃ self', ListEnv._swap lself = Ret self'
            ∧ cells_exchanged (ListEnv.scratchpad_ints lself)
                (ListEnv.scratchpad_ints self')
                (ListEnv.p1_pos lself) (ListEnv.p2_pos lself)
            ∧ ListEnv.reset_to_state
                (ListEnv.scratchpad_ints self', ListEnv.p1_pos lself,
                 ListEnv.p2_pos lself) lself = self'
            ∧ ListEnv._swap self' = Ret lself)
  ∧ (∃ self', QuickSortListEnv._swap qself = Ret self'
              ∧ cells_exchanged (QuickSortListEnv.scratchpad_ints qself)
                  (QuickSortListEnv.scratchpad_ints self')
                  (QuickSortListEnv.p1_pos qself) (QuickSortListEnv.p2_pos qself)
              ∧ QuickSortListEnv.with_scratchpad qself
                  (QuickSortListEnv.scratchpad_ints self') = self'
              ∧ QuickSortListEnv._swap self' = Ret qself)
  ∧ (∃ self', QuickSortListEnv._swap_2 qself = Ret self'
              ∧ cells_exchanged (QuickSortListEnv.scratchpad_ints qself)
                  (QuickSortListEnv.scratchpad_ints self')
                  (QuickSortListEnv.p2_pos qself) (QuickSortListEnv.p3_pos qself)
              ∧ QuickSortListEnv.with_scratchpad qself
                  (QuickSortListEnv.scratchpad_ints self') = self'
              ∧ QuickSortListEnv._swap_2 self' = Ret qself)
  ∧ (∃ self', QuickSortListEnv._swap_3 qself = Ret self'
              ∧ cells_exchanged (QuickSortListEnv.scratchpad_ints qself)
                  (QuickSortListEnv.scratchpad_ints self')
                  (QuickSortListEnv.p3_pos qself) (QuickSortListEnv.p1_pos qself)
              ∧ QuickSortListEnv.with_scratchpad qself
                  (QuickSortListEnv.scratchpad_ints self') = self'
              ∧ QuickSortListEnv._swap_3 self' = Ret qself).
Proof.
  intros (Hl & Ha & Hp1 & Hp2) (Hql & Hqa & Hq1 & Hq2 & Hq3 & _).
  destruct lself as [llen a p1 p2 r], qself as [qlen qa q1 q2 q3 qst qr].
  cbn in Hl, Ha, Hp1, Hp2, Hql, Hqa, Hq1, Hq2, Hq3. subst llen qlen.
  unfold ListEnv._swap, QuickSortListEnv._swap, QuickSortListEnv._swap_2,
    QuickSortListEnv._swap_3, QuickSortListEnv.with_scratchpad.
  cbn [ListEnv.p1_pos ListEnv.p2_pos ListEnv.length ListEnv.scratchpad_ints
       ListEnv.has_been_reset ListEnv.reset_to_state]. qs_proj.
  split; [| split; [| split]].
  - destruct (np_swap_spec a p1 p2) as (a' & -> & Hex & Hback); [lia | lia |].
    exists (ListEnv.mkEnv len a' p1 p2 r).
    cbn [mbind result_bind ListEnv.p1_pos ListEnv.p2_pos ListEnv.length
         ListEnv.scratchpad_ints ListEnv.has_been_reset].
    by rewrite Hback.
  - destruct (np_swap_spec qa q1 q2) as (a' & -> & Hex & Hback); [lia | lia |].
    exists (QuickSortListEnv.mkEnv len a' q1 q2 q3 qst qr).
    cbn [mbind result_bind]. qs_proj. by rewrite Hback.
  - destruct (np_swap_spec qa q2 q3) as (a' & -> & Hex & Hback); [lia | lia |].
    exists (QuickSortListEnv.mkEnv len a' q1 q2 q3 qst qr).
    cbn [mbind result_bind]. qs_proj. by rewrite Hback.
  - destruct (np_swap_spec qa q3 q1) as (a' & -> & Hex & Hback); [lia | lia |].
    exists (QuickSortListEnv.mkEnv len a' q1 q2 q3 qst qr).
    cbn [mbind result_bind]. qs_proj. by rewrite Hback.
Qed.

Lemma X4_swap_witness :
  ∃ self', ListEnv._swap (ListEnv.mkEnv 3 [3; 1; 2] 0 2 true) = Ret self'
           ∧ cells_exchanged [3; 1; 2] (ListEnv.scratchpad_ints self') 0 2
           ∧ ListEnv.reset_to_state (ListEnv.scratchpad_ints self', 0, 2)
               (ListEnv.mkEnv 3 [3; 1; 2] 0 2 true) = self'
           ∧ ListEnv._swap self' = Ret (ListEnv.mkEnv 3 [3; 1; 2] 0 2 true).
Proof.
  apply (X4_swap_exchanges_cells 3 (ListEnv.mkEnv 3 [3; 1; 2] 0 2 true)
           (QuickSortListEnv.mkEnv 3 [3; 1; 2] 0 2 1 [] true)).
  - unfold ListEnv_wf; simpl; lia.
  - unfold QuickSort_wf; simpl; lia.
Defined.

(** ** Composite programs of the bubble-sort hierarchy *)

Lemma ListEnv_compare_state_eq (s t : ListEnv.State) :
  ListEnv.compare_state s t = true ↔ s = t.
Proof.
  destruct s as [[a p1] p2], t as [[a' p1'] p2'].
  unfold ListEnv.compare_state, np.array_equal.
  rewrite !andb_true_iff, bool_decide_eq_true, !Z.eqb_eq.
  split; [intros; f_equal; [f_equal |]; tauto | by intros [= -> -> ->]].
Qed.

(** X5. The shift postconditions accept the pointer moves they stand for:
    from any state that has been reset, moving every pointer left (each move
    a no-op at the boundary) gives a state that the LSHIFT postcondition
    accepts, and moving every pointer right one that the RSHIFT postcondition
    accepts, in both classes. *)
Theorem X5_shift_postconditions_accept_pointer_moves
  (lself : ListEnv.Env) (qself : QuickSortListEnv.Env)
  (s : ListEnv.State) (qs : QuickSortListEnv.State) :
  ListEnv.get_state lself = Some s →
  QuickSortListEnv.get_state qself = Some qs →
  (∃ t, ListEnv.get_state (ListEnv._ptr_2_left (ListEnv._ptr_1_left lself)) = Some t
        ∧ ListEnv._lshift_postcondition lself s t = true)
  ∧ (∃ t, ListEnv.get_state (ListEnv._ptr_2_right (ListEnv._ptr_1_right lself))
          = Some t
          ∧ ListEnv._rshift_postcondition lself s t = true)
  ∧ (∃ t, QuickSortListEnv.get_state
            (QuickSortListEnv._ptr_3_left
               (QuickSortListEnv._ptr_2_left (QuickSortListEnv._ptr_1_left qself)))
          = Some t
          ∧ QuickSortListEnv._lshift_postcondition qself qs t = true)
  ∧ (∃ t, QuickSortListEnv.get_state
            (QuickSortListEnv._ptr_3_right
               (QuickSortListEnv._ptr_2_right (QuickSortListEnv._ptr_1_right qself)))
          = Some t
          ∧ QuickSortListEnv._rshift_postcondition qself qs t = true).
Proof.
  destruct lself as [len a p1 p2 r], qself as [qlen qa q1 q2 q3 qst qr].
  unfold ListEnv.get_state, QuickSortListEnv.get_state. le_proj. qs_proj.
  destruct r; [| done]. destruct qr; [| done].
  intros [= <-] [= <-]. split; [| split; [| split]].
  - exists (a, if 0 <? p1 then p1 - 1 else p1, if 0 <? p2 then p2 - 1 else p2).
    split; [| by apply ListEnv_lshift_postcondition_iff].
    unfold ListEnv._ptr_1_left, ListEnv._ptr_2_left. le_proj.
    by destruct (0 <? p1); le_proj; destruct (0 <? p2).
  - exists (a, if p1 <? len - 1 then p1 + 1 else p1,
            if p2 <? len - 1 then p2 + 1 else p2).
    split; [| by apply ListEnv_rshift_postcondition_iff].
    unfold ListEnv._ptr_1_right, ListEnv._ptr_2_right. le_proj.
    by destruct (p1 <? len - 1); le_proj; destruct (p2 <? len - 1).
  - exists (qa, if 0 <? q1 then q1 - 1 else q1, if 0 <? q2 then q2 - 1 else q2,
            if 0 <? q3 then q3 - 1 else q3, qst).
    split; [| by apply QuickSort_lshift_postcondition_iff].
    unfold QuickSortListEnv._ptr_1_left, QuickSortListEnv._ptr_2_left,
      QuickSortListEnv._ptr_3_left. qs_proj.
    by destruct (0 <? q1); qs_proj; destruct (0 <? q2); qs_proj;
      destruct (0 <? q3).
  - exists (qa, if q1 <? qlen - 1 then q1 + 1 else q1,
            if q2 <? qlen - 1 then q2 + 1 else q2,
            if q3 <? qlen - 1 then q3 + 1 else q3, qst).
    split; [| by apply QuickSort_rshift_postcondition_iff].
    unfold QuickSortListEnv._ptr_1_right, QuickSortListEnv._ptr_2_right,
      QuickSortListEnv._ptr_3_right. qs_proj.
    by destruct (q1 <? qlen - 1); qs_proj; destruct (q2 <? qlen - 1); qs_proj;
      destruct (q3 <? qlen - 1).
Qed.

Lemma X5_shift_witness :
  ∃ t, ListEnv.get_state
         (ListEnv._ptr_2_right
            (ListEnv._ptr_1_right (ListEnv.mkEnv 5 [3; 1; 4; 1; 5] 4 2 true)))
       = Some t
       ∧ ListEnv._rshift_postcondition (ListEnv.mkEnv 5 [3; 1; 4; 1; 5] 4 2 true)
           ([3; 1; 4; 1; 5], 4, 2) t = true.
Proof.
  apply (X5_shift_postconditions_accept_pointer_moves
           (ListEnv.mkEnv 5 [3; 1; 4; 1; 5] 4 2 true)
           (QuickSortListEnv.mkEnv 3 [3; 1; 2] 0 2 1 [] true)
           ([3; 1; 4; 1; 5], 4, 2) ([3; 1; 2], 0, 2, 1, [])); reflexivity.
Defined.

Lemma lshift_chain_state (self : ListEnv.Env) (n : nat)
  (a : list Z) (p1 p2 : Z) (t : ListEnv.State) :
  accepted_chain (λ s t, Ret (ListEnv._lshift_postcondition self s t)) n (a, p1, p2) t →
  0 ≤ p1 → 0 ≤ p2 →
  t = (a, Z.max 0 (p1 - Z.of_nat n), Z.max 0 (p2 - Z.of_nat n)).
Proof.
  intros Hchain Hp1 Hp2.
  remember (a, p1, p2) as s eqn:Hs.
  induction Hchain as [s | n s t u _ IH Hpost]; subst s.
  - f_equal; [f_equal |]; lia.
  - assert (Hdec : ∀ p : Z, 0 ≤ p →
              (if 0 <? 0 `max` (p - Z.of_nat n)
               then 0 `max` (p - Z.of_nat n) - 1 else 0 `max` (p - Z.of_nat n))
              = 0 `max` (p - Z.of_nat (S n))).
    { clear. intros p Hp.
      destruct (0 <? 0 `max` (p - Z.of_nat n)) eqn:E;
        [apply Z.ltb_lt in E | apply Z.ltb_ge in E]; lia. }
    specialize (IH eq_refl). subst t. destruct u as [[ua up1] up2].
    destruct (proj1 (ListEnv_lshift_postcondition_iff self a
                       (0 `max` (p1 - Z.of_nat n)) (0 `max` (p2 - Z.of_nat n))
                       ua up1 up2)) as (-> & -> & ->); [by injection Hpost |].
    by rewrite !Hdec by done.
Qed.

(** X6. In the bubble-sort class, RESET is what enough LSHIFTs give: a chain
    of [n] transitions, each accepted by the LSHIFT postcondition, that starts
    from a snapshot with both pointers in [[0, n]] ends in a state that the
    RESET postcondition accepts for that snapshot. *)
Theorem X6_lshift_chain_reaches_reset
  (self : ListEnv.Env) (n : nat) (a : list Z) (p1 p2 : Z) (t : ListEnv.State) :
  accepted_chain (λ s t, Ret (ListEnv._lshift_postcondition self s t)) n (a, p1, p2) t →
  0 ≤ p1 ≤ Z.of_nat n → 0 ≤ p2 ≤ Z.of_nat n →
  ListEnv._reset_postcondition self (a, p1, p2) t = true.
Proof.
  intros Hchain Hp1 Hp2.
  rewrite (lshift_chain_state _ _ _ _ _ _ Hchain) by lia.
  unfold ListEnv._reset_postcondition, np.array_equal.
  rewrite bool_decide_eq_true_2 by done.
  replace (Z.max 0 (p1 - Z.of_nat n)) with 0 by lia.
  by replace (Z.max 0 (p2 - Z.of_nat n)) with 0 by lia.
Qed.

Lemma X6_lshift_chain_witness :
  ListEnv._reset_postcondition (ListEnv.mkEnv 3 [3; 1; 2] 2 1 true)
    ([3; 1; 2], 2, 1) ([3; 1; 2], 0, 0) = true.
Proof.
  apply (X6_lshift_chain_reaches_reset (ListEnv.mkEnv 3 [3; 1; 2] 2 1 true) 2
           [3; 1; 2] 2 1 ([3; 1; 2], 0, 0)); [| simpl; lia | simpl; lia].
  apply (chain_snoc _ 1 _ ([3; 1; 2], 1, 0)); [| reflexivity].
  apply (chain_snoc _ 0 _ ([3; 1; 2], 2, 1)); [| reflexivity].
  apply chain_nil.
Defined.

(** X7. In the bubble-sort class, for a snapshot of the environment's length
    that satisfies the COMPSWAP precondition, the COMPSWAP postcondition
    returns, and it returns true exactly when the resulting state has
    [p1] unchanged, [p2 = p1 + 1], and the scratchpad of the snapshot with
    the cells [p1] and [p1 + 1] exchanged if they were out of order. *)
Theorem X7_compswap_postcondition
  (self : ListEnv.Env) (a : list Z) (p1 p2 : Z) (t : ListEnv.State) :
  Z.of_nat (length a) = ListEnv.length self →
  0 ≤ p1 →
  ListEnv._compswap_precondition (ListEnv.reset_to_state (a, p1, p2) self) = true →
  ∃ b : bool,
    ListEnv._compswap_postcondition self (a, p1, p2) t = Ret b
    ∧ (b = true ↔
       t = (if a !!! Z.to_nat (p1 + 1) <? a !!! Z.to_nat p1
            then exchange a (Z.to_nat p1) (Z.to_nat (p1 + 1)) else a,
            p1, p1 + 1)).
Proof.
  intros Hlen Hp1 Hpre.
  unfold ListEnv._compswap_precondition, ListEnv.reset_to_state in Hpre.
  le_proj.
  apply andb_true_iff in Hpre as [Hlt%Z.ltb_lt Hp2].
  unfold ListEnv._compswap_postcondition.
  assert (Hp2' : (if (p1 =? p2) && (p2 <? ListEnv.length self - 1)
                  then p2 + 1 else p2) = p1 + 1).
  { apply orb_true_iff in Hp2 as [->%Z.eqb_eq | ->%Z.eqb_eq].
    - rewrite Z.eqb_refl. cbn [andb].
      by replace (p1 <? ListEnv.length self - 1) with true
        by (symmetry; by apply Z.ltb_lt).
    - by replace (p1 =? p1 + 1) with false by (symmetry; apply Z.eqb_neq; lia). }
  rewrite Hp2'. rewrite Z.min_l, Z.max_r by lia.
  rewrite !np_getitem_Z by lia. cbn [mbind result_bind].
  destruct (a !!! Z.to_nat (p1 + 1) <? a !!! Z.to_nat p1).
  - rewrite np_swap_Z by lia. cbn [mbind result_bind]. eexists. split; [done |].
    apply ListEnv_compare_state_eq.
  - cbn [mbind result_bind]. eexists. split; [done |].
    apply ListEnv_compare_state_eq.
Qed.

Lemma X7_compswap_witness :
  ∃ b : bool,
    ListEnv._compswap_postcondition (ListEnv.mkEnv 3 [3; 1; 2] 0 0 true)
      ([3; 1; 2], 0, 0) ([1; 3; 2], 0, 1) = Ret b
    ∧ (b = true ↔
       ([1; 3; 2], 0, 1)
       = (if [3; 1; 2] !!! Z.to_nat (0 + 1) <? [3; 1; 2] !!! Z.to_nat 0
          then exchange [3; 1; 2] (Z.to_nat 0) (Z.to_nat (0 + 1)) else [3; 1; 2],
          0, 0 + 1)).
Proof.
  apply (X7_compswap_postcondition (ListEnv.mkEnv 3 [3; 1; 2] 0 0 true)
           [3; 1; 2] 0 0 ([1; 3; 2], 0, 1)); [reflexivity | lia | reflexivity].
Defined.

(** ** BUBBLE passes sort the list *)

Lemma bubble_from_sorted (suf : list Z) :
  ∀ x, Sorted Z.le (x :: suf) → bubble_from x suf = x :: suf.
Proof.
  induction suf as [|y suf IH]; intros x Hs; [done |].
  apply Sorted_inv in Hs as [Hs Hh]. apply HdRel_inv in Hh.
  cbn [bubble_from].
  replace (y <? x) with false by (symmetry; apply Z.ltb_ge; lia).
  by rewrite IH.
Qed.

(** A pass carries the maximum to the last cell and permutes the others. *)
Lemma bubble_from_snoc (rest : list Z) :
  ∀ x, ∃ init m,
    bubble_from x rest = init ++ [m]
    ∧ Forall (λ v, v ≤ m) (x :: rest)
    ∧ init ++ [m] ≡ₚ x :: rest.
Proof.
  induction rest as [|y rest IH]; intros x.
  - exists [], x. repeat split; [by repeat constructor | done].
  - cbn [bubble_from]. destruct (y <? x) eqn:E.
    + apply Z.ltb_lt in E. destruct (IH x) as (init & m & -> & Hmax & Hperm).
      exists (y :: init), m. split; [done |].
      apply Forall_cons in Hmax as [Hx Hrest]. split.
      * repeat constructor; [done | lia | done].
      * cbn [app]. rewrite Hperm. apply perm_swap.
    + apply Z.ltb_ge in E. destruct (IH y) as (init & m & -> & Hmax & Hperm).
      exists (x :: init), m. split; [done |].
      apply Forall_cons in Hmax as [Hy Hrest]. split.
      * repeat constructor; [lia | done | done].
      * cbn [app]. by rewrite Hperm.
Qed.

Lemma bubble_from_app_sorted (rest suf : list Z) :
  ∀ x,
    Forall (λ y, Forall (λ v, v ≤ y) (x :: rest)) suf →
    Sorted Z.le suf →
    bubble_from x (rest ++ suf) = bubble_from x rest ++ suf.
Proof.
  induction rest as [|y rest IH]; intros x Hcross Hs.
  - cbn [app bubble_from]. apply bubble_from_sorted.
    constructor; [done |]. destruct suf as [|z suf]; constructor.
    apply Forall_cons in Hcross as [Hz _]. by apply Forall_cons in Hz as [? _].
  - cbn [app bubble_from]. destruct (y <? x).
    + rewrite IH; [done | | done].
      eapply Forall_impl; [exact Hcross |]. intros z Hz. cbn beta in Hz.
      apply Forall_cons in Hz as [? Hz]. apply Forall_cons in Hz as [? Hz].
      by constructor.
    + rewrite IH; [done | | done].
      eapply Forall_impl; [exact Hcross |]. intros z Hz. cbn beta in Hz.
      by apply Forall_cons in Hz as [? Hz].
Qed.

Lemma sorted_suffix_pass (k : nat) (a : list Z) :
  sorted_suffix k a → sorted_suffix (pred k) (bubble_pass a).
Proof.
  intros (pre & suf & -> & Hs & Hcross & Hlen).
  destruct pre as [|x rest].
  - exists [], suf. cbn [app]. split; [| repeat split; [done | | cbn; lia]].
    + destruct suf as [|y suf]; [done |]. cbn [bubble_pass].
      apply bubble_from_sorted. by apply StronglySorted_Sorted.
    + apply Forall_forall. by intros.
  - cbn [app bubble_pass].
    rewrite bubble_from_app_sorted by (done || by apply StronglySorted_Sorted).
    destruct (bubble_from_snoc rest x) as (init & m & -> & Hmax & Hperm).
    assert (Hin : m ∈ x :: rest).
    { rewrite <- Hperm. apply elem_of_app. right. by apply list_elem_of_singleton. }
    assert (Hsub : ∀ v, v ∈ init → v ∈ x :: rest).
    { intros v Hv. rewrite <- Hperm. apply elem_of_app. by left. }
    exists init, (m :: suf). rewrite <- app_assoc. split; [done |].
    rewrite Forall_forall in Hmax. rewrite Forall_forall in Hcross.
    repeat split.
    + constructor; [done |]. apply Forall_forall. intros y Hy.
      specialize (Hcross y Hy). rewrite Forall_forall in Hcross. by apply Hcross.
    + apply Forall_cons. split.
      * apply Forall_forall. intros v Hv. by apply Hmax, Hsub.
      * apply Forall_forall. intros y Hy. apply Forall_forall. intros v Hv.
        specialize (Hcross y Hy). rewrite Forall_forall in Hcross.
        by apply Hcross, Hsub.
    + apply Permutation_length in Hperm. rewrite length_app in Hperm.
      cbn [length] in Hperm, Hlen. lia.
Qed.

Lemma sorted_suffix_iter (n k : nat) (a : list Z) :
  sorted_suffix k a → sorted_suffix (k - n) (Nat.iter n bubble_pass a).
Proof.
  revert k. induction n as [|n IH]; intros k H.
  - by rewrite Nat.sub_0_r.
  - rewrite Nat.iter_succ. replace (k - S n)%nat with (pred (k - n)) by lia.
    by apply sorted_suffix_pass, IH.
Qed.

Lemma sorted_suffix_sorted (k : nat) (a : list Z) :
  (k ≤ 1)%nat → sorted_suffix k a → StronglySorted Z.le a.
Proof.
  intros Hk (pre & suf & -> & Hs & Hcross & Hlen).
  destruct pre as [|x [|y pre]]; [done | | cbn in Hlen; lia].
  cbn [app]. constructor; [done |].
  eapply Forall_impl; [exact Hcross |]. intros y Hy. cbn beta in Hy.
  by apply Forall_cons in Hy as [? _].
Qed.

(** Enough passes sort any list. *)
Lemma bubble_passes_sort (n : nat) (a : list Z) :
  (length a - 1 ≤ n)%nat → StronglySorted Z.le (Nat.iter n bubble_pass a).
Proof.
  intros Hn. apply (sorted_suffix_sorted (length a - n)); [lia |].
  apply sorted_suffix_iter. exists a, []. rewrite app_nil_r.
  repeat split; [constructor | constructor | done].
Qed.

Lemma bubble_iter_length (n : nat) (a : list Z) :
  length (Nat.iter n bubble_pass a) = length a.
Proof.
  induction n as [|n IH]; [done |].
  by rewrite Nat.iter_succ, bubble_pass_length.
Qed.

Lemma bubble_accepted (self : ListEnv.Env) (a : list Z) (p1 p2 : Z)
  (t : ListEnv.State) :
  Z.of_nat (length a) = ListEnv.length self →
  ListEnv._bubble_postcondition self (a, p1, p2) t = Ret true →
  t = (bubble_pass a, ListEnv.length self - 1, ListEnv.length self - 1).
Proof.
  intros Hlen. unfold ListEnv._bubble_postcondition.
  rewrite <- Hlen, bubble_loop_pass. cbn [mbind result_bind].
  intros [= H]. by apply ListEnv_compare_state_eq in H.
Qed.

Lemma bubble_chain_state (self : ListEnv.Env) (n : nat) (a : list Z) (p1 p2 : Z)
  (t : ListEnv.State) :
  Z.of_nat (length a) = ListEnv.length self →
  accepted_chain (ListEnv._bubble_postcondition self) n (a, p1, p2) t →
  fst (fst t) = Nat.iter n bubble_pass a.
Proof.
  intros Hlen Hchain. remember (a, p1, p2) as s eqn:Hs.
  induction Hchain as [s | n s t u _ IH Hpost]; subst s; [done |].
  specialize (IH eq_refl). destruct t as [[ta tp1] tp2]. cbn [fst] in IH. subst ta.
  apply bubble_accepted in Hpost as ->; [by rewrite Nat.iter_succ |].
  by rewrite bubble_iter_length.
Qed.

(** X8. The hierarchy of the bubble-sort class is sound at its top: after
    [n >= L - 1] transitions, each accepted by the BUBBLE postcondition,
    starting from a snapshot of length [L], the BUBBLESORT postcondition
    accepts the state reached, whatever snapshot it is given. *)
Theorem X8_bubble_chain_satisfies_bubblesort
  (self : ListEnv.Env) (n : nat) (a : list Z) (p1 p2 : Z)
  (t s' : ListEnv.State) :
  Z.of_nat (length a) = ListEnv.length self →
  (length a - 1 ≤ n)%nat →
  accepted_chain (ListEnv._bubble_postcondition self) n (a, p1, p2) t →
  ListEnv._bubblesort_postcondition self s' t = Ret true.
Proof.
  intros Hlen Hn Hchain.
  pose proof (bubble_chain_state _ _ _ _ _ _ Hlen Hchain) as Ht.
  destruct t as [[ta tp1] tp2]. cbn [fst] in Ht. subst ta.
  unfold ListEnv._bubblesort_postcondition.
  rewrite <- Hlen, <- (bubble_iter_length n a).
  destruct (sorted_postcondition_value (Nat.iter n bubble_pass a))
    as (b & -> & Hb).
  f_equal. apply Hb. apply non_decreasing_StronglySorted.
  by apply bubble_passes_sort.
Qed.

Lemma X8_bubble_chain_witness :
  ListEnv._bubblesort_postcondition (ListEnv.mkEnv 3 [3; 2; 1] 0 0 true)
    ([3; 2; 1], 0, 0) ([1; 2; 3], 2, 2) = Ret true.
Proof.
  apply (X8_bubble_chain_satisfies_bubblesort
           (ListEnv.mkEnv 3 [3; 2; 1] 0 0 true) 2 [3; 2; 1] 0 0);
    [reflexivity | simpl; lia |].
  apply (chain_snoc _ 1 _ ([2; 1; 3], 2, 2)); [| reflexivity].
  apply (chain_snoc _ 0 _ ([3; 2; 1], 0, 0)); [| reflexivity].
  apply chain_nil.
Defined.

(** X9. A transition accepted by the BUBBLE postcondition permutes the
    scratchpad and leaves its maximum in the last cell. *)
Theorem X9_bubble_moves_maximum_last
  (self : ListEnv.Env) (a : list Z) (p1 p2 : Z) (a' : list Z) (p1' p2' : Z) :
  Z.of_nat (length a) = ListEnv.length self →
  ListEnv._bubble_postcondition self (a, p1, p2) (a', p1', p2') = Ret true →
  a' ≡ₚ a ∧ ∀ m, last a' = Some m → Forall (λ v, v ≤ m) a.
Proof.
  intros Hlen Hpost. apply bubble_accepted in Hpost; [| done].
  injection Hpost as -> _ _. destruct a as [|x rest]; [done |].
  cbn [bubble_pass]. destruct (bubble_from_snoc rest x) as (init & m & -> & Hmax & Hperm).
  split; [done |]. intros m'. rewrite last_snoc. by intros [= <-].
Qed.

Lemma X9_bubble_witness :
  [1; 2; 0; 3] ≡ₚ [3; 1; 2; 0]
  ∧ ∀ m, last [1; 2; 0; 3] = Some m → Forall (λ v, v ≤ m) [3; 1; 2; 0].
Proof.
  apply (X9_bubble_moves_maximum_last (ListEnv.mkEnv 4 [3; 1; 2; 0] 0 0 true)
           [3; 1; 2; 0] 0 1 [1; 2; 0; 3] 3 3); reflexivity.
Defined.

(** ** The task sampler draws legal, unsolved tasks *)

Lemma ListEnv_sample_Ret (fuel : nat) (len : Z) (reject : Z * Z → bool)
  (rng : nat → nat) (k : nat) (p1 p2 : Z) (k' : nat) :
  0 < len →
  sample_until fuel (ListEnv.draw_pointers len) reject rng k = Ret ((p1, p2), k') →
  reject (p1, p2) = false ∧ 0 ≤ p1 < len ∧ 0 ≤ p2 < len.
Proof.
  intros Hlen H. apply sample_until_Ret in H as (Hr & k0 & H).
  rewrite ListEnv_draw_pointers_Ret in H by done. injection H as <- <- _.
  split; [done |]. split; by apply Z.mod_pos_bound.
Qed.

Lemma QuickSort_sample_Ret (fuel : nat) (len : Z) (reject : Z * Z * Z → bool)
  (rng : nat → nat) (k : nat) (p1 p2 p3 : Z) (k' : nat) :
  0 < len →
  sample_until fuel (QuickSortListEnv.draw_pointers len) reject rng k
  = Ret ((p1, p2, p3), k') →
  reject (p1, p2, p3) = false ∧ 0 ≤ p1 < len ∧ 0 ≤ p2 < len ∧ 0 ≤ p3 < len.
Proof.
  intros Hlen H. apply sample_until_Ret in H as (Hr & k0 & H).
  rewrite QuickSort_draw_pointers_Ret in H by done. injection H as <- <- <- _.
  split; [done |]. repeat split; by apply Z.mod_pos_bound.
Qed.

(** X10. In the bubble-sort class the sampler draws legal tasks: when
    [reset_env] returns for a task that has an entry in the table of
    preconditions, that precondition holds in the state drawn. *)
Theorem X10_listenv_reset_satisfies_precondition
  (hierarchy : bool) (fuel : nat) (task : string) (pre : ListEnv.Env → bool)
  (self : ListEnv.Env) (rng : nat → nat) (k : nat)
  (self' : ListEnv.Env) (k' : nat) :
  0 < ListEnv.length self →
  ListEnv.prog_to_precondition hierarchy !! task = Some pre →
  ListEnv.reset_env fuel task self rng k = (self', Ret k') →
  pre self' = true.
Proof.
  intros Hlen Hpre. rewrite ListEnv_reset_env_unfold. cbn zeta.
  destruct (ListEnv.init_pointers _ _ _ _ _) as [[[p1 p2] k1]| |] eqn:Hp; try done.
  intros [= <- _]. revert Hp. generalize (k + Z.to_nat (ListEnv.length self))%nat.
  generalize dependent (ListEnv.length self). intros len Hlen k0 Hp.
  apply elem_of_list_to_map_2 in Hpre. destruct hierarchy.
  all: repeat (apply elem_of_cons in Hpre as [Heq | Hpre];
               [injection Heq as Ht Hf; subst task pre |]);
    try (by apply elem_of_nil in Hpre).
  all: unfold ListEnv.init_pointers in Hp; cbn [String.eqb Ascii.eqb Bool.eqb
         andb orb] in Hp; try discriminate Hp; try done.
  all: try (injection Hp as <- <- _; reflexivity).
  all: try (apply ListEnv_sample_Ret in Hp as (Hr & Hp1 & Hp2); [| done];
            cbn [fst snd] in Hr; apply andb_false_iff in Hr;
            try unfold ListEnv._rshift_precondition;
            try unfold ListEnv._lshift_precondition;
            le_proj; apply orb_true_iff;
            destruct Hr as [Hr%Z.eqb_neq | Hr%Z.eqb_neq];
            [left | right]; apply Z.ltb_lt; lia).
  destruct (randint 0 (len - 1) rng k0) as [[pos1 k2]| |] eqn:Hr; try done.
  apply randint_range in Hr. unfold choice2 in Hp.
  cbn [mbind result_bind] in Hp. injection Hp as <- <- _.
  unfold ListEnv._compswap_precondition. le_proj.
  apply andb_true_iff. split; [apply Z.ltb_lt; lia |].
  apply orb_true_iff. destruct (Nat.even _); [left | right]; by apply Z.eqb_eq.
Qed.

Lemma X10_listenv_reset_witness :
  ListEnv._rshift_precondition
    (fst (ListEnv.reset_env 3 "RSHIFT" (ListEnv.mkEnv 3 [0; 0; 0] 0 0 false)
            (λ n, n) 0)) = true.
Proof.
  apply (X10_listenv_reset_satisfies_precondition true 3 "RSHIFT"
           ListEnv._rshift_precondition (ListEnv.mkEnv 3 [0; 0; 0] 0 0 false)
           (λ n, n) 0 _ 5%nat); [simpl; lia | reflexivity | vm_compute; reflexivity].
Defined.

(** X11. In the quicksort class the sampler draws legal tasks: when
    [reset_env] returns for a task that has an entry in the table of
    preconditions, that precondition holds in the state drawn. *)
Theorem X11_quicksort_reset_satisfies_precondition
  (hierarchy : bool) (fuel : nat) (task : string)
  (pre : QuickSortListEnv.Env → bool)
  (self : QuickSortListEnv.Env) (rng : nat → nat) (k : nat)
  (self' : QuickSortListEnv.Env) (k' : nat) :
  0 < QuickSortListEnv.length self →
  QuickSortListEnv.prog_to_precondition hierarchy !! task = Some pre →
  QuickSortListEnv.reset_env fuel task self rng k = (self', Ret k') →
  pre self' = true.
Proof.
  intros Hlen Hpre. unfold QuickSortListEnv.reset_env.
  destruct (randint_size 10 _ rng k) as [[a k1]| |]; try done.
  qs_proj.
  destruct (randint_size _ _ rng k1) as [[st k2]| |]; try done.
  destruct (QuickSortListEnv.init_pointers _ _ _ _ _) as [[[[p1 p2] p3] k3]| |]
    eqn:Hp; try done.
  intros [= <- _]. qs_proj. revert Hp Hlen.
  generalize (QuickSortListEnv.length self). intros len Hp Hlen.
  apply elem_of_list_to_map_2 in Hpre. destruct hierarchy.
  all: repeat (apply elem_of_cons in Hpre as [Heq | Hpre];
               [injection Heq as Ht Hf; subst task pre |]);
    try (by apply elem_of_nil in Hpre).
  all: unfold QuickSortListEnv.init_pointers in Hp;
    cbn [String.eqb Ascii.eqb Bool.eqb andb orb] in Hp;
    try discriminate Hp; try done.
  all: try (injection Hp as <- <- <- _; reflexivity).
  all: try (apply QuickSort_sample_Ret in Hp as (Hr & Hp1 & Hp2 & Hp3); [| done];
            unfold QuickSortListEnv.all_eq in Hr;
            apply andb_false_iff in Hr as [Hr | Hr%Z.eqb_neq];
            [apply andb_false_iff in Hr as [Hr%Z.eqb_neq | Hr%Z.eqb_neq] |];
            try unfold QuickSortListEnv._rshift_precondition;
            try unfold QuickSortListEnv._lshift_precondition;
            qs_proj; rewrite !orb_true_iff, !Z.ltb_lt; lia).
  all: try (destruct (sample_until _ _ _ _ _) as [[pos2 k4]| |] eqn:Hs; try done;
            apply sample_until_Ret in Hs as (Hne & k5 & Hs);
            apply randint_range in Hs; apply Z.eqb_neq in Hne;
            cbn [mbind result_bind] in Hp;
            destruct (randint 0 pos2 rng k4) as [[pos1 k6]| |] eqn:Hr; try done;
            apply randint_range in Hr; cbn [mbind result_bind] in Hp;
            injection Hp as <- <- <- _;
            try unfold QuickSortListEnv._compswap_partition_precondition;
            try unfold QuickSortListEnv._partition_precondition;
            qs_proj; apply andb_true_iff; split;
            [apply Z.leb_le; lia | apply Z.eqb_refl]).
  injection Hp as <- <- <- _. unfold QuickSortListEnv._quicksort_precondition.
  qs_proj. by rewrite !Z.eqb_refl.
Qed.

Lemma X11_quicksort_reset_witness :
  QuickSortListEnv._partition_precondition
    (fst (QuickSortListEnv.reset_env 5 "PARTITION"
            (QuickSortListEnv.mkEnv 3 [] 0 0 0 [] false) (λ n, n) 0)) = true.
Proof.
  apply (X11_quicksort_reset_satisfies_precondition true 5 "PARTITION"
           QuickSortListEnv._partition_precondition
           (QuickSortListEnv.mkEnv 3 [] 0 0 0 [] false) (λ n, n) 0 _ 9%nat);
    [simpl; lia | reflexivity | vm_compute; reflexivity].
Defined.

(** X12. The sampler never hands out a RESET, LSHIFT or RSHIFT task that is
    already solved: when [reset_env] returns for one of these tasks, the
    postcondition of the task, evaluated with the state drawn as both the
    initial and the current state, returns [False], in both classes. *)
Theorem X12_sampled_pointer_task_is_unsolved
  (fuel : nat) (task : string) (rng : nat → nat) (k : nat)
  (lself lself' : ListEnv.Env) (lk : nat) (ls : ListEnv.State)
  (lpost : ListEnv.Env → ListEnv.State → ListEnv.State → result bool)
  (qself qself' : QuickSortListEnv.Env) (qk : nat) (qs : QuickSortListEnv.State)
  (qpost : QuickSortListEnv.Env → QuickSortListEnv.State →
           QuickSortListEnv.State → result bool) :
  task ∈ ["RESET"; "LSHIFT"; "RSHIFT"]%string →
  (0 < ListEnv.length lself →
   ListEnv.prog_to_postcondition true !! task = Some lpost →
   ListEnv.reset_env fuel task lself rng k = (lself', Ret lk) →
   ListEnv.get_state lself' = Some ls →
   lpost lself' ls ls = Ret false)
  ∧ (0 < QuickSortListEnv.length qself →
     QuickSortListEnv.prog_to_postcondition true !! task = Some qpost →
     QuickSortListEnv.reset_env fuel task qself rng k = (qself', Ret qk) →
     QuickSortListEnv.get_state qself' = Some qs →
     qpost qself' qs qs = Ret false).
Proof.
  intros Htask. split.
  - intros Hlen Hpost. rewrite ListEnv_reset_env_unfold. cbn zeta.
    destruct (ListEnv.init_pointers _ _ _ _ _) as [[[p1 p2] k1]| |] eqn:Hp;
      try done.
    intros [= <- _]. unfold ListEnv.get_state. le_proj. intros [= <-].
    revert Hp. generalize (k + Z.to_nat (ListEnv.length lself))%nat.
    set (a := _ <$> _). clearbody a.
    generalize dependent (ListEnv.length lself). intros len Hlen k0 Hp.
    apply elem_of_list_to_map_2 in Hpost.
    repeat (apply elem_of_cons in Htask as [-> | Htask]);
      try (by apply elem_of_nil in Htask).
    all: repeat (apply elem_of_cons in Hpost as [Heq | Hpost];
                 [try discriminate Heq; injection Heq as -> |]);
      try (by apply elem_of_nil in Hpost).
    all: unfold ListEnv.init_pointers in Hp;
      cbn [String.eqb Ascii.eqb Bool.eqb andb orb] in Hp.
    all: apply ListEnv_sample_Ret in Hp as (Hr & Hp1 & Hp2); [| done];
      cbn [fst snd] in Hr; f_equal; apply not_true_iff_false; intros Hpost.
    + unfold ListEnv._reset_postcondition in Hpost.
      apply andb_true_iff in Hpost as [_ Hpost]. congruence.
    + apply ListEnv_lshift_postcondition_iff in Hpost as (_ & H1 & H2).
      apply andb_false_iff in Hr as [Hr%Z.eqb_neq | Hr%Z.eqb_neq].
      * destruct (0 <? p1) eqn:E; [lia | apply Z.ltb_ge in E; lia].
      * destruct (0 <? p2) eqn:E; [lia | apply Z.ltb_ge in E; lia].
    + apply ListEnv_rshift_postcondition_iff in Hpost as (_ & H1 & H2).
      le_proj.
      apply andb_false_iff in Hr as [Hr%Z.eqb_neq | Hr%Z.eqb_neq].
      * destruct (p1 <? len - 1) eqn:E; [lia | apply Z.ltb_ge in E; lia].
      * destruct (p2 <? len - 1) eqn:E; [lia | apply Z.ltb_ge in E; lia].
  - intros Hlen Hpost. unfold QuickSortListEnv.reset_env.
    destruct (randint_size 10 _ rng k) as [[a k1]| |]; try done.
    qs_proj.
    destruct (randint_size _ _ rng k1) as [[st k2]| |]; try done.
    destruct (QuickSortListEnv.init_pointers _ _ _ _ _) as [[[[p1 p2] p3] k3]| |]
      eqn:Hp; try done.
    intros [= <- _]. unfold QuickSortListEnv.get_state. qs_proj. intros [= <-].
    revert Hp Hlen.
    generalize (QuickSortListEnv.length qself). intros len Hp Hlen.
    apply elem_of_list_to_map_2 in Hpost.
    repeat (apply elem_of_cons in Htask as [-> | Htask]);
      try (by apply elem_of_nil in Htask).
    all: repeat (apply elem_of_cons in Hpost as [Heq | Hpost];
                 [try discriminate Heq; injection Heq as -> |]);
      try (by apply elem_of_nil in Hpost).
    all: unfold QuickSortListEnv.init_pointers in Hp;
      cbn [String.eqb Ascii.eqb Bool.eqb andb orb] in Hp.
    all: apply QuickSort_sample_Ret in Hp as (Hr & Hp1 & Hp2 & Hp3); [| done];
      unfold QuickSortListEnv.all_eq in Hr;
      f_equal; apply not_true_iff_false; intros Hpost.
    + unfold QuickSortListEnv._reset_postcondition in Hpost.
      apply andb_true_iff in Hpost as [_ Hpost]. congruence.
    + apply QuickSort_lshift_postcondition_iff in Hpost as (_ & H1 & H2 & H3).
      apply andb_false_iff in Hr as [Hr | Hr%Z.eqb_neq];
        [apply andb_false_iff in Hr as [Hr%Z.eqb_neq | Hr%Z.eqb_neq] |].
      * destruct (0 <? p1) eqn:E; [lia | apply Z.ltb_ge in E; lia].
      * destruct (0 <? p2) eqn:E; [lia | apply Z.ltb_ge in E; lia].
      * destruct (0 <? p3) eqn:E; [lia | apply Z.ltb_ge in E; lia].
    + apply QuickSort_rshift_postcondition_iff in Hpost as (_ & _ & H1 & H2 & H3).
      qs_proj.
      apply andb_false_iff in Hr as [Hr | Hr%Z.eqb_neq];
        [apply andb_false_iff in Hr as [Hr%Z.eqb_neq | Hr%Z.eqb_neq] |].
      * destruct (p1 <? len - 1) eqn:E; [lia | apply Z.ltb_ge in E; lia].
      * destruct (p2 <? len - 1) eqn:E; [lia | apply Z.ltb_ge in E; lia].
      * destruct (p3 <? len - 1) eqn:E; [lia | apply Z.ltb_ge in E; lia].
Qed.

Lemma X12_sampled_pointer_task_witness :
  Ret (ListEnv._lshift_postcondition (ListEnv.mkEnv 3 [1; 2; 3] 1 2 true)
         ([1; 2; 3], 1, 2) ([1; 2; 3], 1, 2)) = Ret false
  ∧ Ret (QuickSortListEnv._lshift_postcondition
           (QuickSortListEnv.mkEnv 3 [1; 2; 3] 1 2 0 [0; 1; 0] true)
           ([1; 2; 3], 1, 2, 0, [0; 1; 0]) ([1; 2; 3], 1, 2, 0, [0; 1; 0]))
    = Ret false.
Proof.
  pose proof (X12_sampled_pointer_task_is_unsolved 3 "LSHIFT" (λ n, S n) 0
                (ListEnv.mkEnv 3 [] 0 0 false)
                (ListEnv.mkEnv 3 [1; 2; 3] 1 2 true) 5 ([1; 2; 3], 1, 2)
                (λ self s t, Ret (ListEnv._lshift_postcondition self s t))
                (QuickSortListEnv.mkEnv 3 [] 0 0 0 [] false)
                (QuickSortListEnv.mkEnv 3 [1; 2; 3] 1 2 0 [0; 1; 0] true) 9
                ([1; 2; 3], 1, 2, 0, [0; 1; 0])
                (λ self s t, Ret (QuickSortListEnv._lshift_postcondition self s t)))
    as [H1 H2].
  { apply elem_of_cons; right; apply elem_of_cons; by left. }
  split.
  - apply H1; [simpl; lia | reflexivity | vm_compute; reflexivity | reflexivity].
  - apply H2; [simpl; lia | reflexivity | vm_compute; reflexivity | reflexivity].
Defined.

(** ** Observations *)

Lemma is_sorted_slices (a : list Z) :
  np.all_le (np.slice a 0 (-1)) (np.slice_from a 1)
  = Ret (forallb (λ p, fst p <=? snd p) (zip (take (length a - 1) a) (drop 1 a))).
Proof.
  rewrite <- slices_all_le. unfold np.slice_from.
  assert (Hb : np.bound (length a) (-1)
               = np.bound (length a) (Z.of_nat (length a) - 1)).
  { unfold np.bound. change (-1 <? 0) with true. cbn match.
    destruct (Z.of_nat (length a) - 1 <? 0) eqn:E;
      [apply Z.ltb_lt in E | apply Z.ltb_ge in E]; lia. }
  unfold np.slice. by rewrite Hb.
Qed.

(** X13. [_is_sorted] never raises, whatever the scratchpad holds, and
    returns [True] exactly when the scratchpad is non-decreasing end to end,
    in both classes. *)
Theorem X13_is_sorted_decides_sortedness
  (lself : ListEnv.Env) (qself : QuickSortListEnv.Env) :
  (∃ b : bool, ListEnv._is_sorted lself = Ret b
     ∧ (b = true ↔ non_decreasing (ListEnv.scratchpad_ints lself)))
  ∧ (∃ b : bool, QuickSortListEnv._is_sorted qself = Ret b
       ∧ (b = true ↔ non_decreasing (QuickSortListEnv.scratchpad_ints qself))).
Proof.
  unfold ListEnv._is_sorted, QuickSortListEnv._is_sorted. cbn zeta.
  rewrite !is_sorted_slices. split; eexists; (split; [done |]);
    by rewrite adjacent_pairs_Sorted, non_decreasing_Sorted.
Qed.

Lemma eye_row_length (n j : nat) : length (np.eye_row n j) = n.
Proof. unfold np.eye_row. by rewrite length_fmap, length_seq. Qed.

Lemma eye_row_binary (n j : nat) : binary (np.eye_row n j).
Proof.
  unfold binary, np.eye_row. apply Forall_fmap, Forall_forall. intros i _.
  simpl. case_decide; lia.
Qed.

Lemma eye_row_lookup (n j i : nat) :
  (i < n)%nat → np.eye_row n j !! i = Some (if decide (i = j) then 1 else 0).
Proof.
  intros Hi. unfold np.eye_row. rewrite list_lookup_fmap, lookup_seq_lt by done.
  done.
Qed.

Lemma eye_row_insert (n j : nat) :
  (j < n)%nat → np.eye_row n j = <[j := 1]> (replicate n 0).
Proof.
  intros Hj. apply list_eq. intros i.
  destruct (decide (i < n)%nat) as [Hi | Hi].
  - rewrite eye_row_lookup by done. case_decide as E.
    + subst i. by rewrite list_lookup_insert_eq by (by rewrite length_replicate).
    + rewrite list_lookup_insert_ne by done. by rewrite lookup_replicate_2.
  - rewrite !lookup_ge_None_2; [done | |].
    + rewrite length_insert, length_replicate. lia.
    + rewrite eye_row_length. lia.
Qed.

Lemma argmax_from_flat (best : Z) (besti i : nat) (m : nat) (v : Z) :
  v ≤ best → np.argmax_from best besti i (replicate m v) = besti.
Proof.
  intros Hv. revert i. induction m as [|m IH]; intros i; [done |].
  cbn [replicate np.argmax_from].
  replace (best <? v) with false by (symmetry; apply Z.ltb_ge; lia). apply IH.
Qed.

Lemma argmax_from_peak (besti i : nat) (a b : nat) :
  np.argmax_from 0 besti i (replicate a 0 ++ 1 :: replicate b 0) = (i + a)%nat.
Proof.
  revert i. induction a as [|a IH]; intros i.
  - cbn [replicate app np.argmax_from]. change (0 <? 1) with true. cbn match.
    rewrite argmax_from_flat by lia. lia.
  - cbn [replicate app np.argmax_from]. change (0 <? 0) with false. cbn match.
    rewrite IH. lia.
Qed.

Lemma argmax_eye_row (n j : nat) :
  (j < n)%nat → np.argmax (np.eye_row n j) = Ret (Z.of_nat j).
Proof.
  intros Hj. rewrite eye_row_insert, insert_replicate_lt by done.
  destruct j as [|j].
  - cbn [replicate app np.argmax]. by rewrite argmax_from_flat by lia.
  - cbn [replicate app np.argmax]. by rewrite argmax_from_peak.
Qed.

Lemma np_index_Z (n : nat) (p : Z) :
  0 ≤ p < Z.of_nat n → np.index n p = Ret (Z.to_nat p).
Proof.
  intros Hp. rewrite <- (Z2Nat.id p) at 1 by lia. apply np_index_nat. lia.
Qed.

Lemma np_index_wrap (n : nat) (p : Z) :
  - Z.of_nat n ≤ p < Z.of_nat n →
  np.index n p = Ret (Z.to_nat (p mod Z.of_nat n)).
Proof.
  intros Hp. destruct (decide (0 ≤ p)) as [H0 | H0].
  - rewrite np_index_Z by lia. by rewrite Z.mod_small by lia.
  - unfold np.index.
    replace ((0 <=? p) && (p <? Z.of_nat n)) with false
      by (symmetry; apply andb_false_iff; left; apply Z.leb_gt; lia).
    replace ((- Z.of_nat n <=? p) && (p <? 0)) with true
      by (symmetry; apply andb_true_iff; split;
          [apply Z.leb_le | apply Z.ltb_lt]; lia).
    do 2 f_equal. apply (Z.mod_unique p (Z.of_nat n) (-1)); lia.
Qed.

Lemma np_index_Raise (n : nat) (p : Z) :
  ¬ (- Z.of_nat n ≤ p < Z.of_nat n) → np.index n p = Raise IndexError.
Proof.
  intros Hp. unfold np.index.
  destruct ((0 <=? p) && (p <? Z.of_nat n)) eqn:E1.
  { apply andb_true_iff in E1 as [?%Z.leb_le ?%Z.ltb_lt]. lia. }
  destruct ((- Z.of_nat n <=? p) && (p <? 0)) eqn:E2; [| done].
  apply andb_true_iff in E2 as [?%Z.leb_le ?%Z.ltb_lt]. lia.
Qed.

Lemma zeros_setitem (digit basis : Z) :
  (encoding ← np.zeros basis; np.setitem encoding digit 1)
  = if decide (- basis ≤ digit < basis)
    then Ret (np.eye_row (Z.to_nat basis) (Z.to_nat (digit mod basis)))
    else if decide (basis < 0) then Raise ValueError else Raise IndexError.
Proof.
  unfold np.zeros. destruct (basis <? 0) eqn:E;
    [apply Z.ltb_lt in E | apply Z.ltb_ge in E].
  - rewrite decide_False by lia. by rewrite decide_True by lia.
  - cbn [mbind result_bind]. unfold np.setitem. rewrite length_replicate.
    case_decide as Hd.
    + rewrite np_index_wrap by lia. cbn [mbind result_bind].
      rewrite Z2Nat.id by lia. rewrite eye_row_insert; [done |].
      pose proof (Z.mod_pos_bound digit basis). lia.
    + rewrite np_index_Raise by lia. by rewrite decide_False by lia.
Qed.

(** X14. One-hot encoding and decoding: for a digit in
    [[-basis, basis)] the encoding has [basis] entries, all 0 or 1, and
    decodes to the digit modulo the basis (a negative digit addresses the
    vector from its end); for any other digit the encoding raises, in both
    classes. *)
Theorem X14_one_hot_round_trip (digit basis : Z) :
  (- basis ≤ digit < basis →
   ∃ e, ListEnv._one_hot_encode digit basis = Ret e
        ∧ QuickSortListEnv._one_hot_encode digit basis = Ret e
        ∧ length e = Z.to_nat basis ∧ binary e
        ∧ ListEnv._one_hot_decode e = Ret (digit mod basis)
        ∧ QuickSortListEnv._one_hot_decode e = Ret (digit mod basis))
  ∧ (¬ (- basis ≤ digit < basis) →
     is_Raise (ListEnv._one_hot_encode digit basis) = true
     ∧ is_Raise (QuickSortListEnv._one_hot_encode digit basis) = true).
Proof.
  unfold ListEnv._one_hot_encode, QuickSortListEnv._one_hot_encode,
    ListEnv._one_hot_decode, QuickSortListEnv._one_hot_decode.
  rewrite zeros_setitem. split; intros Hd.
  - rewrite decide_True by done. eexists. split; [done |]. split; [done |].
    split; [apply eye_row_length |]. split; [apply eye_row_binary |].
    pose proof (Z.mod_pos_bound digit basis).
    rewrite argmax_eye_row by lia. rewrite Z2Nat.id by lia. done.
  - rewrite decide_False by done. by case_decide.
Qed.

Lemma X14_one_hot_witness :
  (∃ e, ListEnv._one_hot_encode (-3) 10 = Ret e
        ∧ QuickSortListEnv._one_hot_encode (-3) 10 = Ret e
        ∧ length e = Z.to_nat 10 ∧ binary e
        ∧ ListEnv._one_hot_decode e = Ret (-3 mod 10)
        ∧ QuickSortListEnv._one_hot_decode e = Ret (-3 mod 10))
  ∧ is_Raise (ListEnv._one_hot_encode 10 10) = true
  ∧ is_Raise (QuickSortListEnv._one_hot_encode 10 10) = true.
Proof.
  split.
  - apply (proj1 (X14_one_hot_round_trip (-3) 10)). lia.
  - apply (proj2 (X14_one_hot_round_trip 10 10)). lia.
Defined.

Lemma np_swap_Forall (P : Z → Prop) (a : list Z) (p q : Z) (a' : list Z) :
  np.swap a p q = Ret a' → Forall P a → Forall P a'.
Proof.
  unfold np.swap, np.getitem, np.setitem. intros H Ha.
  destruct (np.index (length a) q) as [j| |]; try done. cbn [mbind result_bind] in H.
  destruct (a !! j) as [vj|] eqn:Hj; try done. cbn [mbind result_bind] in H.
  destruct (np.index (length a) p) as [i| |]; try done. cbn [mbind result_bind] in H.
  destruct (a !! i) as [vi|] eqn:Hi; try done. cbn [mbind result_bind] in H.
  destruct (np.index _ q) as [j'| |]; try done. cbn [mbind result_bind] in H.
  injection H as <-.
  apply Forall_insert; [apply Forall_insert; [done |] |].
  - by eapply (proj1 (Forall_lookup _ _) Ha).
  - by eapply (proj1 (Forall_lookup _ _) Ha).
Qed.

Lemma ListEnv_act_digits (hierarchy : bool) (name : string)
  (f : ListEnv.Env → result ListEnv.Env) (self self' : ListEnv.Env) :
  ListEnv.prog_to_func hierarchy !! name = Some f →
  f self = Ret self' →
  digits (ListEnv.scratchpad_ints self) →
  digits (ListEnv.scratchpad_ints self')
  ∧ ListEnv.has_been_reset self' = ListEnv.has_been_reset self.
Proof.
  intros Hf Hrun Hd. apply ListEnv_prog_to_func_cases in Hf.
  destruct Hf as [-> | [-> | [-> | [-> | [-> | ->]]]]].
  1-5: injection Hrun as <-.
  - done.
  - unfold ListEnv._ptr_1_left. by destruct (_ <? _).
  - unfold ListEnv._ptr_2_left. by destruct (_ <? _).
  - unfold ListEnv._ptr_1_right. by destruct (_ <? _).
  - unfold ListEnv._ptr_2_right. by destruct (_ <? _).
  - unfold ListEnv._swap in Hrun.
    destruct (np.swap _ _ _) as [a| |] eqn:Hs; try done.
    injection Hrun as <-. le_proj. split; [| done].
    by eapply np_swap_Forall.
Qed.

Lemma ListEnv_reachable_digits (hierarchy : bool) (len : Z) (self : ListEnv.Env) :
  ListEnv.reachable hierarchy len self →
  digits (ListEnv.scratchpad_ints self) ∧ ListEnv.has_been_reset self = true.
Proof.
  induction 1 as [fuel task self rng k self' k' Hlen Hself Hreset
                 | name f pre self self' _ [IHd IHr] Hf _ _ Hrun].
  - rewrite ListEnv_reset_env_unfold in Hreset. cbn zeta in Hreset.
    destruct (ListEnv.init_pointers _ _ _ _ _) as [[[p1 p2] k1]| |]; try done.
    injection Hreset as <- _. le_proj. split; [| done].
    apply Forall_fmap, Forall_forall. intros i _. simpl.
    by apply Z.mod_pos_bound.
  - destruct (ListEnv_act_digits _ _ _ _ _ Hf Hrun IHd) as [? ->]. done.
Qed.

Lemma QuickSort_swap_digits (self : QuickSortListEnv.Env) (p q : Z)
  (self' : QuickSortListEnv.Env) :
  (a ← np.swap (QuickSortListEnv.scratchpad_ints self) p q;
   Ret (QuickSortListEnv.with_scratchpad self a)) = Ret self' →
  digits (QuickSortListEnv.scratchpad_ints self) →
  digits (QuickSortListEnv.scratchpad_ints self')
  ∧ QuickSortListEnv.has_been_reset self' = QuickSortListEnv.has_been_reset self.
Proof.
  intros Hrun Hd. destruct (np.swap _ _ _) as [a| |] eqn:Hs; try done.
  injection Hrun as <-. qs_proj. split; [| done]. by eapply np_swap_Forall.
Qed.

Lemma QuickSort_act_digits (hierarchy : bool) (name : string)
  (f : QuickSortListEnv.Env → result QuickSortListEnv.Env)
  (self self' : QuickSortListEnv.Env) :
  QuickSortListEnv.prog_to_func hierarchy !! name = Some f →
  f self = Ret self' →
  digits (QuickSortListEnv.scratchpad_ints self) →
  digits (QuickSortListEnv.scratchpad_ints self')
  ∧ QuickSortListEnv.has_been_reset self' = QuickSortListEnv.has_been_reset self.
Proof.
  intros Hf Hrun Hd. apply QuickSort_prog_to_func_cases in Hf.
  destruct Hf as [-> | [-> | [-> | [-> | [-> | [-> | [-> | [-> | [-> | [-> | [-> | ->]]]]]]]]]]].
  1-8: injection Hrun as <-.
  - done.
  - unfold QuickSortListEnv._ptr_1_left. by destruct (_ <? _).
  - unfold QuickSortListEnv._ptr_2_left. by destruct (_ <? _).
  - unfold QuickSortListEnv._ptr_1_right. by destruct (_ <? _).
  - unfold QuickSortListEnv._ptr_2_right. by destruct (_ <? _).
  - unfold QuickSortListEnv._ptr_3_left. by destruct (_ <? _).
  - unfold QuickSortListEnv._ptr_3_right. by destruct (_ <? _).
  - done.
  - unfold QuickSortListEnv._pop in Hrun.
    destruct (3 <=? _); [| by injection Hrun as <-].
    destruct (QuickSortListEnv.list_pop _) as [[p1 st1]| |]; try done.
    cbn [mbind result_bind] in Hrun.
    destruct (QuickSortListEnv.list_pop _) as [[p2 st2]| |]; try done.
    cbn [mbind result_bind] in Hrun.
    destruct (QuickSortListEnv.list_pop _) as [[p3 st3]| |]; try done.
    cbn [mbind result_bind] in Hrun. by injection Hrun as <-.
  - by eapply QuickSort_swap_digits.
  - by eapply QuickSort_swap_digits.
  - by eapply QuickSort_swap_digits.
Qed.

Lemma QuickSort_reachable_digits (hierarchy : bool) (len : Z)
  (self : QuickSortListEnv.Env) :
  QuickSortListEnv.reachable hierarchy len self →
  digits (QuickSortListEnv.scratchpad_ints self)
  ∧ QuickSortListEnv.has_been_reset self = true.
Proof.
  induction 1 as [fuel task self rng k self' k' Hlen Hself Hreset
                 | name f pre self self' _ [IHd IHr] Hf _ _ Hrun].
  - unfold QuickSortListEnv.reset_env in Hreset.
    destruct (randint_size 10 _ rng k) as [[a k1]| |] eqn:Ha; try done.
    apply randint_size_Ret in Ha as [_ Ha]. qs_proj.
    destruct (randint_size _ _ rng k1) as [[st k2]| |]; try done.
    destruct (QuickSortListEnv.init_pointers _ _ _ _ _) as [[[[p1 p2] p3] k3]| |];
      try done.
    injection Hreset as <- _. by qs_proj.
  - destruct (QuickSort_act_digits _ _ _ _ _ Hf Hrun IHd) as [? ->]. done.
Qed.

Lemma digits_lookup (a : list Z) (p : Z) :
  digits a → 0 ≤ p < Z.of_nat (length a) → 0 ≤ a !!! Z.to_nat p < 10.
Proof.
  intros Hd Hp. apply (proj1 (Forall_lookup _ _) Hd (Z.to_nat p)).
  apply list_lookup_lookup_total_lt. lia.
Qed.

Lemma eye_take_digits (vs : list Z) :
  digits vs →
  np.eye_take 10 vs = Ret (concat ((λ v, np.eye_row 10 (Z.to_nat v)) <$> vs)).
Proof.
  induction 1 as [|v vs Hv _ IH]; [done |].
  cbn [np.eye_take]. rewrite np_index_Z by lia. cbn [mbind result_bind].
  rewrite IH. done.
Qed.

Lemma int_of_bool_binary (b : bool) : int_of_bool b = 0 ∨ int_of_bool b = 1.
Proof. destruct b; [by right | by left]. Qed.

Lemma int_of_bool_1 (b : bool) : int_of_bool b = 1 ↔ b = true.
Proof. by destruct b. Qed.

Lemma ListEnv_observation_value (len : Z) (self : ListEnv.Env) :
  ListEnv_wf len self → digits (ListEnv.scratchpad_ints self) →
  ListEnv.has_been_reset self = true →
  ∃ sorted_flag : bool,
    (sorted_flag = true ↔ non_decreasing (ListEnv.scratchpad_ints self))
    ∧ ListEnv.get_observation self
      = Some (Ret (
          np.eye_row 10 (Z.to_nat (ListEnv.scratchpad_ints self
                                     !!! Z.to_nat (ListEnv.p1_pos self)))
          ++ np.eye_row 10 (Z.to_nat (ListEnv.scratchpad_ints self
                                        !!! Z.to_nat (ListEnv.p2_pos self)))
          ++ [int_of_bool (ListEnv.p1_pos self =? 0);
              int_of_bool (ListEnv.p1_pos self =? ListEnv.length self - 1);
              int_of_bool (ListEnv.p2_pos self =? 0);
              int_of_bool (ListEnv.p2_pos self =? ListEnv.length self - 1);
              int_of_bool (ListEnv.p1_pos self =? ListEnv.p2_pos self);
              int_of_bool sorted_flag])).
Proof.
  intros (Hl & Ha & Hp1 & Hp2) Hd Hr.
  unfold ListEnv.get_observation. rewrite Hr.
  rewrite !np_getitem_Z by lia. cbn [mbind result_bind].
  unfold ListEnv._is_sorted. cbn zeta. rewrite is_sorted_slices.
  cbn [mbind result_bind]. eexists.
  split; [by rewrite adjacent_pairs_Sorted, non_decreasing_Sorted |].
  rewrite eye_take_digits.
  - cbn [mbind result_bind fmap list_fmap concat]. by rewrite app_nil_r, <- app_assoc.
  - repeat (constructor; [apply digits_lookup; (done || lia) |]). constructor.
Qed.

Lemma QuickSort_observation_value (len : Z) (self : QuickSortListEnv.Env) :
  QuickSort_wf len self → digits (QuickSortListEnv.scratchpad_ints self) →
  QuickSortListEnv.has_been_reset self = true →
  ∃ sorted_flag : bool,
    (sorted_flag = true ↔ non_decreasing (QuickSortListEnv.scratchpad_ints self))
    ∧ QuickSortListEnv.get_observation self
      = Some (Ret (
          np.eye_row 10 (Z.to_nat (QuickSortListEnv.scratchpad_ints self
                                     !!! Z.to_nat (QuickSortListEnv.p1_pos self)))
          ++ np.eye_row 10 (Z.to_nat (QuickSortListEnv.scratchpad_ints self
                                        !!! Z.to_nat (QuickSortListEnv.p2_pos self)))
          ++ np.eye_row 10 (Z.to_nat (QuickSortListEnv.scratchpad_ints self
                                        !!! Z.to_nat (QuickSortListEnv.p3_pos self)))
          ++ [int_of_bool (QuickSortListEnv.p1_pos self =? 0);
              int_of_bool (QuickSortListEnv.p1_pos self
                           =? QuickSortListEnv.length self - 1);
              int_of_bool (QuickSortListEnv.p2_pos self =? 0);
              int_of_bool (QuickSortListEnv.p2_pos self
                           =? QuickSortListEnv.length self - 1);
              int_of_bool (QuickSortListEnv.p3_pos self =? 0);
              int_of_bool (QuickSortListEnv.p3_pos self
                           =? QuickSortListEnv.length self - 1);
              int_of_bool (QuickSortListEnv.p1_pos self
                           =? QuickSortListEnv.p2_pos self);
              int_of_bool (QuickSortListEnv.p2_pos self
                           =? QuickSortListEnv.p3_pos self);
              int_of_bool sorted_flag;
              int_of_bool (3 <=? Z.of_nat (length (QuickSortListEnv.prog_stack
                                                     self)))])).
Proof.
  intros (Hl & Ha & Hp1 & Hp2 & Hp3 & Hst) Hd Hr.
  unfold QuickSortListEnv.get_observation. rewrite Hr.
  rewrite !np_getitem_Z by lia. cbn [mbind result_bind].
  unfold QuickSortListEnv._is_sorted. cbn zeta. rewrite is_sorted_slices.
  cbn [mbind result_bind]. eexists.
  split; [by rewrite adjacent_pairs_Sorted, non_decreasing_Sorted |].
  rewrite eye_take_digits.
  - cbn [mbind result_bind fmap list_fmap concat].
    by rewrite app_nil_r, <- !app_assoc.
  - repeat (constructor; [apply digits_lookup; (done || lia) |]). constructor.
Qed.

(** X15. Observations have the announced shape: before any reset
    [get_observation] fails its assertion; in every reachable state it
    returns a vector of [get_observation_dim()] entries, each 0 or 1, in both
    classes. *)
Theorem X15_observation_shape
  (hierarchy : bool) (length0 : Z)
  (lself : ListEnv.Env) (qself : QuickSortListEnv.Env) :
  (ListEnv.has_been_reset lself = false → ListEnv.get_observation lself = None)
  ∧ (QuickSortListEnv.has_been_reset qself = false →
     QuickSortListEnv.get_observation qself = None)
  ∧ (ListEnv.reachable hierarchy length0 lself →
     ∃ obs, ListEnv.get_observation lself = Some (Ret obs)
            ∧ length obs = ListEnv.get_observation_dim ∧ binary obs)
  ∧ (QuickSortListEnv.reachable hierarchy length0 qself →
     ∃ obs, QuickSortListEnv.get_observation qself = Some (Ret obs)
            ∧ length obs = QuickSortListEnv.get_observation_dim ∧ binary obs).
Proof.
  split; [| split; [| split]].
  - intros H. unfold ListEnv.get_observation. by rewrite H.
  - intros H. unfold QuickSortListEnv.get_observation. by rewrite H.
  - intros H. pose proof (ListEnv_reachable_wf _ _ _ H) as Hwf.
    apply ListEnv_reachable_digits in H as [Hd Hr].
    destruct (ListEnv_observation_value _ _ Hwf Hd Hr) as (b & _ & ->).
    eexists. split; [done |]. split.
    + by rewrite !length_app, !eye_row_length.
    + unfold binary. rewrite !Forall_app. split; [apply eye_row_binary |].
      split; [apply eye_row_binary |].
      repeat (constructor; [apply int_of_bool_binary |]). constructor.
  - intros H. pose proof (QuickSort_reachable_inv _ _ _ H) as [Hwf _].
    apply QuickSort_reachable_digits in H as [Hd Hr].
    destruct (QuickSort_observation_value _ _ Hwf Hd Hr) as (b & _ & ->).
    eexists. split; [done |]. split.
    + by rewrite !length_app, !eye_row_length.
    + unfold binary. rewrite !Forall_app. split; [apply eye_row_binary |].
      split; [apply eye_row_binary |]. split; [apply eye_row_binary |].
      repeat (constructor; [apply int_of_bool_binary |]). constructor.
Qed.

Lemma X15_observation_witness :
  ListEnv.get_observation (ListEnv.mkEnv 3 [] 0 0 false) = None
  ∧ QuickSortListEnv.get_observation (QuickSortListEnv.mkEnv 3 [] 0 0 0 [] false)
    = None
  ∧ (∃ obs, ListEnv.get_observation (ListEnv.mkEnv 3 [1; 2; 3] 1 2 true)
            = Some (Ret obs)
            ∧ length obs = ListEnv.get_observation_dim ∧ binary obs)
  ∧ (∃ obs, QuickSortListEnv.get_observation
              (QuickSortListEnv.mkEnv 3 [1; 2; 3] 1 2 0 [0; 1; 0] true)
            = Some (Ret obs)
            ∧ length obs = QuickSortListEnv.get_observation_dim ∧ binary obs).
Proof.
  pose proof (X15_observation_shape true 3 (ListEnv.mkEnv 3 [] 0 0 false)
                (QuickSortListEnv.mkEnv 3 [] 0 0 0 [] false)) as (H1 & H2 & _).
  pose proof (X15_observation_shape true 3 (ListEnv.mkEnv 3 [1; 2; 3] 1 2 true)
                (QuickSortListEnv.mkEnv 3 [1; 2; 3] 1 2 0 [0; 1; 0] true))
    as (_ & _ & H3 & H4).
  split; [apply H1; reflexivity |].
  split; [apply H2; reflexivity |].
  split.
  - apply H3.
    apply (ListEnv.reach_reset true 3 3 "LSHIFT" (ListEnv.mkEnv 3 [] 0 0 false)
             (λ n, S n) 0 _ 5%nat); [lia | reflexivity | vm_compute; reflexivity].
  - apply H4.
    apply (QuickSortListEnv.reach_reset true 3 3 "LSHIFT"
             (QuickSortListEnv.mkEnv 3 [] 0 0 0 [] false) (λ n, S n) 0 _ 9%nat);
      [lia | reflexivity | vm_compute; reflexivity].
Defined.

Lemma Some_Ret_inj {A : Type} (x y : A) : Some (Ret x) = Some (Ret y) → x = y.
Proof. by intros [= ->]. Qed.

Lemma block_0 (r rest : list Z) : length r = 10%nat → block 0 (r ++ rest) = r.
Proof.
  intros H. unfold block. rewrite Nat.mul_0_r, drop_0. by rewrite take_app_length'.
Qed.

Lemma block_S (i : nat) (r rest : list Z) :
  length r = 10%nat → block (S i) (r ++ rest) = block i rest.
Proof.
  intros H. unfold block.
  replace (10 * S i)%nat with (10 + 10 * i)%nat by lia.
  by rewrite <- drop_drop, drop_app_length'.
Qed.

Lemma decode_eye_row (a : list Z) (p : Z) :
  digits a → 0 ≤ p < Z.of_nat (length a) →
  np.argmax (np.eye_row 10 (Z.to_nat (a !!! Z.to_nat p))) = np.getitem a p.
Proof.
  intros Hd Hp. pose proof (digits_lookup a p Hd Hp).
  rewrite argmax_eye_row by lia. rewrite Z2Nat.id by lia.
  by rewrite np_getitem_Z.
Qed.

(** X16. The digit blocks of an observation decode to the digits under the
    pointers: in a reachable state, [_one_hot_decode] of the first block of
    ten entries is [scratchpad_ints[p1_pos]], of the second
    [scratchpad_ints[p2_pos]] and, in the quicksort class, of the third
    [scratchpad_ints[p3_pos]]. *)
Theorem X16_observation_decodes_to_pointed_digits
  (hierarchy : bool) (length0 : Z)
  (lself : ListEnv.Env) (qself : QuickSortListEnv.Env) (lobs qobs : list Z) :
  (ListEnv.reachable hierarchy length0 lself →
   ListEnv.get_observation lself = Some (Ret lobs) →
   ListEnv._one_hot_decode (block 0 lobs)
   = np.getitem (ListEnv.scratchpad_ints lself) (ListEnv.p1_pos lself)
   ∧ ListEnv._one_hot_decode (block 1 lobs)
     = np.getitem (ListEnv.scratchpad_ints lself) (ListEnv.p2_pos lself))
  ∧ (QuickSortListEnv.reachable hierarchy length0 qself →
     QuickSortListEnv.get_observation qself = Some (Ret qobs) →
     QuickSortListEnv._one_hot_decode (block 0 qobs)
     = np.getitem (QuickSortListEnv.scratchpad_ints qself)
         (QuickSortListEnv.p1_pos qself)
     ∧ QuickSortListEnv._one_hot_decode (block 1 qobs)
       = np.getitem (QuickSortListEnv.scratchpad_ints qself)
           (QuickSortListEnv.p2_pos qself)
     ∧ QuickSortListEnv._one_hot_decode (block 2 qobs)
       = np.getitem (QuickSortListEnv.scratchpad_ints qself)
           (QuickSortListEnv.p3_pos qself)).
Proof.
  unfold ListEnv._one_hot_decode, QuickSortListEnv._one_hot_decode. split.
  - intros H. pose proof (ListEnv_reachable_wf _ _ _ H) as Hwf.
    apply ListEnv_reachable_digits in H as [Hd Hr].
    destruct (ListEnv_observation_value _ _ Hwf Hd Hr) as (b & _ & ->).
    intros <-%Some_Ret_inj. destruct Hwf as (Hl & Ha & Hp1 & Hp2).
    rewrite block_S, !block_0 by apply eye_row_length.
    split; apply decode_eye_row; (done || lia).
  - intros H. pose proof (QuickSort_reachable_inv _ _ _ H) as [Hwf _].
    apply QuickSort_reachable_digits in H as [Hd Hr].
    destruct (QuickSort_observation_value _ _ Hwf Hd Hr) as (b & _ & ->).
    intros <-%Some_Ret_inj. destruct Hwf as (Hl & Ha & Hp1 & Hp2 & Hp3 & _).
    rewrite !block_S, !block_0 by apply eye_row_length.
    repeat split; apply decode_eye_row; (done || lia).
Qed.

Lemma X16_observation_decodes_witness :
  (ListEnv._one_hot_decode
     (block 0 (np.eye_row 10 2 ++ np.eye_row 10 3 ++ [0; 0; 0; 1; 0; 1]))
   = np.getitem [1; 2; 3] 1
   ∧ ListEnv._one_hot_decode
       (block 1 (np.eye_row 10 2 ++ np.eye_row 10 3 ++ [0; 0; 0; 1; 0; 1]))
     = np.getitem [1; 2; 3] 2)
  ∧ (QuickSortListEnv._one_hot_decode
       (block 0 (np.eye_row 10 2 ++ np.eye_row 10 3 ++ np.eye_row 10 1
                 ++ [0; 0; 0; 1; 1; 0; 0; 0; 1; 1]))
     = np.getitem [1; 2; 3] 1
     ∧ QuickSortListEnv._one_hot_decode
         (block 1 (np.eye_row 10 2 ++ np.eye_row 10 3 ++ np.eye_row 10 1
                   ++ [0; 0; 0; 1; 1; 0; 0; 0; 1; 1]))
       = np.getitem [1; 2; 3] 2
     ∧ QuickSortListEnv._one_hot_decode
         (block 2 (np.eye_row 10 2 ++ np.eye_row 10 3 ++ np.eye_row 10 1
                   ++ [0; 0; 0; 1; 1; 0; 0; 0; 1; 1]))
       = np.getitem [1; 2; 3] 0).
Proof.
  pose proof (X16_observation_decodes_to_pointed_digits true 3
                (ListEnv.mkEnv 3 [1; 2; 3] 1 2 true)
                (QuickSortListEnv.mkEnv 3 [1; 2; 3] 1 2 0 [0; 1; 0] true)
                (np.eye_row 10 2 ++ np.eye_row 10 3 ++ [0; 0; 0; 1; 0; 1])
                (np.eye_row 10 2 ++ np.eye_row 10 3 ++ np.eye_row 10 1
                 ++ [0; 0; 0; 1; 1; 0; 0; 0; 1; 1])) as [H1 H2].
  split.
  - apply H1; [| vm_compute; reflexivity].
    apply (ListEnv.reach_reset true 3 3 "LSHIFT" (ListEnv.mkEnv 3 [] 0 0 false)
             (λ n, S n) 0 _ 5%nat); [lia | reflexivity | vm_compute; reflexivity].
  - apply H2; [| vm_compute; reflexivity].
    apply (QuickSortListEnv.reach_reset true 3 3 "LSHIFT"
             (QuickSortListEnv.mkEnv 3 [] 0 0 0 [] false) (λ n, S n) 0 _ 9%nat);
      [lia | reflexivity | vm_compute; reflexivity].
Defined.

Lemma flag_lookup (obs flags : list Z) (n i : nat) (b : bool) (P : Prop) :
  drop n obs = flags → flags !! i = Some (int_of_bool b) → (b = true ↔ P) →
  obs !! (n + i)%nat = Some 1 ↔ P.
Proof.
  intros <- Hi <-. rewrite lookup_drop in Hi. rewrite Hi.
  rewrite <- int_of_bool_1. split; [by intros [= ->] | by intros ->].
Qed.

Lemma stack_flag (st : list Z) :
  (length st `mod` 3 = 0)%nat → (3 <=? Z.of_nat (length st)) = true ↔ st ≠ [].
Proof.
  intros Hm. rewrite Z.leb_le. destruct st as [|x st]; [simpl; split; [lia | done] |].
  split; [done | intros _].
  destruct st as [|y [|z st]]; [done | done | simpl length; lia].
Qed.

(** X17. The flags of an observation mean what their position says: in a
    reachable state of the bubble-sort class entries 20 to 25 are set exactly
    when pointer 1 is at the left end, pointer 1 is at the right end, pointer
    2 is at the left end, pointer 2 is at the right end, the two pointers
    coincide, and the scratchpad is non-decreasing.  In the quicksort class
    entries 30 to 39 say the same of the three pointers, of the pairs
    (1, 2) and (2, 3) and of the scratchpad, and the last entry, which the
    code names [is_stack_empty], is set exactly when the stack is not
    empty. *)
Theorem X17_observation_flags
  (hierarchy : bool) (length0 : Z)
  (lself : ListEnv.Env) (qself : QuickSortListEnv.Env) (lobs qobs : list Z) :
  (ListEnv.reachable hierarchy length0 lself →
   ListEnv.get_observation lself = Some (Ret lobs) →
   (lobs !! 20%nat = Some 1 ↔ ListEnv.p1_pos lself = 0)
   ∧ (lobs !! 21%nat = Some 1 ↔ ListEnv.p1_pos lself = length0 - 1)
   ∧ (lobs !! 22%nat = Some 1 ↔ ListEnv.p2_pos lself = 0)
   ∧ (lobs !! 23%nat = Some 1 ↔ ListEnv.p2_pos lself = length0 - 1)
   ∧ (lobs !! 24%nat = Some 1 ↔ ListEnv.p1_pos lself = ListEnv.p2_pos lself)
   ∧ (lobs !! 25%nat = Some 1 ↔ non_decreasing (ListEnv.scratchpad_ints lself)))
  ∧ (QuickSortListEnv.reachable hierarchy length0 qself →
     QuickSortListEnv.get_observation qself = Some (Ret qobs) →
     (qobs !! 30%nat = Some 1 ↔ QuickSortListEnv.p1_pos qself = 0)
     ∧ (qobs !! 31%nat = Some 1 ↔ QuickSortListEnv.p1_pos qself = length0 - 1)
     ∧ (qobs !! 32%nat = Some 1 ↔ QuickSortListEnv.p2_pos qself = 0)
     ∧ (qobs !! 33%nat = Some 1 ↔ QuickSortListEnv.p2_pos qself = length0 - 1)
     ∧ (qobs !! 34%nat = Some 1 ↔ QuickSortListEnv.p3_pos qself = 0)
     ∧ (qobs !! 35%nat = Some 1 ↔ QuickSortListEnv.p3_pos qself = length0 - 1)
     ∧ (qobs !! 36%nat = Some 1
        ↔ QuickSortListEnv.p1_pos qself = QuickSortListEnv.p2_pos qself)
     ∧ (qobs !! 37%nat = Some 1
        ↔ QuickSortListEnv.p2_pos qself = QuickSortListEnv.p3_pos qself)
     ∧ (qobs !! 38%nat = Some 1
        ↔ non_decreasing (QuickSortListEnv.scratchpad_ints qself))
     ∧ (qobs !! 39%nat = Some 1 ↔ QuickSortListEnv.prog_stack qself ≠ [])).
Proof.
  split.
  - intros H. pose proof (ListEnv_reachable_wf _ _ _ H) as Hwf.
    apply ListEnv_reachable_digits in H as [Hd Hr].
    destruct (ListEnv_observation_value _ _ Hwf Hd Hr) as (b & Hb & ->).
    intros <-%Some_Ret_inj. destruct Hwf as (Hl & _). rewrite Hl.
    match goal with
    | |- context [?r1 ++ ?r2 ++ ?fl] =>
        assert (Hdrop : drop 20 (r1 ++ r2 ++ fl) = fl)
    end.
    { change 20%nat with (10 + 10)%nat.
      by rewrite <- drop_drop, !drop_app_length' by (by rewrite eye_row_length). }
    split; [apply (flag_lookup _ _ 20 0 _ _ Hdrop eq_refl), Z.eqb_eq |].
    split; [apply (flag_lookup _ _ 20 1 _ _ Hdrop eq_refl), Z.eqb_eq |].
    split; [apply (flag_lookup _ _ 20 2 _ _ Hdrop eq_refl), Z.eqb_eq |].
    split; [apply (flag_lookup _ _ 20 3 _ _ Hdrop eq_refl), Z.eqb_eq |].
    split; [apply (flag_lookup _ _ 20 4 _ _ Hdrop eq_refl), Z.eqb_eq |].
    apply (flag_lookup _ _ 20 5 _ _ Hdrop eq_refl), Hb.
  - intros H. pose proof (QuickSort_reachable_inv _ _ _ H) as [Hwf _].
    apply QuickSort_reachable_digits in H as [Hd Hr].
    destruct (QuickSort_observation_value _ _ Hwf Hd Hr) as (b & Hb & ->).
    intros <-%Some_Ret_inj. destruct Hwf as (Hl & _ & _ & _ & _ & Hst).
    rewrite Hl.
    match goal with
    | |- context [?r1 ++ ?r2 ++ ?r3 ++ ?fl] =>
        assert (Hdrop : drop 30 (r1 ++ r2 ++ r3 ++ fl) = fl)
    end.
    { change 30%nat with (10 + (10 + 10))%nat.
      by rewrite <- !drop_drop, !drop_app_length' by (by rewrite eye_row_length). }
    split; [apply (flag_lookup _ _ 30 0 _ _ Hdrop eq_refl), Z.eqb_eq |].
    split; [apply (flag_lookup _ _ 30 1 _ _ Hdrop eq_refl), Z.eqb_eq |].
    split; [apply (flag_lookup _ _ 30 2 _ _ Hdrop eq_refl), Z.eqb_eq |].
    split; [apply (flag_lookup _ _ 30 3 _ _ Hdrop eq_refl), Z.eqb_eq |].
    split; [apply (flag_lookup _ _ 30 4 _ _ Hdrop eq_refl), Z.eqb_eq |].
    split; [apply (flag_lookup _ _ 30 5 _ _ Hdrop eq_refl), Z.eqb_eq |].
    split; [apply (flag_lookup _ _ 30 6 _ _ Hdrop eq_refl), Z.eqb_eq |].
    split; [apply (flag_lookup _ _ 30 7 _ _ Hdrop eq_refl), Z.eqb_eq |].
    split; [apply (flag_lookup _ _ 30 8 _ _ Hdrop eq_refl), Hb |].
    apply (flag_lookup _ _ 30 9 _ _ Hdrop eq_refl), stack_flag, Hst.
Qed.

Lemma X17_observation_flags_witness :
  ((np.eye_row 10 2 ++ np.eye_row 10 3 ++ [0; 0; 0; 1; 0; 1]) !! 25%nat = Some 1
   ↔ non_decreasing [1; 2; 3])
  ∧ ((np.eye_row 10 2 ++ np.eye_row 10 3 ++ np.eye_row 10 1
      ++ [0; 0; 0; 1; 1; 0; 0; 0; 1; 1]) !! 39%nat = Some 1
     ↔ [0; 1; 0] ≠ []).
Proof.
  pose proof (X17_observation_flags true 3
                (ListEnv.mkEnv 3 [1; 2; 3] 1 2 true)
                (QuickSortListEnv.mkEnv 3 [1; 2; 3] 1 2 0 [0; 1; 0] true)
                (np.eye_row 10 2 ++ np.eye_row 10 3 ++ [0; 0; 0; 1; 0; 1])
                (np.eye_row 10 2 ++ np.eye_row 10 3 ++ np.eye_row 10 1
                 ++ [0; 0; 0; 1; 1; 0; 0; 0; 1; 1])) as [H1 H2].
  split.
  - apply H1; [| vm_compute; reflexivity].
    apply (ListEnv.reach_reset true 3 3 "LSHIFT" (ListEnv.mkEnv 3 [] 0 0 false)
             (λ n, S n) 0 _ 5%nat); [lia | reflexivity | vm_compute; reflexivity].
  - apply H2; [| vm_compute; reflexivity].
    apply (QuickSortListEnv.reach_reset true 3 3 "LSHIFT"
             (QuickSortListEnv.mkEnv 3 [] 0 0 0 [] false) (λ n, S n) 0 _ 9%nat);
      [lia | reflexivity | vm_compute; reflexivity].
Defined.

(** ** PUSH of two sub-ranges *)

(** X18. The stack is last in, first out across the two sub-ranges: when
    PUSH appends both triples ([p3 + 1 < p2] and [p3 - 1 > 0]), the first
    POP loads the left sub-range [(p1, p3 - 1, p1)], the second POP loads the
    right sub-range [(p3 + 1, p2, p3 + 1)], and the stack is then what it was
    before PUSH; the scratchpad is never touched. *)
Theorem X18_push_then_two_pops (self : QuickSortListEnv.Env) :
  QuickSortListEnv.p3_pos self + 1 < QuickSortListEnv.p2_pos self →
  0 < QuickSortListEnv.p3_pos self - 1 →
  let p1 := QuickSortListEnv.p1_pos self in
  let p2 := QuickSortListEnv.p2_pos self in
  let p3 := QuickSortListEnv.p3_pos self in
  let left :=
    QuickSortListEnv.mkEnv (QuickSortListEnv.length self)
      (QuickSortListEnv.scratchpad_ints self) p1 (p3 - 1) p1
      (QuickSortListEnv.prog_stack self ++ [p3 + 1; p2; p3 + 1])
      (QuickSortListEnv.has_been_reset self) in
  let right :=
    QuickSortListEnv.mkEnv (QuickSortListEnv.length self)
      (QuickSortListEnv.scratchpad_ints self) (p3 + 1) p2 (p3 + 1)
      (QuickSortListEnv.prog_stack self)
      (QuickSortListEnv.has_been_reset self) in
  QuickSortListEnv._pop (QuickSortListEnv._push self) = Ret left
  ∧ QuickSortListEnv._pop left = Ret right.
Proof.
  intros H1 H2. cbn zeta. rewrite push_appends.
  replace (_ + 1 <? _) with true by (symmetry; by apply Z.ltb_lt).
  replace (0 <? _ - 1) with true by (symmetry; by apply Z.ltb_lt).
  split.
  - erewrite pop_last_three; [by qs_proj |]. qs_proj. by rewrite app_assoc.
  - erewrite pop_last_three; [by qs_proj |]. by qs_proj.
Qed.

Lemma X18_push_then_two_pops_witness :
  QuickSortListEnv._pop
    (QuickSortListEnv._push (QuickSortListEnv.mkEnv 8 [5; 0; 1; 2; 9; 7; 8; 3]
                               1 6 3 [0; 7; 0] true))
  = Ret (QuickSortListEnv.mkEnv 8 [5; 0; 1; 2; 9; 7; 8; 3] 1 2 1
           [0; 7; 0; 4; 6; 4] true)
  ∧ QuickSortListEnv._pop
      (QuickSortListEnv.mkEnv 8 [5; 0; 1; 2; 9; 7; 8; 3] 1 2 1
         [0; 7; 0; 4; 6; 4] true)
    = Ret (QuickSortListEnv.mkEnv 8 [5; 0; 1; 2; 9; 7; 8; 3] 4 6 4 [0; 7; 0] true).
Proof.
  apply (X18_push_then_two_pops
           (QuickSortListEnv.mkEnv 8 [5; 0; 1; 2; 9; 7; 8; 3] 1 6 3 [0; 7; 0] true));
    simpl; lia.
Defined.

(** ** The reference partition *)

Lemma lookup_total_eq (a b : list Z) (i j : nat) :
  a !! i = b !! j → a !!! i = b !!! j.
Proof. intros H. by rewrite !list_lookup_total_alt, H. Qed.

Lemma partition_loop_spec (x : Z) (h : nat) (n : nat) :
  ∀ (arr : list Z) (l j : nat),
    (j + n = h)%nat → (l ≤ j)%nat → (h < length arr)%nat →
    (∀ k : nat, (l ≤ k < j)%nat → x < arr !!! k) →
    ∃ (arr' : list Z) (l' : nat),
      QuickSortListEnv.partition_loop n x (Z.of_nat h) arr (Z.of_nat l) (Z.of_nat j)
      = Ret (arr', Z.of_nat l', Z.of_nat h)
      ∧ arr' ≡ₚ arr
      ∧ (l ≤ l' ≤ l + n)%nat
      ∧ (∀ k : nat, (k < l ∨ h ≤ k)%nat → arr' !! k = arr !! k)
      ∧ (∀ k : nat, (l ≤ k < l')%nat → arr' !!! k ≤ x)
      ∧ (∀ k : nat, (l' ≤ k < h)%nat → x < arr' !!! k).
Proof.
  induction n as [|n IH]; intros arr l j Hn Hl Hh Hgt.
  - assert (j = h) as -> by lia. exists arr, l.
    cbn [QuickSortListEnv.partition_loop]. rewrite Z.ltb_irrefl.
    repeat split; try done; try lia.
  - cbn [QuickSortListEnv.partition_loop].
    replace (Z.of_nat j <? Z.of_nat h) with true by (symmetry; apply Z.ltb_lt; lia).
    rewrite np_getitem_Z by lia. rewrite Nat2Z.id. cbn [mbind result_bind].
    destruct (arr !!! j <=? x) eqn:E; [apply Z.leb_le in E | apply Z.leb_gt in E].
    + rewrite np_swap_exchange by lia. cbn [mbind result_bind].
      replace (Z.of_nat l + 1) with (Z.of_nat (S l)) by lia.
      replace (Z.of_nat j + 1) with (Z.of_nat (S j)) by lia.
      destruct (IH (exchange arr j l) (S l) (S j))
        as (arr' & l' & -> & Hperm & Hl' & Hout & Hle & Hhi);
        [lia | lia | by rewrite exchange_length | |].
      { intros k Hk. destruct (decide (k = j)) as [-> | Hkj].
        - rewrite (lookup_total_eq _ arr _ l);
            [apply Hgt; lia | rewrite exchange_lookup by lia].
          rewrite decide_False by lia. by rewrite decide_True.
        - rewrite (lookup_total_eq _ arr _ k);
            [apply Hgt; lia | rewrite exchange_lookup by lia].
          by rewrite !decide_False by lia. }
      exists arr', l'. split; [done |].
      split; [by rewrite Hperm, exchange_Permutation by lia |].
      split; [lia |]. split; [| split; [| done]].
      * intros k Hk. rewrite Hout by lia. rewrite exchange_lookup by lia.
        by rewrite !decide_False by lia.
      * intros k Hk. destruct (decide (k = l)) as [-> | Hkl]; [| apply Hle; lia].
        rewrite (lookup_total_eq _ arr _ j); [done |].
        rewrite Hout by lia. rewrite exchange_lookup by lia.
        by rewrite decide_True.
    + cbn [mbind result_bind].
      replace (Z.of_nat j + 1) with (Z.of_nat (S j)) by lia.
      destruct (IH arr l (S j))
        as (arr' & l' & -> & Hperm & Hl' & Hout & Hle & Hhi); [lia | lia | done | |].
      { intros k Hk. destruct (decide (k = j)) as [-> | Hkj]; [lia | apply Hgt; lia]. }
      exists arr', l'. repeat split; try done; lia.
Qed.

(** X19. The reference [_partition], called with [j = l] on a range
    [[l, h]] inside the array, is a Lomuto partition around the pivot
    [arr[h]]: it returns a permutation of the array, unchanged outside the
    range, together with [l], [h] and the final position [m] of the pivot;
    the cells of the range before [m] are at most the pivot and those after
    [m] are greater. *)
Theorem X19_partition_is_lomuto (arr : list Z) (l h : nat) :
  (l ≤ h < length arr)%nat →
  ∃ (arr' : list Z) (m : nat),
    QuickSortListEnv._partition arr (Z.of_nat l) (Z.of_nat h) (Z.of_nat l)
    = Ret (arr', Z.of_nat l, Z.of_nat h, Z.of_nat m)
    ∧ partitioned arr arr' l h m.
Proof.
  intros [Hl Hh]. unfold QuickSortListEnv._partition.
  rewrite np_getitem_Z by lia. rewrite Nat2Z.id. cbn [mbind result_bind].
  replace (Z.to_nat (Z.of_nat h - Z.of_nat l)) with (h - l)%nat by lia.
  destruct (partition_loop_spec (arr !!! h) h (h - l) arr l l)
    as (arr' & m & -> & Hperm & Hm & Hout & Hle & Hhi); [lia | lia | lia | lia |].
  cbn [mbind result_bind].
  assert (Hlen : length arr' = length arr) by (by rewrite Hperm).
  rewrite np_swap_exchange by lia. cbn [mbind result_bind].
  exists (exchange arr' m h), m. split; [done |]. unfold partitioned.
  split; [by rewrite exchange_Permutation by lia |].
  split; [lia |].
  split; [| split; [| split]].
  - rewrite exchange_lookup by lia. rewrite <- (Hout h) by lia.
    case_decide as E; [by rewrite E |]. by rewrite decide_True.
  - intros k Hk. rewrite exchange_lookup by lia.
    rewrite !decide_False by lia. apply Hout. lia.
  - intros k Hk.
    rewrite (lookup_total_eq (exchange arr' m h) arr' k k); [apply Hle; lia |].
    rewrite exchange_lookup by lia. by rewrite !decide_False by lia.
  - intros k Hk. destruct (decide (k = h)) as [-> | Hkh].
    + rewrite (lookup_total_eq (exchange arr' m h) arr' h m); [apply Hhi; lia |].
      rewrite exchange_lookup by lia. by rewrite decide_True.
    + rewrite (lookup_total_eq (exchange arr' m h) arr' k k); [apply Hhi; lia |].
      rewrite exchange_lookup by lia. by rewrite !decide_False by lia.
Qed.

Lemma X19_partition_witness :
  ∃ (arr' : list Z) (m : nat),
    QuickSortListEnv._partition [3; 1; 4; 1; 2] (Z.of_nat 1) (Z.of_nat 4) (Z.of_nat 1)
    = Ret (arr', Z.of_nat 1, Z.of_nat 4, Z.of_nat m)
    ∧ partitioned [3; 1; 4; 1; 2] arr' 1 4 m.
Proof. apply (X19_partition_is_lomuto [3; 1; 4; 1; 2] 1 4). simpl. lia. Defined.

(** ** The dispatch tables against the registry *)

Lemma assign_indices_level (lib : gmap string Program) (name : string) (p : Program) :
  assign_indices lib !! name = Some p →
  ∃ p0, lib !! name = Some p0 ∧ level p = level p0.
Proof.
  intros Hp. destruct (lib !! name) as [p0|] eqn:Hname.
  - destruct (assign_indices_Some _ _ _ Hname) as (i & _ & Hi).
    rewrite Hi in Hp. injection Hp as <-. by exists p0.
  - by rewrite assign_indices_None in Hp.
Qed.

Lemma dispatch_from_lists {E S : Type} (l : list (string * Program))
  (funcs : gmap string (E → result E)) (pres : gmap string (E → bool))
  (posts : gmap string (E → S → S → result bool)) :
  NoDup l.*1 →
  Forall (λ e, is_Some (pres !! fst e)
               ∧ (level (snd e) ≤ 0 ∧ is_Some (funcs !! fst e)
                  ∧ posts !! fst e = None
                  ∨ 0 < level (snd e) ∧ funcs !! fst e = None
                    ∧ is_Some (posts !! fst e))) l →
  (∀ name, is_Some (pres !! name) ∨ is_Some (funcs !! name)
           ∨ is_Some (posts !! name) → name ∈ l.*1) →
  dispatch_consistent (assign_indices (list_to_map l)) funcs pres posts.
Proof.
  intros Hnd Hin Hout name.
  assert (Hlib : ∀ p, assign_indices (list_to_map l) !! name = Some p →
                      ∃ p0, (name, p0) ∈ l ∧ level p = level p0).
  { intros p Hp. apply assign_indices_level in Hp as (p0 & Hp0 & Hlev).
    exists p0. split; [by apply elem_of_list_to_map_2 | done]. }
  assert (Hmem : name ∈ l.*1 → ∃ p p0, assign_indices (list_to_map l) !! name = Some p
                                       ∧ (name, p0) ∈ l ∧ level p = level p0).
  { intros Hname. apply list_elem_of_fmap in Hname as ([name' p0] & -> & Hp0).
    cbn [fst]. apply (elem_of_list_to_map_1 (M := gmap string)) in Hp0 as Hl; [| done].
    destruct (assign_indices_Some _ _ _ Hl) as (i & _ & Hi).
    by exists (set_index i p0), p0. }
  assert (Hat : ∀ p0, (name, p0) ∈ l →
                  is_Some (pres !! name)
                  ∧ (level p0 ≤ 0 ∧ is_Some (funcs !! name) ∧ posts !! name = None
                     ∨ 0 < level p0 ∧ funcs !! name = None
                       ∧ is_Some (posts !! name))).
  { intros p0 Hp0. apply (proj1 (Forall_forall _ _) Hin _ Hp0). }
  assert (Hnd' : ∀ p0 p1, (name, p0) ∈ l → (name, p1) ∈ l → p0 = p1).
  { intros p0 p1 H0 H1.
    apply (elem_of_list_to_map_1 (M := gmap string)) in H0, H1; try done.
    congruence. }
  split; [| split].
  - split.
    + intros H. destruct (Hmem (Hout name (or_introl H))) as (p & _ & Hp & _). eauto.
    + intros [p Hp]. apply Hlib in Hp as (p0 & Hp0 & _). by apply Hat in Hp0 as [? _].
  - split.
    + intros H.
      destruct (Hmem (Hout name (or_intror (or_introl H)))) as (p & p0 & Hp & Hp0 & Hlev).
      exists p. split; [done |]. rewrite Hlev.
      apply Hat in Hp0 as [_ [(? & _) | (_ & Hnone & _)]]; [done |].
      rewrite Hnone in H. by destruct H.
    + intros (p & Hp & Hlev). apply Hlib in Hp as (p0 & Hp0 & Heq).
      apply Hat in Hp0 as [_ [(_ & ? & _) | (? & _)]]; [done | lia].
  - split.
    + intros H.
      destruct (Hmem (Hout name (or_intror (or_intror H)))) as (p & p0 & Hp & Hp0 & Hlev).
      exists p. split; [done |]. rewrite Hlev.
      apply Hat in Hp0 as [_ [(_ & _ & Hnone) | (? & _)]]; [| done].
      rewrite Hnone in H. by destruct H.
    + intros (p & Hp & Hlev). apply Hlib in Hp as (p0 & Hp0 & Heq).
      apply Hat in Hp0 as [_ [(? & _) | (_ & _ & ?)]]; [lia | done].
Qed.

(** X20. The dispatch tables agree with the registry, in both classes and
    for both values of [hierarchy]: a name has a precondition exactly when
    it is a program of [programs_library], a function exactly when it is a
    program of level at most 0, and a postcondition exactly when it is a
    program of level above 0. *)
Theorem X20_dispatch_tables_cover_registry (hierarchy : bool) :
  dispatch_consistent (ListEnv.programs_library hierarchy)
    (ListEnv.prog_to_func hierarchy) (ListEnv.prog_to_precondition hierarchy)
    (ListEnv.prog_to_postcondition hierarchy)
  ∧ dispatch_consistent (QuickSortListEnv.programs_library hierarchy)
      (QuickSortListEnv.prog_to_func hierarchy)
      (QuickSortListEnv.prog_to_precondition hierarchy)
      (QuickSortListEnv.prog_to_postcondition hierarchy).
Proof.
  split; destruct hierarchy; apply dispatch_from_lists.
  all: try (apply (bool_decide_unpack _); by vm_compute).
  all: try (repeat (apply Forall_cons_2; [table_entry |]); apply Forall_nil_2).
  all: intros name H; table_names H.
Qed.

(** ** The comparison-swap reference of the quicksort class *)

Lemma QuickSort_compare_state_eq (s t : QuickSortListEnv.State) :
  QuickSortListEnv.compare_state s t = true ↔ s = t.
Proof.
  destruct s as [[[[a p1] p2] p3] st], t as [[[[a' p1'] p2'] p3'] st'].
  unfold QuickSortListEnv.compare_state, np.array_equal.
  rewrite !andb_true_iff, !bool_decide_eq_true, !Z.eqb_eq.
  split; [intros; repeat f_equal; tauto | by intros [= -> -> -> -> ->]].
Qed.

(** X21. The [_compswap_postcondition] of the quicksort class never looks
    at the resulting state: it compares the outcome of the comparison-swap
    step with the snapshot it started from, so on a well-formed snapshot it
    returns [True] exactly when that step leaves the snapshot as it is,
    whatever state is being judged. *)
Theorem X21_quicksort_compswap_postcondition_ignores_state
  (self : QuickSortListEnv.Env) (a : list Z) (p1 p2 p3 : Z) (st : list Z)
  (state : QuickSortListEnv.State) :
  Z.of_nat (length a) = QuickSortListEnv.length self →
  0 ≤ p1 < Z.of_nat (length a) → 0 ≤ p2 < Z.of_nat (length a) →
  ∃ b : bool,
    QuickSortListEnv._compswap_postcondition self (a, p1, p2, p3, st) state = Ret b
    ∧ (b = true
       ↔ single_compswap_step (QuickSortListEnv.length self) (a, p1, p2, p3, st)
         = (a, p1, p2, p3, st)).
Proof.
  intros Hlen Hp1 Hp2. unfold QuickSortListEnv._compswap_postcondition.
  rewrite compswap_reference_single_step by done. cbn [mbind result_bind].
  eexists. split; [done |]. apply QuickSort_compare_state_eq.
Qed.

Lemma X21_quicksort_compswap_witness :
  ∃ b : bool,
    QuickSortListEnv._compswap_postcondition
      (QuickSortListEnv.mkEnv 3 [2; 1; 3] 0 1 0 [] true)
      ([2; 1; 3], 0, 1, 0, []) ([1; 2; 3], 0, 1, 0, []) = Ret b
    ∧ (b = true
       ↔ single_compswap_step 3 ([2; 1; 3], 0, 1, 0, []) = ([2; 1; 3], 0, 1, 0, [])).
Proof.
  apply (X21_quicksort_compswap_postcondition_ignores_state
           (QuickSortListEnv.mkEnv 3 [2; 1; 3] 0 1 0 [] true)
           [2; 1; 3] 0 1 0 [] ([1; 2; 3], 0, 1, 0, [])); simpl; lia.
Defined.

(** ** The stack that [reset_env] draws *)

(** X22. What [reset_env] of the quicksort class draws besides the
    pointers: a scratchpad of [length] decimal digits and a stack that is
    empty when [length] is even and holds three entries of
    [[0, length - 1)] when [length] is odd, whatever the task. *)
Theorem X22_quicksort_reset_draws_stack_for_odd_lengths
  (fuel : nat) (task : string) (self : QuickSortListEnv.Env)
  (rng : nat → nat) (k : nat) (self' : QuickSortListEnv.Env) (k' : nat) :
  QuickSortListEnv.reset_env fuel task self rng k = (self', Ret k') →
  digits (QuickSortListEnv.scratchpad_ints self')
  ∧ length (QuickSortListEnv.scratchpad_ints self')
    = Z.to_nat (QuickSortListEnv.length self)
  ∧ (Z.even (QuickSortListEnv.length self) = true →
     QuickSortListEnv.prog_stack self' = [])
  ∧ (Z.odd (QuickSortListEnv.length self) = true →
     length (QuickSortListEnv.prog_stack self') = 3%nat
     ∧ Forall (λ v, 0 ≤ v < QuickSortListEnv.length self - 1)
         (QuickSortListEnv.prog_stack self')).
Proof.
  unfold QuickSortListEnv.reset_env.
  destruct (randint_size 10 _ rng k) as [[a k1]| |] eqn:Ha; try done.
  apply randint_size_Ret in Ha as [Ha Hd]. qs_proj.
  destruct (randint_size _ _ rng k1) as [[st k2]| |] eqn:Hst; try done.
  apply randint_size_Ret in Hst as [Hst1 Hst2].
  destruct (QuickSortListEnv.init_pointers _ _ _ _ _) as [[[[p1 p2] p3] k3]| |];
    try done.
  intros [= <- _]. qs_proj. split; [done |]. split; [done |]. split.
  - intros He. apply Z.even_spec in He as [m Hm]. rewrite Hm in Hst1.
    replace (2 * m) with (m * 2) in Hst1 by lia. rewrite Z.mod_mul in Hst1 by lia.
    by apply nil_length_inv.
  - intros Ho. apply Z.odd_spec in Ho as [m Hm]. split; [| done].
    rewrite Hst1, Hm. replace (2 * m + 1) with (1 + m * 2) by lia.
    by rewrite Z.mod_add by lia.
Qed.

Lemma X22_quicksort_reset_witness :
  digits [1; 2; 3] ∧ length [1; 2; 3] = Z.to_nat 3
  ∧ (Z.even 3 = true → [0; 1; 0] = [])
  ∧ (Z.odd 3 = true →
     length [0; 1; 0] = 3%nat ∧ Forall (λ v, 0 ≤ v < 3 - 1) [0; 1; 0]).
Proof.
  apply (X22_quicksort_reset_draws_stack_for_odd_lengths 3 "LSHIFT"
           (QuickSortListEnv.mkEnv 3 [] 0 0 0 [] false) (λ n, S n) 0
           (QuickSortListEnv.mkEnv 3 [1; 2; 3] 1 2 0 [0; 1; 0] true) 9%nat).
  vm_compute. reflexivity.
Defined.
